(** * OpenDiS / ParaDiS utility layer ([core/pydis/util/Util_subset.c])

    A shallow embedding of the distributed-graph consistency routines of
    [Util_subset.c] and the properties of them that the specification states.

    Conventions of the embedding.
    - A C [int] is a [Z].  The functions below only compare ints, test a bit
      ([cycle & 0x01], two's complement, which is [Z.land] on [Z]), or count
      upwards inside a bound they have just checked.  The one product of
      the file, the byte count [int newSize] of [ExtendOpList], is computed
      as C computes it where ints have 32 bits and [size_t] has 64: past
      [INT_MAX] it wraps.
    - A [real8] (C [double]) is a primitive [float] (IEEE 754 binary64).
    - A C array is a [list]; reading or writing outside it, or through a
      pointer that addresses no node, is the outcome [Undefined].
    - A [Node_t *] is a [ptr]: [NULL] or the address of a node in the heap.
    - [Fatal] prints its message and exits: the outcome [FatalExit].
    - [printf] appends to the console of the [World]. *)

From Stdlib Require Import ZArith Floats Lia List.
From stdpp Require Import base option list gmap strings.

Open Scope Z_scope.

(** ** Outcomes and the state monad of the program *)

Inductive outcome (A : Type) : Type :=
| Ret (a : A)
| FatalExit (fmt : string) (args : list Z)
| Undefined.
Arguments Ret {A} a.
Arguments FatalExit {A} fmt args.
Arguments Undefined {A}.

(** ** Data model ([Home.h] is not part of the sources; the records list the
    fields that [Util_subset.c] reads and writes). *)

Record Tag_t := mkTag { domainID : Z; index : Z }.

Definition vec3 : Type := float * float * float.

Record Node_t := mkNode {
  myTag : Tag_t;
  x : float; y : float; z : float;
  vX : float; vY : float; vZ : float;
  fX : float; fY : float; fZ : float;
  numNbrs : Z;
  nbrTag : list Tag_t;
  burgX : list float; burgY : list float; burgZ : list float;
  nx : list float; ny : list float; nz : list float;
  armfx : list float; armfy : list float; armfz : list float;
  flags : Z
}.

Definition loc : Type := nat.
Definition ptr : Type := option loc.
Definition NULL : ptr := None.

Record RemoteDomain_t := mkRemoteDomain {
  maxTagIndex : Z;
  rd_nodeKeys : list ptr
}.

Record Param_t := mkParam {
  xBoundType : Z; yBoundType : Z; zBoundType : Z;
  Lx : float; Ly : float; Lz : float;
  invLx : float; invLy : float; invLz : float
}.

Definition OpType_t : Type := Z.

Record Operate_t := mkOp {
  op_type : OpType_t;
  op_dom1 : Z; op_idx1 : Z;
  op_dom2 : Z; op_idx2 : Z;
  op_dom3 : Z; op_idx3 : Z;
  op_bx : float; op_by : float; op_bz : float;
  op_x : float; op_y : float; op_z : float;
  op_nx : float; op_ny : float; op_nz : float
}.

(** A slot of the operation list is [None] while its memory is as [malloc] or
    [realloc] left it. *)
Record Home_t := mkHome {
  myDomain : Z;
  cycle : Z;
  newNodeKeyPtr : Z;
  nodeKeys : list ptr;
  remoteDomainKeys : list (option RemoteDomain_t);
  param : Param_t;
  opList : list (option Operate_t);
  OpCount : Z;
  OpListLen : Z
}.

Inductive Diag : Type :=
| Printf (fmt : string) (args : list Z)
| NodeDump (node : Node_t).

Record World := mkWorld {
  home : Home_t;
  heap : gmap loc Node_t;
  console : list Diag
}.

Definition M (A : Type) : Type := World -> outcome (A * World).

Definition ret {A} (a : A) : M A := fun w => Ret (a, w).

Definition bind {A B} (m : M A) (k : A -> M B) : M B :=
  fun w =>
    match m w with
    | Ret (a, w') => k a w'
    | FatalExit fmt args => FatalExit fmt args
    | Undefined => Undefined
    end.

Notation "'let*' v := m 'in' k" := (bind m (fun v => k))
  (at level 10, v pattern, m at level 100, k at level 200).
Notation "'run' m 'in' k" := (bind m (fun _ => k))
  (at level 10, m at level 100, k at level 200).

Definition lift {A} (o : outcome A) : M A :=
  fun w =>
    match o with
    | Ret a => Ret (a, w)
    | FatalExit fmt args => FatalExit fmt args
    | Undefined => Undefined
    end.

Definition get_home : M Home_t := fun w => Ret (home w, w).

Definition printf (fmt : string) (args : list Z) : M unit :=
  fun w => Ret (tt, mkWorld (home w) (heap w) (console w ++ [Printf fmt args])).

(** [Fatal(format, ...)]: the message is printed and the process exits, so no
    value and no further state come back. *)
Definition Fatal (fmt : string) (args : list Z) : M unit :=
  fun _ => FatalExit fmt args.

Definition b2z (b : bool) : Z := if b then 1 else 0.

(** The range of [int], and the conversion to [int] of a value that a wider
    unsigned type holds: modulo 2^32, as gcc and clang define it. *)
Definition INT_MAX : Z := 2147483647.
Definition INT_MIN : Z := -2147483648.

Definition to_int (v : Z) : Z := (v + 2 ^ 31) mod 2 ^ 32 - 2 ^ 31.

(** A step whose behaviour C leaves undefined. *)
Definition undefined {A} : M A := fun _ => Undefined.

Definition put_home (h : Home_t) : M unit :=
  fun w => Ret (tt, mkWorld h (heap w) (console w)).

Definition emit (d : Diag) : M unit :=
  fun w => Ret (tt, mkWorld (home w) (heap w) (console w ++ [d])).

(** [*p] for a node pointer: [NULL] and addresses without a node cannot be
    read or written. *)
Definition deref (p : ptr) : M Node_t :=
  fun w =>
    match p with
    | None => Undefined
    | Some l =>
        match heap w !! l with
        | Some n => Ret (n, w)
        | None => Undefined
        end
    end.

Definition store (p : ptr) (n : Node_t) : M unit :=
  fun w =>
    match p with
    | None => Undefined
    | Some l =>
        match heap w !! l with
        | Some _ => Ret (tt, mkWorld (home w) (<[l := n]> (heap w)) (console w))
        | None => Undefined
        end
    end.

(** [a[i]] as an rvalue and [a[i] = v]. *)
Definition aget {A} (a : list A) (i : Z) : outcome A :=
  if i <? 0 then Undefined
  else match a !! Z.to_nat i with
       | Some v => Ret v
       | None => Undefined
       end.

Definition aset {A} (a : list A) (i : Z) (v : A) : outcome (list A) :=
  if (i <? 0) || (Z.of_nat (length a) <=? i) then Undefined
  else Ret (<[Z.to_nat i := v]> a).

(** Field updates of the records. *)
Definition set_arm_forces (n : Node_t) (afx afy afz : list float) : Node_t :=
  mkNode (myTag n) (x n) (y n) (z n) (vX n) (vY n) (vZ n) (fX n) (fY n) (fZ n)
         (numNbrs n) (nbrTag n) (burgX n) (burgY n) (burgZ n)
         (nx n) (ny n) (nz n) afx afy afz (flags n).

Definition set_force (n : Node_t) (f : vec3) : Node_t :=
  mkNode (myTag n) (x n) (y n) (z n) (vX n) (vY n) (vZ n)
         (fst (fst f)) (snd (fst f)) (snd f)
         (numNbrs n) (nbrTag n) (burgX n) (burgY n) (burgZ n)
         (nx n) (ny n) (nz n) (armfx n) (armfy n) (armfz n) (flags n).

Definition set_flags (n : Node_t) (fl : Z) : Node_t :=
  mkNode (myTag n) (x n) (y n) (z n) (vX n) (vY n) (vZ n) (fX n) (fY n) (fZ n)
         (numNbrs n) (nbrTag n) (burgX n) (burgY n) (burgZ n)
         (nx n) (ny n) (nz n) (armfx n) (armfy n) (armfz n) fl.

Definition set_normals (n : Node_t) (anx any anz : list float) : Node_t :=
  mkNode (myTag n) (x n) (y n) (z n) (vX n) (vY n) (vZ n) (fX n) (fY n) (fZ n)
         (numNbrs n) (nbrTag n) (burgX n) (burgY n) (burgZ n)
         anx any anz (armfx n) (armfy n) (armfz n) (flags n).

Definition set_opList (h : Home_t) (l : list (option Operate_t)) (cnt len : Z)
  : Home_t :=
  mkHome (myDomain h) (cycle h) (newNodeKeyPtr h) (nodeKeys h)
         (remoteDomainKeys h) (param h) l cnt len.

(** The constants and collaborators that [Home.h] and the rest of ParaDiS
    supply.  [sizeof_Operate_t] is [sizeof(Operate_t)], the size in bytes of
    the structure that [Home.h] declares.  [rint] is the C library's;
    [DotProduct] is a macro of [Home.h];
    Modelled from the spec: [FindPreciseGlidePlane] and [PickScrewGlidePlane]
    are the external geometric-law and screw-plane collaborators, which derive
    a plane from the vectors they are given and write nothing but their
    result vector. *)
Class Externals := mkExternals {
  OPCLASS_SEPARATION : Z;
  OPCLASS_COLLISION : Z;
  OPCLASS_REMESH : Z;
  NODE_RESET_FORCES : Z;
  OpBlock_Count : Z;
  sizeof_Operate_t : Z;
  RESET_SEG_FORCES : OpType_t;
  Periodic : Z;
  rint : float -> float;
  DotProduct : vec3 -> vec3 -> float;
  FindPreciseGlidePlane : Home_t -> vec3 -> vec3 -> vec3;
  PickScrewGlidePlane : Home_t -> vec3 -> vec3
}.

(** The labels of a C [switch] are pairwise distinct. *)
Definition opclass_labels_distinct `{Externals} : Prop :=
  OPCLASS_SEPARATION <> OPCLASS_REMESH /\
  OPCLASS_COLLISION <> OPCLASS_REMESH /\
  OPCLASS_SEPARATION <> OPCLASS_COLLISION.

Section Program.
Context `{E : Externals}.

(** ** Normalize, NormalizeVec *)

Definition NormalizeVec (vec : vec3) : vec3 :=
  let '(v0, v1, v2) := vec in
  let a2 := (v0 * v0 + v1 * v1 + v2 * v2)%float in
  if (0 <? a2)%float
  then let a := PrimFloat.sqrt a2 in ((v0 / a)%float, (v1 / a)%float, (v2 / a)%float)
  else vec.

Definition Normalize (vec : vec3) : vec3 :=
  let '(ax, ay, az) := vec in
  let a2 := (ax * ax + ay * ay + az * az)%float in
  if (0 <? a2)%float
  then let a := PrimFloat.sqrt a2 in ((ax / a)%float, (ay / a)%float, (az / a)%float)
  else vec.

(** ** ZImage *)

Definition ZImage (prm : Param_t) (v : vec3) : vec3 :=
  let '(vx, vy, vz) := v in
  let vx := if xBoundType prm =? Periodic
            then (vx - rint (vx * invLx prm) * Lx prm)%float else vx in
  let vy := if yBoundType prm =? Periodic
            then (vy - rint (vy * invLy prm) * Ly prm)%float else vy in
  let vz := if zBoundType prm =? Periodic
            then (vz - rint (vz * invLz prm) * Lz prm)%float else vz in
  (vx, vy, vz).

(** ** Connected, GetArmID

    Both run the loop [for (i = 0; i < node1->numNbrs; i++)] that returns at
    the first [i] whose [nbrTag[i]] has the domain and index looked for;
    [ResetSegForces] runs it a third time.  [n] counts the iterations left. *)

Fixpoint scan_nbrTag (tags : list Tag_t) (dom idx : Z) (i n : nat)
  : outcome (option nat) :=
  match n with
  | O => Ret None
  | S n' =>
      match tags !! i with
      | None => Undefined
      | Some t =>
          if (dom =? domainID t) && (idx =? index t) then Ret (Some i)
          else scan_nbrTag tags dom idx (S i) n'
      end
  end.

(** Returns the pair of the result and of [*armID]. *)
Definition Connected (node1 node2 : ptr) : M (Z * Z) :=
  match node1, node2 with
  | Some _, Some _ =>
      let* n2 := deref node2 in
      let* n1 := deref node1 in
      let* r := lift (scan_nbrTag (nbrTag n1) (domainID (myTag n2))
                        (index (myTag n2)) 0 (Z.to_nat (numNbrs n1))) in
      match r with
      | Some i => ret (1, Z.of_nat i)
      | None => ret (0, -1)
      end
  | _, _ => ret (0, -1)
  end.

Definition GetArmID (node1 node2 : ptr) : M Z :=
  match node1, node2 with
  | Some _, Some _ =>
      let* n2 := deref node2 in
      let* n1 := deref node1 in
      let* r := lift (scan_nbrTag (nbrTag n1) (domainID (myTag n2))
                        (index (myTag n2)) 0 (Z.to_nat (numNbrs n1))) in
      match r with
      | Some i => ret (Z.of_nat i)
      | None => ret (-1)
      end
  | _, _ => ret (-1)
  end.

(** ** DomainOwnsSeg *)

Definition DomainOwnsSeg (opClass thisDomain : Z) (endTag : Tag_t) : M Z :=
  let* hm := get_home in
  if thisDomain =? domainID endTag then ret 1
  else if (opClass =? OPCLASS_SEPARATION) || (opClass =? OPCLASS_COLLISION) then
    if negb (Z.land (cycle hm) 1 =? 0)
    then ret (b2z (thisDomain >? domainID endTag))
    else ret (b2z (thisDomain <? domainID endTag))
  else if opClass =? OPCLASS_REMESH then
    if negb (Z.land (cycle hm) 1 =? 0)
    then ret (b2z (thisDomain <? domainID endTag))
    else ret (b2z (thisDomain >? domainID endTag))
  else
    run Fatal "Invalid opClass %d in DomainOwnsSeg()" [opClass] in
    ret 1.

(** ** GetNodeFromTag *)

Definition GetNodeFromTag (tag : Tag_t) : M ptr :=
  run (if (domainID tag <? 0) || (index tag <? 0)
       then Fatal "GetNodeFromTag: invalid tag (%d,%d)"
                  [domainID tag; index tag]
       else ret tt) in
  let* hm := get_home in
  if domainID tag =? myDomain hm then
    if index tag >=? newNodeKeyPtr hm then ret NULL
    else
      let* node := lift (aget (nodeKeys hm) (index tag)) in
      match node with
      | None => ret NULL
      | Some _ => ret node
      end
  else
    let* remDom := lift (aget (remoteDomainKeys hm) (domainID tag)) in
    match remDom with
    | None => ret NULL
    | Some rd =>
        if index tag >=? maxTagIndex rd then ret NULL
        else
          let* node := lift (aget (rd_nodeKeys rd) (index tag)) in
          ret node
    end.

(** ** PrintNode: the dump of a node is one console event. *)

Definition PrintNode (node : ptr) : M unit :=
  match node with
  | None => ret tt
  | Some _ => let* n := deref node in emit (NodeDump n)
  end.

(** ** GetNeighborNode (the [#else] branch, which is the one compiled) *)

Fixpoint GetNeighborNode_loop (tags : list Tag_t) (n j : Z) (i cnt : nat)
  : outcome (option Tag_t) :=
  match cnt with
  | O => Ret None
  | S cnt' =>
      match tags !! i with
      | None => Undefined
      | Some t =>
          let j := if domainID t >=? 0 then j + 1 else j in
          if j =? n then Ret (Some t)
          else GetNeighborNode_loop tags n j (S i) cnt'
      end
  end.

Definition GetNeighborNode (node : ptr) (n : Z) : M ptr :=
  let* nd := deref node in
  let* r := lift (GetNeighborNode_loop (nbrTag nd) n (-1) 0
                    (Z.to_nat (numNbrs nd))) in
  match r with
  | Some t => GetNodeFromTag t
  | None =>
      run printf "GetNeighborNode returning NULL for node (%d,%d) nbr %d\n"
                 [domainID (myTag nd); index (myTag nd); n] in
      run PrintNode node in
      ret NULL
  end.

(** ** ExtendOpList, AddOp

    [newSize = (home->OpListLen+OpBlock_Count) * sizeof(Operate_t)] is an
    [int]: the sum is an [int] sum, whose overflow is undefined; the product
    is taken in [size_t] and converted to [int].  [realloc] receives
    [newSize] converted back to [size_t]: a negative [newSize] is a request
    for 2^63 bytes or more, which [realloc] answers with [NULL], so that the
    list has no slot left that can be accessed; otherwise [realloc] is taken
    to succeed, and the buffer holds the whole slots that fit in [newSize]
    bytes, the old entries first and the new slots indeterminate. *)

Definition ExtendOpList : M unit :=
  let* hm := get_home in
  let newLen := OpListLen hm + OpBlock_Count in
  if (newLen <? INT_MIN) || (INT_MAX <? newLen) then undefined
  else
    let newSize := to_int (newLen * sizeof_Operate_t) in
    let slots := if newSize <? 0 then 0 else newSize / sizeof_Operate_t in
    put_home (set_opList hm (resize (Z.to_nat slots) None (opList hm))
                (OpCount hm) newLen).

Definition AddOp (type : OpType_t) (dom1 idx1 dom2 idx2 dom3 idx3 : Z)
  (bx by_ bz px py pz pnx pny pnz : float) : M unit :=
  let* hm := get_home in
  run (if OpCount hm >=? OpListLen hm then ExtendOpList else ret tt) in
  let* hm := get_home in
  let* l := lift (aset (opList hm) (OpCount hm)
                    (Some (mkOp type dom1 idx1 dom2 idx2 dom3 idx3
                             bx by_ bz px py pz pnx pny pnz))) in
  put_home (set_opList hm l (OpCount hm + 1) (OpListLen hm)).

(** ** ResetSegForces *)

Fixpoint sum_arm_forces (nd : Node_t) (acc : vec3) (i n : nat) : outcome vec3 :=
  match n with
  | O => Ret acc
  | S n' =>
      match armfx nd !! i, armfy nd !! i, armfz nd !! i with
      | Some gx, Some gy, Some gz =>
          let '(sx, sy, sz) := acc in
          sum_arm_forces nd ((sx + gx)%float, (sy + gy)%float, (sz + gz)%float)
                         (S i) n'
      | _, _, _ => Undefined
      end
  end.

Definition ResetSegForces (nodeA : ptr) (nodeBtag : Tag_t) (fx fy fz : float)
  (globalOp : Z) : M unit :=
  let* a := deref nodeA in
  run (if negb (globalOp =? 0)
       then AddOp RESET_SEG_FORCES
                  (domainID (myTag a)) (index (myTag a))
                  (domainID nodeBtag) (index nodeBtag)
                  (-1) (-1)
                  0%float 0%float 0%float
                  fx fy fz
                  0%float 0%float 0%float
       else ret tt) in
  let* r := lift (scan_nbrTag (nbrTag a) (domainID nodeBtag) (index nodeBtag)
                    0 (Z.to_nat (numNbrs a))) in
  let* a := match r with
            | Some i =>
                let* afx := lift (aset (armfx a) (Z.of_nat i) fx) in
                let* afy := lift (aset (armfy a) (Z.of_nat i) fy) in
                let* afz := lift (aset (armfz a) (Z.of_nat i) fz) in
                ret (set_arm_forces a afx afy afz)
            | None => ret a
            end in
  let* f := lift (sum_arm_forces a (0%float, 0%float, 0%float) 0
                    (Z.to_nat (numNbrs a))) in
  store nodeA (set_flags (set_force a f) (Z.lor (flags a) NODE_RESET_FORCES)).

(** ** RecalcSegGlidePlane *)

Definition ptr_eqb (p q : ptr) : bool :=
  match p, q with
  | None, None => true
  | Some a, Some b => Nat.eqb a b
  | _, _ => false
  end.

(** The plane that the geometric law derives for the segment from [n1] to
    [n2] whose Burgers vector is [burg]. *)
Definition derived_plane (hm : Home_t) (n1 n2 : Node_t) (burg : vec3) : vec3 :=
  let lineDir := ((x n2 - x n1)%float, (y n2 - y n1)%float, (z n2 - z n1)%float) in
  let lineDir := ZImage (param hm) lineDir in
  let lineDir := NormalizeVec lineDir in
  FindPreciseGlidePlane hm burg lineDir.

(** [1.0e-03] as a C compiler rounds it to binary64. *)
Definition screw_threshold : float := 0x1.0624dd2f1a9fcp-10%float.

Definition write_normal (node : ptr) (seg : Z) (pl : vec3) : M unit :=
  let* nd := deref node in
  let* anx := lift (aset (nx nd) seg (fst (fst pl))) in
  let* any := lift (aset (ny nd) seg (snd (fst pl))) in
  let* anz := lift (aset (nz nd) seg (snd pl)) in
  store node (set_normals nd anx any anz).

(** The end of the function: [Normalize] and the two symmetric writes. *)
Definition write_both (node1 node2 : ptr) (seg1 seg2 : Z) (pl : vec3) : M unit :=
  let pl := Normalize pl in
  run write_normal node1 seg1 pl in
  write_normal node2 seg2 pl.

Definition RecalcSegGlidePlane (node1 node2 : ptr) (ignoreIfScrew : Z) : M unit :=
  match node1, node2 with
  | Some _, Some _ =>
      if ptr_eqb node1 node2 then ret tt
      else
        let* c := Connected node1 node2 in
        let node1SegID := snd c in
        if fst c =? 0 then ret tt
        else
          let* node2SegID := GetArmID node2 node1 in
          let* hm := get_home in
          let* n1 := deref node1 in
          let* n2 := deref node2 in
          let* bX := lift (aget (burgX n1) node1SegID) in
          let* bY := lift (aget (burgY n1) node1SegID) in
          let* bZ := lift (aget (burgZ n1) node1SegID) in
          let burg := (bX, bY, bZ) in
          let newPlane := derived_plane hm n1 n2 burg in
          if (DotProduct newPlane newPlane <? screw_threshold)%float then
            if negb (ignoreIfScrew =? 0) then ret tt
            else write_both node1 node2 node1SegID node2SegID
                            (PickScrewGlidePlane hm burg)
          else write_both node1 node2 node1SegID node2SegID newPlane
  | _, _ => ret tt
  end.

End Program.

(** ** The rest of [Util_subset.c] *)

(** The sides of the problem box, fields of the parameter structure that
    [FoldBox] alone reads. *)
Record BoxSides := mkBoxSides {
  minSideX : float; maxSideX : float;
  minSideY : float; maxSideY : float;
  minSideZ : float; maxSideZ : float
}.

(** The fields of the home structure that [InitOpList] alone writes;
    [rcvOpList] is a pointer, [None] for [NULL]. *)
Record RcvOps := mkRcvOps {
  rcvOpCount : Z;
  rcvOpList : option (list Operate_t)
}.

(** The entry whose bytes are all zero. *)
Definition zero_op : Operate_t :=
  mkOp 0 0 0 0 0 0 0 0%float 0%float 0%float 0%float 0%float 0%float
       0%float 0%float 0%float.

Section ProgramRest.
Context `{E : Externals}.
Variable MARK_FORCES_OBSOLETE : OpType_t.

(** ** cross *)

Definition cross (a b : vec3) : vec3 :=
  let '(a0, a1, a2) := a in
  let '(b0, b1, b2) := b in
  ((a1 * b2 - a2 * b1)%float, (a2 * b0 - a0 * b2)%float,
   (a0 * b1 - a1 * b0)%float).

(** ** FoldBox, PBCPOSITION *)

Definition FoldBox (prm : Param_t) (sides : BoxSides) (v : vec3) : vec3 :=
  let '(vx, vy, vz) := v in
  let xc := ((maxSideX sides + minSideX sides) * 0.5)%float in
  let yc := ((maxSideY sides + minSideY sides) * 0.5)%float in
  let zc := ((maxSideZ sides + minSideZ sides) * 0.5)%float in
  let vx := if xBoundType prm =? Periodic
            then (vx - rint ((vx - xc) * invLx prm) * Lx prm)%float else vx in
  let vy := if yBoundType prm =? Periodic
            then (vy - rint ((vy - yc) * invLy prm) * Ly prm)%float else vy in
  let vz := if zBoundType prm =? Periodic
            then (vz - rint ((vz - zc) * invLz prm) * Lz prm)%float else vz in
  (vx, vy, vz).

Definition PBCPOSITION (prm : Param_t) (x0 y0 z0 : float) (v : vec3) : vec3 :=
  let '(vx, vy, vz) := v in
  let vx := if xBoundType prm =? Periodic
            then (vx - rint ((vx - x0) * invLx prm) * Lx prm)%float else vx in
  let vy := if yBoundType prm =? Periodic
            then (vy - rint ((vy - y0) * invLy prm) * Ly prm)%float else vy in
  let vz := if zBoundType prm =? Periodic
            then (vz - rint ((vz - z0) * invLz prm) * Lz prm)%float else vz in
  (vx, vy, vz).

(** ** MarkNodeForceObsolete *)

Definition MarkNodeForceObsolete (node : ptr) : M unit :=
  let* nd := deref node in
  run store node (set_flags nd (Z.lor (flags nd) NODE_RESET_FORCES)) in
  let* hm := get_home in
  if domainID (myTag nd) =? myDomain hm then ret tt
  else AddOp MARK_FORCES_OBSOLETE
             (domainID (myTag nd)) (index (myTag nd))
             (-1) (-1)
             (-1) (-1)
             0%float 0%float 0%float
             0%float 0%float 0%float
             0%float 0%float 0%float.

(** ** ClearOpList

    [memset] writes zero bytes over the first [OpListLen] slots; a length
    that is negative or beyond the buffer writes outside it. *)

Definition ClearOpList : M unit :=
  let* hm := get_home in
  if (OpListLen hm <? 0) || (Z.of_nat (length (opList hm)) <? OpListLen hm)
  then undefined
  else put_home (set_opList hm
                   (replicate (Z.to_nat (OpListLen hm)) (Some zero_op)
                    ++ drop (Z.to_nat (OpListLen hm)) (opList hm))
                   0
                   (OpListLen hm)).

(** ** InitOpList

    [malloc] is taken to succeed; the slots of the new buffer are
    indeterminate.  The result is what [rcvOpCount] and [rcvOpList] are set
    to. *)

Definition InitOpList : M RcvOps :=
  let* hm := get_home in
  run put_home (set_opList hm (replicate (Z.to_nat OpBlock_Count) None)
                  0 OpBlock_Count) in
  ret (mkRcvOps 0 None).

End ProgramRest.

(** ** Invariants of the data and the vocabulary of the specification *)

(** Every per-arm array of a node has room for its [numNbrs] arms. *)
Definition Node_wf (n : Node_t) : Prop :=
  let k := Z.to_nat (numNbrs n) in
  (k <= length (nbrTag n))%nat /\
  (k <= length (burgX n))%nat /\ (k <= length (burgY n))%nat /\
  (k <= length (burgZ n))%nat /\
  (k <= length (nx n))%nat /\ (k <= length (ny n))%nat /\
  (k <= length (nz n))%nat /\
  (k <= length (armfx n))%nat /\ (k <= length (armfy n))%nat /\
  (k <= length (armfz n))%nat.

(** The operation list holds [OpCount] entries in a buffer of [OpListLen]
    slots. *)
Definition Log_wf (h : Home_t) : Prop :=
  0 <= OpCount h <= OpListLen h /\
  (Z.to_nat (OpListLen h) <= length (opList h))%nat.

(** The next append, when it has to grow the list, asks for a number of
    bytes that an [int] holds; and so do all the growths that [n] appends
    need. *)
Definition append_fits `{Externals} (h : Home_t) : Prop :=
  OpListLen h <= OpCount h ->
  0 < sizeof_Operate_t /\
  (OpListLen h + OpBlock_Count) * sizeof_Operate_t <= INT_MAX.

Definition appends_fit `{Externals} (h : Home_t) (n : nat) : Prop :=
  OpListLen h < OpCount h + Z.of_nat n ->
  0 < sizeof_Operate_t /\
  (OpCount h + Z.of_nat n + OpBlock_Count) * sizeof_Operate_t <= INT_MAX.

(** What [AddOp] needs to return: a block size that makes room, a list
    inside its buffer, and a growth that fits. *)
Definition log_ready `{Externals} (h : Home_t) : Prop :=
  0 < OpBlock_Count /\ Log_wf h /\ append_fits h.

(** The high-water marks of the node tables lie inside the tables. *)
Definition Home_wf (h : Home_t) : Prop :=
  newNodeKeyPtr h <= Z.of_nat (length (nodeKeys h)) /\
  forall d rd, remoteDomainKeys h !! d = Some (Some rd) ->
               maxTagIndex rd <= Z.of_nat (length (rd_nodeKeys rd)).

(** The domain number of a tag is one of the [numDomains] entries of the
    remote-domain table. *)
Definition domain_known (h : Home_t) (tag : Tag_t) : Prop :=
  domainID tag = myDomain h \/
  domainID tag < Z.of_nat (length (remoteDomainKeys h)).

Definition tag_eqb (s t : Tag_t) : bool :=
  (domainID s =? domainID t) && (index s =? index t).

(** Arm [i] is the first arm of [n] that ends at [tag]. *)
Definition first_arm_to (n : Node_t) (tag : Tag_t) (i : nat) : Prop :=
  (i < Z.to_nat (numNbrs n))%nat /\
  nbrTag n !! i = Some tag /\
  forall j t, (j < i)%nat -> nbrTag n !! j = Some t -> t <> tag.

(** No arm of [n] ends at [tag]. *)
Definition no_arm_to (n : Node_t) (tag : Tag_t) : Prop :=
  forall j t, (j < Z.to_nat (numNbrs n))%nat -> nbrTag n !! j = Some t -> t <> tag.

(** The sum of the forces of the arms: the first [numNbrs] entries, added in
    the order of the arms, starting from zero. *)
Definition arm_sum (forces : list float) (numArms : Z) : float :=
  fold_left PrimFloat.add (take (Z.to_nat numArms) forces) 0%float.

(** The neighbor tags of a node that are valid, in the order of the arms. *)
Definition valid_nbrs (n : Node_t) : list Tag_t :=
  List.filter (fun t => 0 <=? domainID t) (take (Z.to_nat (numNbrs n)) (nbrTag n)).

Definition flag_set (fl mask : Z) : Prop := Z.land fl mask = mask.

(** [AddOp] called once per entry of [ops], in the order of the list. *)
Fixpoint AddOps `{Externals} (ops : list Operate_t) : M unit :=
  match ops with
  | [] => ret tt
  | op :: rest =>
      run AddOp (op_type op) (op_dom1 op) (op_idx1 op) (op_dom2 op) (op_idx2 op)
                (op_dom3 op) (op_idx3 op) (op_bx op) (op_by op) (op_bz op)
                (op_x op) (op_y op) (op_z op) (op_nx op) (op_ny op) (op_nz op) in
      AddOps rest
  end.

(** The three classes that [DomainOwnsSeg] accepts, and whether a class takes
    the branch of remesh, given that it is one of the three. *)
Definition valid_opClass `{Externals} (opClass : Z) : Prop :=
  opClass = OPCLASS_SEPARATION \/ opClass = OPCLASS_COLLISION \/
  opClass = OPCLASS_REMESH.

Definition rule_inverted `{Externals} (opClass : Z) : bool :=
  negb ((opClass =? OPCLASS_SEPARATION) || (opClass =? OPCLASS_COLLISION)).

(** The negation claimed between the two operation classes, on results. *)
Definition negates (r r' : Z) : Prop := (r = 1 /\ r' = 0) \/ (r = 0 /\ r' = 1).

(** The value of a run, without the state it ends in. *)
Definition outcome_value {A} (o : outcome (A * World)) : outcome A :=
  match o with
  | Ret (a, _) => Ret a
  | FatalExit fmt args => FatalExit fmt args
  | Undefined => Undefined
  end.

(** Node [a] with the force of arm [i] replaced. *)
Definition with_arm_force (a : Node_t) (i : nat) (fx fy fz : float) : Node_t :=
  set_arm_forces a (<[i := fx]> (armfx a)) (<[i := fy]> (armfy a))
                 (<[i := fz]> (armfz a)).

(** Node [a] with its total force summed again from its arms and the flag
    [mask] raised. *)
Definition resummed (a : Node_t) (mask : Z) : Node_t :=
  set_flags
    (set_force a (arm_sum (armfx a) (numNbrs a), arm_sum (armfy a) (numNbrs a),
                  arm_sum (armfz a) (numNbrs a)))
    (Z.lor (flags a) mask).

(** Node [n] with the glide-plane normal of arm [i] replaced. *)
Definition with_normal (n : Node_t) (i : nat) (pl : vec3) : Node_t :=
  set_normals n (<[i := fst (fst pl)]> (nx n)) (<[i := snd (fst pl)]> (ny n))
              (<[i := snd pl]> (nz n)).

(** The home fields that are not the operation list. *)
Definition same_tables (h h' : Home_t) : Prop :=
  myDomain h' = myDomain h /\ cycle h' = cycle h /\
  newNodeKeyPtr h' = newNodeKeyPtr h /\ nodeKeys h' = nodeKeys h /\
  remoteDomainKeys h' = remoteDomainKeys h /\ param h' = param h.

(** The state after [GetNeighborNode] has reported that [nd] has no neighbor
    [n]. *)
Definition neighbor_not_found (w : World) (nd : Node_t) (n : Z) : World :=
  mkWorld (home w) (heap w)
    (console w ++
     [Printf "GetNeighborNode returning NULL for node (%d,%d) nbr %d\n"
             [domainID (myTag nd); index (myTag nd); n];
      NodeDump nd]).

(** A run that, when it returns, has left the home and the console as they
    were, and that never ends in [Fatal]. *)
Definition local_only {A} (m : M A) : Prop :=
  forall w : World,
    match m w with
    | Ret (_, w') => home w' = home w /\ console w' = console w
    | FatalExit _ _ => False
    | Undefined => True
    end.

Definition not_fatal {A} (o : outcome A) : Prop :=
  match o with
  | FatalExit _ _ => False
  | _ => True
  end.

(** The plane that the function writes when it writes one. *)
Definition chosen_plane `{Externals} (hm : Home_t) (n1 n2 : Node_t) (burg : vec3) : vec3 :=
  let newPlane := derived_plane hm n1 n2 burg in
  if (DotProduct newPlane newPlane <? screw_threshold)%float
  then PickScrewGlidePlane hm burg
  else newPlane.

(** ** A concrete configuration, for evaluating the program *)

Module Demo.

Definition dot (a b : vec3) : float :=
  let '(a0, a1, a2) := a in
  let '(b0, b1, b2) := b in
  (a0 * b0 + a1 * b1 + a2 * b2)%float.

Definition crossv (a b : vec3) : vec3 :=
  let '(a0, a1, a2) := a in
  let '(b0, b1, b2) := b in
  ((a1 * b2 - a2 * b1)%float, (a2 * b0 - a0 * b2)%float, (a0 * b1 - a1 * b0)%float).

Definition ext : Externals := {|
  OPCLASS_SEPARATION := 1;
  OPCLASS_COLLISION := 2;
  OPCLASS_REMESH := 3;
  NODE_RESET_FORCES := 1;
  OpBlock_Count := 2;
  sizeof_Operate_t := 104;
  RESET_SEG_FORCES := 7;
  Periodic := 0;
  rint := fun v => v;
  DotProduct := dot;
  FindPreciseGlidePlane := fun _ burg lineDir => crossv burg lineDir;
  PickScrewGlidePlane := fun _ _ => (1%float, 0%float, 0%float)
|}.

Definition prm : Param_t :=
  mkParam 1 1 1 1%float 1%float 1%float 1%float 1%float 1%float.

Definition home_at (cyc : Z) : Home_t :=
  mkHome 0 cyc 0 [] [] prm [] 0 0.

Definition world_at (cyc : Z) : World := mkWorld (home_at cyc) ∅ [].

(** Node A = (0,3) at address 0 has one arm to B = (1,7), along its Burgers
    vector (a screw segment).  B is cached at address 1 with arms back to A
    and to D.  Node C = (0,2) at address 2 has a removed arm in slot 0 and an
    arm to B in slot 1, which B does not return.  Node D = (0,1) at address 3
    has one arm to B, across its Burgers vector. *)
Definition nodeA : Node_t :=
  mkNode (mkTag 0 3) 0%float 0%float 0%float 0%float 0%float 0%float
         1%float 2%float 3%float
         1 [mkTag 1 7] [1%float] [0%float] [0%float]
         [0%float] [0%float] [1%float] [1%float] [2%float] [3%float] 0.

Definition nodeB : Node_t :=
  mkNode (mkTag 1 7) 1%float 0%float 0%float 0%float 0%float 0%float
         0%float 0%float 0%float
         2 [mkTag 0 3; mkTag 0 1] [(-1)%float; 0%float] [0%float; (-1)%float]
         [0%float; 0%float]
         [0%float; 0%float] [0%float; 1%float] [1%float; 0%float]
         [0%float; 0%float] [0%float; 0%float] [0%float; 0%float] 0.

Definition nodeC : Node_t :=
  mkNode (mkTag 0 2) 0%float 1%float 0%float 0%float 0%float 0%float
         0%float 0%float 0%float
         2 [mkTag (-1) 0; mkTag 1 7] [0%float; 0%float] [0%float; 1%float]
         [0%float; 0%float]
         [0%float; 0%float] [0%float; 0%float] [0%float; 1%float]
         [0%float; 0%float] [0%float; 0%float] [0%float; 0%float] 0.

Definition nodeD : Node_t :=
  mkNode (mkTag 0 1) 0%float 0%float 0%float 0%float 0%float 0%float
         0%float 0%float 0%float
         1 [mkTag 1 7] [0%float] [1%float] [0%float]
         [0%float] [1%float] [0%float] [0%float] [0%float] [0%float] 0.

Definition remote1 : RemoteDomain_t :=
  mkRemoteDomain 8 [None; None; None; None; None; None; None; Some 1%nat].

Definition home0 : Home_t :=
  mkHome 0 4 4 [None; Some 3%nat; Some 2%nat; Some 0%nat] [None; Some remote1]
         prm [] 0 0.

Definition heap0 : gmap loc Node_t :=
  <[0%nat := nodeA]> (<[1%nat := nodeB]> (<[2%nat := nodeC]>
    (<[3%nat := nodeD]> ∅))).

Definition op (k : Z) : Operate_t :=
  mkOp k 0 k 1 7 (-1) (-1) 0%float 0%float 0%float
       1%float 2%float 3%float 0%float 0%float 0%float.

Definition world0 : World := mkWorld home0 heap0 [].

(** A list of capacity 3 that holds two entries, and a node without arms at
    address 4. *)
Definition home1 : Home_t :=
  mkHome 0 4 4 [None; Some 3%nat; Some 2%nat; Some 0%nat] [None; Some remote1]
         prm [Some (op 1); Some (op 2); None] 2 3.

Definition world1 : World := mkWorld home1 heap0 [].

Definition nodeE : Node_t :=
  mkNode (mkTag 0 0) 0%float 0%float 0%float 0%float 0%float 0%float
         7%float 8%float 9%float
         0 [] [] [] [] [] [] [] [] [] [] 0.

Definition worldE : World := mkWorld home0 (<[4%nat := nodeE]> heap0) [].

(** A full list of 20 648 880 entries: with entries of 104 bytes, the next
    block of two brings the byte count of the buffer to 2 147 483 728, past
    INT_MAX = 2 147 483 647. *)
Definition homeFull : Home_t :=
  mkHome 0 4 4 [None; Some 3%nat; Some 2%nat; Some 0%nat] [None; Some remote1]
         prm (replicate (Z.to_nat 20648880) (Some (op 1))) 20648880 20648880.

Definition worldFull : World := mkWorld homeFull heap0 [].

End Demo.

(** ** Properties *)

Section Properties.
Context `{E : Externals}.

(** *** The monad *)

Lemma bind_Ret {A B} (m : M A) (k : A -> M B) (w : World) (a : A) (w' : World) :
  m w = Ret (a, w') -> bind m k w = k a w'.
Proof. intros H. unfold bind. now rewrite H. Qed.

Lemma lift_Ret {A} (o : outcome A) (a : A) (w : World) :
  o = Ret a -> lift o w = Ret (a, w).
Proof. now intros ->. Qed.

Lemma deref_heap (l : loc) (nd : Node_t) (w : World) :
  heap w !! l = Some nd -> deref (Some l) w = Ret (nd, w).
Proof. intros H. unfold deref. now rewrite H. Qed.

Lemma PrintNode_heap (l : loc) (nd : Node_t) (w : World) :
  heap w !! l = Some nd ->
  PrintNode (Some l) w =
  Ret (tt, mkWorld (home w) (heap w) (console w ++ [NodeDump nd])).
Proof.
  intros H. unfold PrintNode.
  now rewrite (bind_Ret _ _ _ _ _ (deref_heap _ _ _ H)).
Qed.

(** *** Arrays *)

Lemma aget_lookup {A} (a : list A) (i : Z) (v : A) :
  0 <= i -> a !! Z.to_nat i = Some v -> aget a i = Ret v.
Proof.
  intros Hi Hv. unfold aget.
  destruct (Z.ltb_spec i 0); [lia|]. now rewrite Hv.
Qed.

Lemma aget_in_range {A} (a : list A) (i : Z) :
  0 <= i < Z.of_nat (length a) ->
  exists v, a !! Z.to_nat i = Some v /\ aget a i = Ret v.
Proof.
  intros Hi.
  destruct (lookup_lt_is_Some_2 a (Z.to_nat i)) as [v Hv]; [lia|].
  exists v. split; [exact Hv|]. apply aget_lookup; [lia | exact Hv].
Qed.

Lemma aset_in_range {A} (a : list A) (i : Z) (v : A) :
  0 <= i < Z.of_nat (length a) ->
  aset a i v = Ret (<[Z.to_nat i := v]> a).
Proof.
  intros Hi. unfold aset.
  destruct (Z.ltb_spec i 0); [lia|].
  destruct (Z.leb_spec (Z.of_nat (length a)) i); [lia|]. reflexivity.
Qed.

Lemma aset_negative {A} (a : list A) (i : Z) (v : A) :
  i < 0 -> aset a i v = Undefined.
Proof.
  intros Hi. unfold aset. destruct (Z.ltb_spec i 0); [reflexivity | lia].
Qed.

(** *** GetNodeFromTag *)

Lemma GetNodeFromTag_negative (tag : Tag_t) (w : World) :
  domainID tag < 0 \/ index tag < 0 ->
  GetNodeFromTag tag w =
  FatalExit "GetNodeFromTag: invalid tag (%d,%d)" [domainID tag; index tag].
Proof.
  intros H. unfold GetNodeFromTag, bind, Fatal.
  destruct (Z.ltb_spec (domainID tag) 0), (Z.ltb_spec (index tag) 0);
    cbn; try reflexivity; lia.
Qed.

Lemma GetNodeFromTag_not_fatal (tag : Tag_t) (w : World) :
  0 <= domainID tag -> 0 <= index tag ->
  forall fmt args, GetNodeFromTag tag w <> FatalExit fmt args.
Proof.
  intros Hd Hi fmt args. unfold GetNodeFromTag, bind, get_home, ret, lift, aget.
  destruct (Z.ltb_spec (domainID tag) 0); [lia|].
  destruct (Z.ltb_spec (index tag) 0); [lia|]. cbn.
  repeat (case_match; try discriminate).
Qed.

(** C5. GetNodeFromTag ends in Fatal exactly for a tag with a negative
    domainID or a negative index.  For a tag with non-negative components,
    on node tables whose high-water marks lie inside them and for a domain
    that has an entry in the table of remote domains, it returns and leaves
    the state as it was: for a local tag, the node of the slot when
    the index is below newNodeKeyPtr and the slot is not empty, NULL
    otherwise; for a remote tag, NULL when the domain has no cache, when the
    index is at or beyond maxTagIndex, or when the slot is empty, and the
    cached node otherwise. *)
Theorem GetNodeFromTag_spec :
  forall (w : World) (tag : Tag_t),
    ((exists fmt args, GetNodeFromTag tag w = FatalExit fmt args) <->
     (domainID tag < 0 \/ index tag < 0)) /\
    (0 <= domainID tag -> 0 <= index tag ->
     Home_wf (home w) -> domain_known (home w) tag ->
     exists r : ptr,
       GetNodeFromTag tag w = Ret (r, w) /\
       (domainID tag = myDomain (home w) ->
        (index tag < newNodeKeyPtr (home w) ->
         nodeKeys (home w) !! Z.to_nat (index tag) = Some r) /\
        (newNodeKeyPtr (home w) <= index tag -> r = NULL)) /\
       (domainID tag <> myDomain (home w) ->
        exists cache : option RemoteDomain_t,
          remoteDomainKeys (home w) !! Z.to_nat (domainID tag) = Some cache /\
          match cache with
          | None => r = NULL
          | Some rd =>
              (index tag < maxTagIndex rd ->
               rd_nodeKeys rd !! Z.to_nat (index tag) = Some r) /\
              (maxTagIndex rd <= index tag -> r = NULL)
          end)).
Proof.
  intros w tag. split.
  - split.
    + intros (fmt & args & H).
      destruct (Z.lt_ge_cases (domainID tag) 0) as [|Hd]; [auto|].
      destruct (Z.lt_ge_cases (index tag) 0) as [|Hi]; [auto|].
      now apply GetNodeFromTag_not_fatal in H.
    + intros H. eexists _, _. now apply GetNodeFromTag_negative.
  - intros Hd Hi [Hloc Hrem] Hknown.
    unfold GetNodeFromTag, bind, get_home, ret, lift, Fatal.
    destruct (Z.ltb_spec (domainID tag) 0); [lia|].
    destruct (Z.ltb_spec (index tag) 0); [lia|]. cbn [orb].
    destruct (Z.eqb_spec (domainID tag) (myDomain (home w))) as [Heq|Hne].
    + destruct (Z.geb_spec (index tag) (newNodeKeyPtr (home w))) as [Hge|Hlt].
      * exists NULL. split; [reflexivity|]. split; [|tauto].
        intros _. split; [lia | reflexivity].
      * destruct (aget_in_range (nodeKeys (home w)) (index tag))
          as (v & Hv & ->); [lia|].
        exists v. split; [now destruct v|]. split; [|tauto].
        intros _. split; [intros _; exact Hv | lia].
    + destruct Hknown as [|Hknown]; [contradiction|].
      destruct (aget_in_range (remoteDomainKeys (home w)) (domainID tag))
        as (cache & Hc & ->); [lia|].
      destruct cache as [rd|].
      * destruct (Z.geb_spec (index tag) (maxTagIndex rd)) as [Hge|Hlt].
        -- exists NULL. split; [reflexivity|]. split; [tauto|].
           intros _. exists (Some rd). split; [exact Hc|].
           split; [lia | reflexivity].
        -- specialize (Hrem _ _ Hc).
           destruct (aget_in_range (rd_nodeKeys rd) (index tag))
             as (v & Hv & ->); [lia|].
           exists v. split; [reflexivity|]. split; [tauto|].
           intros _. exists (Some rd). split; [exact Hc|].
           split; [intros _; exact Hv | lia].
      * exists NULL. split; [reflexivity|]. split; [tauto|].
        intros _. exists None. split; [exact Hc | reflexivity].
Qed.

(** *** GetNeighborNode *)

Lemma take_drop_S {A} (l : list A) (i cnt : nat) (t : A) :
  l !! i = Some t ->
  take (S cnt) (drop i l) = t :: take cnt (drop (S i) l).
Proof.
  intros H. rewrite (drop_S l t i H). reflexivity.
Qed.

(** With [j] valid arms counted so far, none of them the one asked for, the
    loop over the arms [i .. i+cnt-1] ends at the valid arm of rank
    [n - j - 1] among them. *)
Lemma GetNeighborNode_loop_spec (tags : list Tag_t) (n : Z) (cnt : nat) :
  forall (j : Z) (i : nat),
    j < n ->
    (i + cnt <= length tags)%nat ->
    GetNeighborNode_loop tags n j i cnt =
    Ret (List.filter (fun t => 0 <=? domainID t) (take cnt (drop i tags))
           !! Z.to_nat (n - j - 1)).
Proof.
  induction cnt as [|cnt IH]; intros j i Hj Hlen.
  - cbn. now rewrite take_0.
  - cbn [GetNeighborNode_loop].
    destruct (lookup_lt_is_Some_2 tags i) as [t Ht]; [lia|].
    rewrite Ht, (take_drop_S _ _ _ _ Ht). cbn [List.filter].
    rewrite Z.geb_leb.
    destruct (Z.leb_spec 0 (domainID t)) as [Hv|Hv].
    + destruct (Z.eqb_spec (j + 1) n) as [He|Hne].
      * replace (n - j - 1) with 0 by lia. reflexivity.
      * rewrite IH by lia.
        replace (Z.to_nat (n - j - 1)) with (S (Z.to_nat (n - (j + 1) - 1)))
          by lia.
        reflexivity.
    + destruct (Z.eqb_spec j n) as [->|Hne]; [lia|].
      now rewrite IH by lia.
Qed.

(** C9. For a node whose neighbor list may hold removed arms (domainID below
    0) and n at least 0, GetNeighborNode passes over the removed arms and
    resolves, with GetNodeFromTag, the tag of the valid arm of rank n
    (counted from 0), which need not be the arm in slot n; when the node has
    fewer than n+1 valid arms it prints the diagnostic and the dump of the
    node, and returns NULL. *)
Theorem GetNeighborNode_nth_valid :
  (forall (w : World) (l : loc) (nd : Node_t) (n : Z),
     0 <= n ->
     heap w !! l = Some nd ->
     Node_wf nd ->
     (forall t : Tag_t,
        valid_nbrs nd !! Z.to_nat n = Some t ->
        GetNeighborNode (Some l) n w = GetNodeFromTag t w) /\
     ((length (valid_nbrs nd) <= Z.to_nat n)%nat ->
      GetNeighborNode (Some l) n w =
      Ret (NULL,
           mkWorld (home w) (heap w)
             (console w ++
              [Printf "GetNeighborNode returning NULL for node (%d,%d) nbr %d\n"
                      [domainID (myTag nd); index (myTag nd); n];
               NodeDump nd])))) /\
  (exists (nd : Node_t) (t : Tag_t),
     Node_wf nd /\ valid_nbrs nd !! 0%nat = Some t /\ nbrTag nd !! 0%nat <> Some t).
Proof.
  split.
  - intros w l nd n Hn Hnd Hwf.
    assert (Hloop :
      GetNeighborNode (Some l) n w =
      match valid_nbrs nd !! Z.to_nat n with
      | Some t => GetNodeFromTag t w
      | None =>
          (run printf "GetNeighborNode returning NULL for node (%d,%d) nbr %d\n"
                      [domainID (myTag nd); index (myTag nd); n] in
           run PrintNode (Some l) in ret NULL) w
      end).
    { unfold GetNeighborNode, bind at 1. rewrite (deref_heap _ _ _ Hnd).
      unfold bind at 1, lift.
      rewrite GetNeighborNode_loop_spec; [|lia|apply Hwf].
      rewrite drop_0. replace (n - -1 - 1) with n by lia.
      fold (valid_nbrs nd). now destruct (valid_nbrs nd !! Z.to_nat n). }
    split.
    + intros t Ht. now rewrite Hloop, Ht.
    + intros Hfew. rewrite Hloop, (lookup_ge_None_2 _ _ Hfew).
      unfold bind at 1, printf.
      erewrite bind_Ret; [|apply PrintNode_heap; exact Hnd].
      unfold ret. cbn [heap home console]. now rewrite <- app_assoc.
  - exists (mkNode (mkTag 0 2) 0%float 0%float 0%float 0%float 0%float 0%float
              0%float 0%float 0%float 2 [mkTag (-1) 0; mkTag 1 7]
              [0%float; 0%float] [0%float; 0%float] [0%float; 0%float]
              [0%float; 0%float] [0%float; 0%float] [0%float; 0%float]
              [0%float; 0%float] [0%float; 0%float] [0%float; 0%float] 0),
           (mkTag 1 7).
    split; [|split].
    + unfold Node_wf. cbn. lia.
    + reflexivity.
    + cbn. discriminate.
Qed.

(** *** ExtendOpList, AddOp *)

Lemma Operate_eta (op : Operate_t) :
  mkOp (op_type op) (op_dom1 op) (op_idx1 op) (op_dom2 op) (op_idx2 op)
       (op_dom3 op) (op_idx3 op) (op_bx op) (op_by op) (op_bz op)
       (op_x op) (op_y op) (op_z op) (op_nx op) (op_ny op) (op_nz op) = op.
Proof. now destruct op. Qed.

Lemma same_tables_refl (h : Home_t) : same_tables h h.
Proof. repeat split. Qed.

Lemma same_tables_trans (h1 h2 h3 : Home_t) :
  same_tables h1 h2 -> same_tables h2 h3 -> same_tables h1 h3.
Proof.
  unfold same_tables. intros (?&?&?&?&?&?) (?&?&?&?&?&?).
  repeat split; congruence.
Qed.

Lemma to_int_small (v : Z) : INT_MIN <= v <= INT_MAX -> to_int v = v.
Proof.
  unfold INT_MIN, INT_MAX, to_int. intros Hv.
  rewrite Z.mod_small by lia. lia.
Qed.

Lemma to_int_wrapped (v : Z) : INT_MAX < v < 2 ^ 32 -> to_int v = v - 2 ^ 32.
Proof.
  unfold INT_MAX, to_int. intros Hv.
  replace (v + 2 ^ 31) with ((v - 2 ^ 31) + 1 * 2 ^ 32) by lia.
  rewrite Z.mod_add by lia. rewrite Z.mod_small by lia. lia.
Qed.

(** A growth whose byte count fits in an [int] adds [OpBlock_Count] slots. *)
Lemma ExtendOpList_fits (w : World) :
  0 < OpBlock_Count -> 0 <= OpListLen (home w) -> 0 < sizeof_Operate_t ->
  (OpListLen (home w) + OpBlock_Count) * sizeof_Operate_t <= INT_MAX ->
  ExtendOpList w =
  Ret (tt,
       mkWorld
         (set_opList (home w)
            (resize (Z.to_nat (OpListLen (home w) + OpBlock_Count)) None
                    (opList (home w)))
            (OpCount (home w)) (OpListLen (home w) + OpBlock_Count))
         (heap w) (console w)).
Proof.
  intros HB Hlen Hs Hfit. unfold ExtendOpList, bind, get_home. cbv zeta.
  assert (Hsum : OpListLen (home w) + OpBlock_Count
                 <= (OpListLen (home w) + OpBlock_Count) * sizeof_Operate_t)
    by nia.
  unfold INT_MIN in *.
  destruct (Z.ltb_spec (OpListLen (home w) + OpBlock_Count) (-2147483648));
    [lia|].
  destruct (Z.ltb_spec INT_MAX (OpListLen (home w) + OpBlock_Count)); [lia|].
  cbn [orb].
  rewrite to_int_small by (unfold INT_MIN; nia).
  destruct (Z.ltb_spec ((OpListLen (home w) + OpBlock_Count) * sizeof_Operate_t) 0);
    [nia|].
  rewrite Z.div_mul by lia. reflexivity.
Qed.

(** Whatever the sizes, [ExtendOpList] is undefined or replaces the buffer
    and adds [OpBlock_Count] to the capacity, and touches nothing else. *)
Lemma ExtendOpList_cases (w : World) :
  ExtendOpList w = Undefined \/
  exists l' : list (option Operate_t),
    ExtendOpList w =
    Ret (tt, mkWorld (set_opList (home w) l' (OpCount (home w))
                        (OpListLen (home w) + OpBlock_Count))
               (heap w) (console w)).
Proof.
  unfold ExtendOpList, bind, get_home, undefined. cbv zeta.
  destruct (_ || _); [left; reflexivity|].
  right. eexists. reflexivity.
Qed.

Lemma AddOp_exact (w : World) (type : OpType_t)
  (dom1 idx1 dom2 idx2 dom3 idx3 : Z)
  (bx by_ bz px py pz pnx pny pnz : float) :
  log_ready (home w) ->
  AddOp type dom1 idx1 dom2 idx2 dom3 idx3 bx by_ bz px py pz pnx pny pnz w =
  Ret (tt,
       mkWorld
         (set_opList (home w)
            (<[Z.to_nat (OpCount (home w)) :=
                 Some (mkOp type dom1 idx1 dom2 idx2 dom3 idx3
                            bx by_ bz px py pz pnx pny pnz)]>
               (if OpCount (home w) >=? OpListLen (home w)
                then resize (Z.to_nat (OpListLen (home w) + OpBlock_Count)) None
                            (opList (home w))
                else opList (home w)))
            (OpCount (home w) + 1)
            (if OpCount (home w) >=? OpListLen (home w)
             then OpListLen (home w) + OpBlock_Count else OpListLen (home w)))
         (heap w) (console w)).
Proof.
  intros (HB & [[Hc0 Hc] Hlen] & Hfit).
  unfold AddOp, bind at 1, get_home at 1. cbn beta iota.
  destruct (Z.geb_spec (OpCount (home w)) (OpListLen (home w))) as [Hfull|Hroom].
  - destruct (Hfit ltac:(lia)) as [Hs Hbytes].
    rewrite (bind_Ret _ _ _ _ _
               (ExtendOpList_fits w HB ltac:(lia) Hs Hbytes)).
    unfold bind at 1, get_home at 1. cbn [home heap console].
    unfold bind, lift, set_opList at 1 2 3. cbn [opList OpCount OpListLen].
    rewrite aset_in_range by (rewrite length_resize; lia).
    unfold put_home, set_opList. reflexivity.
  - unfold bind at 1, ret. unfold bind at 1, get_home at 1.
    unfold bind, lift. rewrite aset_in_range by lia.
    unfold put_home, set_opList. reflexivity.
Qed.

(** One append: the entry lands in slot [OpCount], the slots below keep
    their content, whether or not the list had to grow. *)
Lemma AddOp_spec (w : World) (type : OpType_t)
  (dom1 idx1 dom2 idx2 dom3 idx3 : Z)
  (bx by_ bz px py pz pnx pny pnz : float) :
  log_ready (home w) ->
  exists h' : Home_t,
    AddOp type dom1 idx1 dom2 idx2 dom3 idx3 bx by_ bz px py pz pnx pny pnz w
      = Ret (tt, mkWorld h' (heap w) (console w)) /\
    Log_wf h' /\
    OpCount h' = OpCount (home w) + 1 /\
    opList h' !! Z.to_nat (OpCount (home w)) =
      Some (Some (mkOp type dom1 idx1 dom2 idx2 dom3 idx3
                       bx by_ bz px py pz pnx pny pnz)) /\
    (forall i : nat, (i < Z.to_nat (OpCount (home w)))%nat ->
                     opList h' !! i = opList (home w) !! i).
Proof.
  intros Hready. eexists. split; [apply AddOp_exact; exact Hready|].
  destruct Hready as (HB & [[Hc0 Hc] Hlen] & _).
  unfold Log_wf, set_opList. cbn [OpCount OpListLen opList].
  rewrite length_insert.
  destruct (Z.geb_spec (OpCount (home w)) (OpListLen (home w))) as [Hfull|Hroom].
  - rewrite length_resize. split; [lia|]. split; [reflexivity|]. split.
    + apply list_lookup_insert_eq. rewrite length_resize. lia.
    + intros i Hi. rewrite list_lookup_insert_ne by lia.
      apply lookup_resize; lia.
  - split; [lia|]. split; [reflexivity|]. split.
    + apply list_lookup_insert_eq. lia.
    + intros i Hi. now rewrite list_lookup_insert_ne by lia.
Qed.

(** What an append that returns has done, whatever the state it started
    from: only the operation list has changed, and the entry is in slot
    [OpCount]. *)
Lemma AddOp_returns (w w1 : World) (type : OpType_t)
  (dom1 idx1 dom2 idx2 dom3 idx3 : Z)
  (bx by_ bz px py pz pnx pny pnz : float) :
  AddOp type dom1 idx1 dom2 idx2 dom3 idx3 bx by_ bz px py pz pnx pny pnz w
    = Ret (tt, w1) ->
  heap w1 = heap w /\ console w1 = console w /\
  same_tables (home w) (home w1) /\
  OpCount (home w1) = OpCount (home w) + 1 /\
  opList (home w1) !! Z.to_nat (OpCount (home w)) =
    Some (Some (mkOp type dom1 idx1 dom2 idx2 dom3 idx3
                     bx by_ bz px py pz pnx pny pnz)).
Proof.
  set (op := mkOp type dom1 idx1 dom2 idx2 dom3 idx3 bx by_ bz px py pz pnx pny pnz).
  assert (Hwrite : forall h : Home_t,
    OpCount h = OpCount (home w) -> same_tables (home w) h ->
    (let* hm := get_home in
     let* l := lift (aset (opList hm) (OpCount hm) (Some op)) in
     put_home (set_opList hm l (OpCount hm + 1) (OpListLen hm)))
      (mkWorld h (heap w) (console w)) = Ret (tt, w1) ->
    heap w1 = heap w /\ console w1 = console w /\
    same_tables (home w) (home w1) /\
    OpCount (home w1) = OpCount (home w) + 1 /\
    opList (home w1) !! Z.to_nat (OpCount (home w)) = Some (Some op)).
  { intros h Hk Hsame. unfold bind, get_home, lift, aset, put_home.
    cbn [home heap console].
    destruct (Z.ltb_spec (OpCount h) 0); [discriminate|].
    destruct (Z.leb_spec (Z.of_nat (length (opList h))) (OpCount h));
      [discriminate|].
    cbn [orb]. intros Hret. injection Hret as <-. cbn [home heap console].
    do 2 (split; [reflexivity|]). split; [exact Hsame|].
    unfold set_opList. cbn [OpCount opList]. split; [lia|].
    rewrite <- Hk. apply list_lookup_insert_eq. lia. }
  unfold AddOp, bind at 1, get_home at 1. cbn beta iota.
  destruct (OpCount (home w) >=? OpListLen (home w)).
  - unfold bind at 1.
    destruct (ExtendOpList_cases w) as [-> | [l' ->]]; [discriminate|].
    apply Hwrite; [reflexivity | repeat split].
  - unfold bind at 1, ret. destruct w as [h hp c]. cbn [home heap console].
    apply Hwrite; [reflexivity | apply same_tables_refl].
Qed.

Lemma appends_fit_step (h : Home_t) (n : nat) :
  0 <= OpCount h <= OpListLen h -> 0 < OpBlock_Count ->
  appends_fit h (S n) -> append_fits h.
Proof.
  intros Hk HB Hfit Hfull.
  destruct Hfit as [Hs Hbytes]; [lia|]. split; [exact Hs|]. nia.
Qed.

Lemma AddOps_spec :
  0 < OpBlock_Count ->
  forall (ops : list Operate_t) (w : World),
    Log_wf (home w) ->
    appends_fit (home w) (length ops) ->
    exists h' : Home_t,
      AddOps ops w = Ret (tt, mkWorld h' (heap w) (console w)) /\
      Log_wf h' /\
      OpCount h' = OpCount (home w) + Z.of_nat (length ops) /\
      (forall (i : nat) (op : Operate_t),
         ops !! i = Some op ->
         opList h' !! (Z.to_nat (OpCount (home w)) + i)%nat = Some (Some op)) /\
      (forall i : nat, (i < Z.to_nat (OpCount (home w)))%nat ->
                       opList h' !! i = opList (home w) !! i).
Proof.
  intros HB ops. induction ops as [|op rest IH]; intros w Hwf Hfit.
  - exists (home w). split; [now destruct w|]. split; [exact Hwf|].
    split; [cbn; lia|]. split; [intros i op' H; discriminate | reflexivity].
  - assert (Hready : log_ready (home w)).
    { split; [exact HB|]. split; [exact Hwf|].
      apply (appends_fit_step _ (length rest)); [apply Hwf | exact HB | exact Hfit]. }
    pose proof (AddOp_exact w (op_type op) (op_dom1 op) (op_idx1 op)
                  (op_dom2 op) (op_idx2 op) (op_dom3 op) (op_idx3 op)
                  (op_bx op) (op_by op) (op_bz op) (op_x op) (op_y op) (op_z op)
                  (op_nx op) (op_ny op) (op_nz op) Hready) as Hexact.
    destruct (AddOp_spec w (op_type op) (op_dom1 op) (op_idx1 op) (op_dom2 op)
                (op_idx2 op) (op_dom3 op) (op_idx3 op) (op_bx op) (op_by op)
                (op_bz op) (op_x op) (op_y op) (op_z op) (op_nx op) (op_ny op)
                (op_nz op) Hready)
      as (h1 & Hrun1 & Hwf1 & Hcnt1 & Hslot & Hkeep1).
    rewrite Operate_eta in Hslot.
    assert (Hcap1 : OpListLen (home w) <= OpListLen h1).
    { rewrite Hexact in Hrun1. injection Hrun1 as <-.
      unfold set_opList. cbn [OpListLen].
      destruct (OpCount (home w) >=? OpListLen (home w)); lia. }
    assert (Hfit1 : appends_fit h1 (length rest)).
    { intros Hneed. rewrite Hcnt1 in *. cbn [length] in Hfit.
      destruct Hfit as [Hs Hbytes]; [lia|]. split; [exact Hs|].
      replace (OpCount (home w) + 1 + Z.of_nat (length rest) + OpBlock_Count)
        with (OpCount (home w) + Z.of_nat (S (length rest)) + OpBlock_Count)
        by lia.
      exact Hbytes. }
    destruct (IH (mkWorld h1 (heap w) (console w)) Hwf1 Hfit1)
      as (h2 & Hrun2 & Hwf2 & Hcnt2 & Hslots & Hkeep2).
    cbn [home heap console] in *.
    exists h2. split.
    { cbn [AddOps]. now rewrite (bind_Ret _ _ _ _ _ Hrun1). }
    destruct Hwf as [[Hc0 _] _].
    split; [exact Hwf2|]. split; [cbn [length]; lia|]. split.
    + intros [|i] op' Hop.
      * injection Hop as <-. rewrite Nat.add_0_r.
        rewrite Hkeep2 by lia. exact Hslot.
      * cbn in Hop. specialize (Hslots i op' Hop).
        replace (Z.to_nat (OpCount (home w)) + S i)%nat
          with (Z.to_nat (OpCount h1) + i)%nat by lia.
        exact Hslots.
    + intros i Hi. rewrite Hkeep2 by lia. now apply Hkeep1.
Qed.

(** C7 (a defect of the code). The claim holds only while the byte count
    of a growth fits in an [int].  When the list is full and
    [(OpListLen + OpBlock_Count) * sizeof(Operate_t)] lies above INT_MAX
    (and below 2^32), [int newSize] is negative, [realloc] returns NULL,
    and AddOp writes its entry through that pointer: the append does not
    return, no entry is added and the entries stored before are lost.  The
    sizes that InitOpList hands to [malloc] and ClearOpList to [memset] are
    not narrowed to [int]. *)
Theorem AddOp_newSize_wraps :
  forall (w : World) (type : OpType_t) (dom1 idx1 dom2 idx2 dom3 idx3 : Z)
         (bx by_ bz px py pz pnx pny pnz : float),
    OpListLen (home w) <= OpCount (home w) ->
    INT_MAX < (OpListLen (home w) + OpBlock_Count) * sizeof_Operate_t < 2 ^ 32 ->
    AddOp type dom1 idx1 dom2 idx2 dom3 idx3 bx by_ bz px py pz pnx pny pnz w
      = Undefined /\
    (ExtendOpList w = Undefined \/
     exists h1 : Home_t,
       ExtendOpList w = Ret (tt, mkWorld h1 (heap w) (console w)) /\
       opList h1 = []).
Proof.
  intros w type dom1 idx1 dom2 idx2 dom3 idx3 bx by_ bz px py pz pnx pny pnz
    Hfull Hwrap.
  assert (Hext : ExtendOpList w = Undefined \/
                 ExtendOpList w =
                 Ret (tt, mkWorld (set_opList (home w) [] (OpCount (home w))
                                     (OpListLen (home w) + OpBlock_Count))
                            (heap w) (console w))).
  { unfold ExtendOpList, bind, get_home, undefined. cbv zeta.
    destruct (orb _ _); [left; reflexivity|]. right.
    rewrite (to_int_wrapped _ Hwrap).
    destruct (Z.ltb_spec ((OpListLen (home w) + OpBlock_Count) * sizeof_Operate_t
                          - 2 ^ 32) 0); [|lia].
    change (Z.to_nat 0) with 0%nat. now rewrite resize_0. }
  split.
  - unfold AddOp, bind at 1, get_home at 1. cbn beta iota.
    destruct (Z.geb_spec (OpCount (home w)) (OpListLen (home w))); [|lia].
    unfold bind at 1. destruct Hext as [-> | ->]; [reflexivity|].
    unfold bind, get_home, lift, aset, set_opList.
    cbn [home heap console opList OpCount length].
    destruct (Z.ltb_spec (OpCount (home w)) 0); [reflexivity|].
    destruct (Z.leb_spec (Z.of_nat 0) (OpCount (home w))); [reflexivity | lia].
  - destruct Hext as [-> | ->]; [left; reflexivity|].
    right. eexists. split; reflexivity.
Qed.

(** *** The scan of the arms of a node *)

Lemma tag_test_true (tag t : Tag_t) :
  (domainID tag =? domainID t) && (index tag =? index t) = true <-> t = tag.
Proof.
  destruct tag as [d i], t as [d' i']. cbn.
  rewrite andb_true_iff, !Z.eqb_eq. split.
  - now intros [-> ->].
  - intros H. injection H as -> ->. auto.
Qed.

Lemma tag_test_false (tag t : Tag_t) :
  t <> tag -> (domainID tag =? domainID t) && (index tag =? index t) = false.
Proof.
  intros H. apply not_true_is_false. now rewrite tag_test_true.
Qed.

Lemma scan_nbrTag_first (tags : list Tag_t) (tag : Tag_t) (k n : nat) :
  forall i : nat,
    (i <= k < i + n)%nat ->
    tags !! k = Some tag ->
    (forall j t, (i <= j < k)%nat -> tags !! j = Some t -> t <> tag) ->
    scan_nbrTag tags (domainID tag) (index tag) i n = Ret (Some k).
Proof.
  induction n as [|n IH]; intros i Hk Htag Hbefore; [lia|].
  cbn [scan_nbrTag].
  destruct (lookup_lt_is_Some_2 tags i) as [t Ht].
  { apply lookup_lt_Some in Htag. lia. }
  rewrite Ht.
  destruct (Nat.eq_dec i k) as [->|Hik].
  - assert (t = tag) as -> by congruence.
    now rewrite (proj2 (tag_test_true tag tag) eq_refl).
  - rewrite tag_test_false by (apply (Hbefore i); [lia | exact Ht]).
    apply IH; [lia | exact Htag |].
    intros j t' Hj. apply Hbefore. lia.
Qed.

Lemma scan_nbrTag_none (tags : list Tag_t) (tag : Tag_t) (n : nat) :
  forall i : nat,
    (i + n <= length tags)%nat ->
    (forall j t, (i <= j < i + n)%nat -> tags !! j = Some t -> t <> tag) ->
    scan_nbrTag tags (domainID tag) (index tag) i n = Ret None.
Proof.
  induction n as [|n IH]; intros i Hlen Hno; [reflexivity|].
  cbn [scan_nbrTag].
  destruct (lookup_lt_is_Some_2 tags i) as [t Ht]; [lia|].
  rewrite Ht, tag_test_false by (apply (Hno i); [lia | exact Ht]).
  apply IH; [lia|]. intros j t' Hj. apply Hno. lia.
Qed.

(** Among the arms [i .. i+n-1] there is a first one that ends at [tag], or
    none does. *)
Lemma first_match_or_none (tags : list Tag_t) (tag : Tag_t) (n : nat) :
  forall i : nat,
    (i + n <= length tags)%nat ->
    (exists k, (i <= k < i + n)%nat /\ tags !! k = Some tag /\
               forall j t, (i <= j < k)%nat -> tags !! j = Some t -> t <> tag) \/
    (forall j t, (i <= j < i + n)%nat -> tags !! j = Some t -> t <> tag).
Proof.
  induction n as [|n IH]; intros i Hlen; [right; intros; lia|].
  destruct (lookup_lt_is_Some_2 tags i) as [t Ht]; [lia|].
  destruct (decide (tag_eqb tag t = true)) as [Heq|Hne].
  - left. exists i. apply tag_test_true in Heq. subst t.
    split; [lia|]. split; [exact Ht|]. intros; lia.
  - assert (Hdiff : t <> tag).
    { intros ->. apply Hne. now apply tag_test_true. }
    destruct (IH (S i)) as [(k & Hk & Hkt & Hbefore) | Hno]; [lia| |].
    + left. exists k. split; [lia|]. split; [exact Hkt|].
      intros j t' Hj Hjt. destruct (Nat.eq_dec j i) as [->|].
      * congruence.
      * apply (Hbefore j); [lia | exact Hjt].
    + right. intros j t' Hj Hjt. destruct (Nat.eq_dec j i) as [->|].
      * congruence.
      * apply (Hno j); [lia | exact Hjt].
Qed.

Lemma first_arm_or_none (n : Node_t) (tag : Tag_t) :
  Node_wf n -> (exists i, first_arm_to n tag i) \/ no_arm_to n tag.
Proof.
  intros Hwf.
  destruct (first_match_or_none (nbrTag n) tag (Z.to_nat (numNbrs n)) 0)
    as [(k & Hk & Hkt & Hb) | Hno]; [apply Hwf | |].
  - left. exists k. split; [lia|]. split; [exact Hkt|].
    intros j t Hj. apply Hb. lia.
  - right. intros j t Hj. apply Hno. lia.
Qed.

Lemma scan_first_arm (n : Node_t) (tag : Tag_t) (i : nat) :
  first_arm_to n tag i ->
  scan_nbrTag (nbrTag n) (domainID tag) (index tag) 0 (Z.to_nat (numNbrs n))
  = Ret (Some i).
Proof.
  intros (Hi & Ht & Hb). apply scan_nbrTag_first; [lia | exact Ht |].
  intros j t Hj. apply Hb. lia.
Qed.

Lemma scan_no_arm (n : Node_t) (tag : Tag_t) :
  Node_wf n -> no_arm_to n tag ->
  scan_nbrTag (nbrTag n) (domainID tag) (index tag) 0 (Z.to_nat (numNbrs n))
  = Ret None.
Proof.
  intros Hwf Hno. apply scan_nbrTag_none; [apply Hwf|].
  intros j t Hj. apply Hno. lia.
Qed.

Lemma first_arm_unique (n : Node_t) (tag : Tag_t) (i j : nat) :
  first_arm_to n tag i -> first_arm_to n tag j -> i = j.
Proof.
  intros Hi Hj. apply scan_first_arm in Hi, Hj. congruence.
Qed.

(** *** Connected, GetArmID *)

Lemma Connected_arm (w : World) (l1 l2 : loc) (n1 n2 : Node_t) (i : nat) :
  heap w !! l1 = Some n1 -> heap w !! l2 = Some n2 ->
  first_arm_to n1 (myTag n2) i ->
  Connected (Some l1) (Some l2) w = Ret ((1, Z.of_nat i), w).
Proof.
  intros H1 H2 Harm. unfold Connected.
  rewrite (bind_Ret _ _ _ _ _ (deref_heap _ _ _ H2)).
  rewrite (bind_Ret _ _ _ _ _ (deref_heap _ _ _ H1)).
  now rewrite (bind_Ret _ _ _ _ _ (lift_Ret _ _ _ (scan_first_arm _ _ _ Harm))).
Qed.

Lemma Connected_no_arm (w : World) (l1 l2 : loc) (n1 n2 : Node_t) :
  heap w !! l1 = Some n1 -> heap w !! l2 = Some n2 ->
  Node_wf n1 -> no_arm_to n1 (myTag n2) ->
  Connected (Some l1) (Some l2) w = Ret ((0, -1), w).
Proof.
  intros H1 H2 Hwf Hno. unfold Connected.
  rewrite (bind_Ret _ _ _ _ _ (deref_heap _ _ _ H2)).
  rewrite (bind_Ret _ _ _ _ _ (deref_heap _ _ _ H1)).
  now rewrite (bind_Ret _ _ _ _ _ (lift_Ret _ _ _ (scan_no_arm _ _ Hwf Hno))).
Qed.

Lemma GetArmID_arm (w : World) (l1 l2 : loc) (n1 n2 : Node_t) (i : nat) :
  heap w !! l1 = Some n1 -> heap w !! l2 = Some n2 ->
  first_arm_to n1 (myTag n2) i ->
  GetArmID (Some l1) (Some l2) w = Ret (Z.of_nat i, w).
Proof.
  intros H1 H2 Harm. unfold GetArmID.
  rewrite (bind_Ret _ _ _ _ _ (deref_heap _ _ _ H2)).
  rewrite (bind_Ret _ _ _ _ _ (deref_heap _ _ _ H1)).
  now rewrite (bind_Ret _ _ _ _ _ (lift_Ret _ _ _ (scan_first_arm _ _ _ Harm))).
Qed.

Lemma GetArmID_no_arm (w : World) (l1 l2 : loc) (n1 n2 : Node_t) :
  heap w !! l1 = Some n1 -> heap w !! l2 = Some n2 ->
  Node_wf n1 -> no_arm_to n1 (myTag n2) ->
  GetArmID (Some l1) (Some l2) w = Ret (-1, w).
Proof.
  intros H1 H2 Hwf Hno. unfold GetArmID.
  rewrite (bind_Ret _ _ _ _ _ (deref_heap _ _ _ H2)).
  rewrite (bind_Ret _ _ _ _ _ (deref_heap _ _ _ H1)).
  now rewrite (bind_Ret _ _ _ _ _ (lift_Ret _ _ _ (scan_no_arm _ _ Hwf Hno))).
Qed.

(** *** ResetSegForces *)

Lemma sum_arm_forces_spec (nd : Node_t) (n : nat) :
  forall (i : nat) (acc : vec3),
    (i + n <= length (armfx nd))%nat ->
    (i + n <= length (armfy nd))%nat ->
    (i + n <= length (armfz nd))%nat ->
    sum_arm_forces nd acc i n =
    Ret (fold_left PrimFloat.add (take n (drop i (armfx nd))) (fst (fst acc)),
         fold_left PrimFloat.add (take n (drop i (armfy nd))) (snd (fst acc)),
         fold_left PrimFloat.add (take n (drop i (armfz nd))) (snd acc)).
Proof.
  induction n as [|n IH]; intros i [[sx sy] sz] Hx Hy Hz.
  - now rewrite !take_0.
  - cbn [sum_arm_forces].
    destruct (lookup_lt_is_Some_2 (armfx nd) i) as [gx Hgx]; [lia|].
    destruct (lookup_lt_is_Some_2 (armfy nd) i) as [gy Hgy]; [lia|].
    destruct (lookup_lt_is_Some_2 (armfz nd) i) as [gz Hgz]; [lia|].
    rewrite Hgx, Hgy, Hgz, IH by lia.
    rewrite (take_drop_S _ _ _ _ Hgx), (take_drop_S _ _ _ _ Hgy),
      (take_drop_S _ _ _ _ Hgz).
    reflexivity.
Qed.

Lemma flag_set_lor (fl mask : Z) : flag_set (Z.lor fl mask) mask.
Proof.
  unfold flag_set. apply Z.bits_inj'. intros k _.
  rewrite Z.land_spec, Z.lor_spec.
  now destruct (Z.testbit fl k), (Z.testbit mask k).
Qed.

Lemma arm_sum_of_loop (nd : Node_t) :
  Node_wf nd ->
  sum_arm_forces nd (0%float, 0%float, 0%float) 0 (Z.to_nat (numNbrs nd)) =
  Ret (arm_sum (armfx nd) (numNbrs nd), arm_sum (armfy nd) (numNbrs nd),
       arm_sum (armfz nd) (numNbrs nd)).
Proof.
  intros (_ & _ & _ & _ & _ & _ & _ & Hx & Hy & Hz).
  rewrite sum_arm_forces_spec by lia. now rewrite !drop_0.
Qed.

Lemma with_arm_force_wf (a : Node_t) (i : nat) (fx fy fz : float) :
  Node_wf a -> Node_wf (with_arm_force a i fx fy fz).
Proof.
  unfold Node_wf, with_arm_force, set_arm_forces. cbn.
  now rewrite !length_insert.
Qed.

Lemma resummed_wf (a : Node_t) (mask : Z) : Node_wf a -> Node_wf (resummed a mask).
Proof. unfold Node_wf, resummed. cbn. auto. Qed.

(** The function past its optional append, which has left the home [h1]:
    the write to the arm gives the node [a1], whose forces are summed. *)
Lemma ResetSegForces_after_log (w : World) (l : loc) (a : Node_t)
  (nodeBtag : Tag_t) (fx fy fz : float) (globalOp : Z) (h1 : Home_t) :
  heap w !! l = Some a ->
  Node_wf a ->
  (if negb (globalOp =? 0)
   then AddOp RESET_SEG_FORCES (domainID (myTag a)) (index (myTag a))
          (domainID nodeBtag) (index nodeBtag) (-1) (-1)
          0%float 0%float 0%float fx fy fz 0%float 0%float 0%float
   else ret tt) w = Ret (tt, mkWorld h1 (heap w) (console w)) ->
  exists a1 : Node_t,
    ResetSegForces (Some l) nodeBtag fx fy fz globalOp w =
      Ret (tt, mkWorld h1 (<[l := resummed a1 NODE_RESET_FORCES]> (heap w))
                 (console w)) /\
    (forall i, first_arm_to a nodeBtag i -> a1 = with_arm_force a i fx fy fz) /\
    (no_arm_to a nodeBtag -> a1 = a).
Proof.
  intros Ha Hwf Hop.
  assert (Harm : exists a1 : Node_t,
    forall w1 : World,
      (let* r := lift (scan_nbrTag (nbrTag a) (domainID nodeBtag)
                         (index nodeBtag) 0 (Z.to_nat (numNbrs a))) in
       match r with
       | Some i =>
           let* afx := lift (aset (armfx a) (Z.of_nat i) fx) in
           let* afy := lift (aset (armfy a) (Z.of_nat i) fy) in
           let* afz := lift (aset (armfz a) (Z.of_nat i) fz) in
           ret (set_arm_forces a afx afy afz)
       | None => ret a
       end) w1 = Ret (a1, w1) /\
      Node_wf a1 /\
      (forall i, first_arm_to a nodeBtag i -> a1 = with_arm_force a i fx fy fz) /\
      (no_arm_to a nodeBtag -> a1 = a)).
  { destruct (first_arm_or_none a nodeBtag Hwf) as [[i Hi] | Hno].
    - exists (with_arm_force a i fx fy fz). intros w1.
      pose proof Hi as (Hlt & _ & _).
      pose proof Hwf as (_ & _ & _ & _ & _ & _ & _ & Hx & Hy & Hz).
      split.
      { rewrite (bind_Ret _ _ _ _ _ (lift_Ret _ _ _ (scan_first_arm _ _ _ Hi))).
        unfold bind, lift, ret.
        rewrite !aset_in_range by lia. now rewrite !Nat2Z.id. }
      split; [now apply with_arm_force_wf|]. split.
      + intros j Hj. now rewrite (first_arm_unique _ _ _ _ Hj Hi).
      + intros Hno. destruct Hi as (? & Ht & _). now apply Hno in Ht.
    - exists a. intros w1. split.
      { now rewrite (bind_Ret _ _ _ _ _ (lift_Ret _ _ _ (scan_no_arm _ _ Hwf Hno))). }
      split; [exact Hwf|]. split; [|auto].
      intros i (? & Ht & _). now apply Hno in Ht. }
  destruct Harm as (a1 & Harm).
  destruct (Harm (mkWorld h1 (heap w) (console w)))
    as (Harm1 & Hwf1 & Hfirst & Hnone).
  exists a1. split; [|auto].
  unfold ResetSegForces.
  rewrite (bind_Ret _ _ _ _ _ (deref_heap _ _ _ Ha)).
  rewrite (bind_Ret _ _ _ _ _ Hop).
  unfold bind at 1. unfold bind at 1 in Harm1.
  destruct (lift (scan_nbrTag (nbrTag a) (domainID nodeBtag) (index nodeBtag)
                    0 (Z.to_nat (numNbrs a)))
              (mkWorld h1 (heap w) (console w))) as [[r w2]| |];
    try discriminate.
  unfold bind at 1. rewrite Harm1.
  rewrite (bind_Ret _ _ _ _ _ (lift_Ret _ _ _ (arm_sum_of_loop a1 Hwf1))).
  unfold store. cbn [heap home console]. now rewrite Ha.
Qed.

(** The run of [ResetSegForces] when its append can be made: the home [h1]
    after the optional append, the node [a1] after the write to the arm. *)
Lemma ResetSegForces_exact (w : World) (l : loc) (a : Node_t) (nodeBtag : Tag_t)
  (fx fy fz : float) (globalOp : Z) :
  heap w !! l = Some a ->
  Node_wf a ->
  (globalOp <> 0 -> log_ready (home w)) ->
  exists (h1 : Home_t) (a1 : Node_t),
    ResetSegForces (Some l) nodeBtag fx fy fz globalOp w =
      Ret (tt, mkWorld h1 (<[l := resummed a1 NODE_RESET_FORCES]> (heap w))
                 (console w)) /\
    (globalOp = 0 -> h1 = home w) /\
    (globalOp <> 0 ->
     AddOp RESET_SEG_FORCES (domainID (myTag a)) (index (myTag a))
           (domainID nodeBtag) (index nodeBtag) (-1) (-1)
           0%float 0%float 0%float fx fy fz 0%float 0%float 0%float w
       = Ret (tt, mkWorld h1 (heap w) (console w))) /\
    (forall i, first_arm_to a nodeBtag i -> a1 = with_arm_force a i fx fy fz) /\
    (no_arm_to a nodeBtag -> a1 = a).
Proof.
  intros Ha Hwf Hlog.
  assert (Hop : exists h1 : Home_t,
    (if negb (globalOp =? 0)
     then AddOp RESET_SEG_FORCES (domainID (myTag a)) (index (myTag a))
            (domainID nodeBtag) (index nodeBtag) (-1) (-1)
            0%float 0%float 0%float fx fy fz 0%float 0%float 0%float
     else ret tt) w = Ret (tt, mkWorld h1 (heap w) (console w)) /\
    (globalOp = 0 -> h1 = home w) /\
    (globalOp <> 0 ->
     AddOp RESET_SEG_FORCES (domainID (myTag a)) (index (myTag a))
           (domainID nodeBtag) (index nodeBtag) (-1) (-1)
           0%float 0%float 0%float fx fy fz 0%float 0%float 0%float w
       = Ret (tt, mkWorld h1 (heap w) (console w)))).
  { destruct (Z.eqb_spec globalOp 0) as [Hg|Hg]; cbn [negb].
    - exists (home w). split; [now destruct w|]. split; [reflexivity|].
      intros Hne. contradiction.
    - eexists. split; [apply AddOp_exact; auto|].
      split; [intros He; contradiction|].
      intros _. apply AddOp_exact; auto. }
  destruct Hop as (h1 & Hop & Hh0 & Hh1).
  destruct (ResetSegForces_after_log w l a nodeBtag fx fy fz globalOp h1
              Ha Hwf Hop) as (a1 & Hrun & Hfirst & Hnone).
  exists h1, a1. auto.
Qed.

(** The same for any call that returns, whatever the operation list was. *)
Lemma ResetSegForces_returns (w w' : World) (l : loc) (a : Node_t)
  (nodeBtag : Tag_t) (fx fy fz : float) (globalOp : Z) :
  heap w !! l = Some a ->
  Node_wf a ->
  ResetSegForces (Some l) nodeBtag fx fy fz globalOp w = Ret (tt, w') ->
  exists a1 : Node_t,
    w' = mkWorld (home w') (<[l := resummed a1 NODE_RESET_FORCES]> (heap w))
           (console w) /\
    (globalOp = 0 -> home w' = home w) /\
    (globalOp <> 0 ->
     AddOp RESET_SEG_FORCES (domainID (myTag a)) (index (myTag a))
           (domainID nodeBtag) (index nodeBtag) (-1) (-1)
           0%float 0%float 0%float fx fy fz 0%float 0%float 0%float w
       = Ret (tt, mkWorld (home w') (heap w) (console w))) /\
    (forall i, first_arm_to a nodeBtag i -> a1 = with_arm_force a i fx fy fz) /\
    (no_arm_to a nodeBtag -> a1 = a).
Proof.
  intros Ha Hwf Hret.
  assert (Hop : exists h1 : Home_t,
    (if negb (globalOp =? 0)
     then AddOp RESET_SEG_FORCES (domainID (myTag a)) (index (myTag a))
            (domainID nodeBtag) (index nodeBtag) (-1) (-1)
            0%float 0%float 0%float fx fy fz 0%float 0%float 0%float
     else ret tt) w = Ret (tt, mkWorld h1 (heap w) (console w)) /\
    (globalOp = 0 -> h1 = home w)).
  { pose proof Hret as Hret'. unfold ResetSegForces in Hret'.
    rewrite (bind_Ret _ _ _ _ _ (deref_heap _ _ _ Ha)) in Hret'.
    unfold bind at 1 in Hret'.
    destruct (Z.eqb_spec globalOp 0) as [Hg|Hg]; cbn [negb] in *.
    - exists (home w). split; [now destruct w | reflexivity].
    - destruct (AddOp _ _ _ _ _ _ _ _ _ _ _ _ _ _ _ _ w)
        as [[[] w1]| |] eqn:Hadd; try discriminate.
      destruct (AddOp_returns _ _ _ _ _ _ _ _ _ _ _ _ _ _ _ _ _ _ Hadd)
        as (Hheap & Hcons & _).
      exists (home w1). split; [|intros He; contradiction].
      destruct w1 as [h1 hp1 c1]. cbn [home heap console] in *. now subst. }
  destruct Hop as (h1 & Hop & Hh0).
  destruct (ResetSegForces_after_log w l a nodeBtag fx fy fz globalOp h1
              Ha Hwf Hop) as (a1 & Hrun & Hfirst & Hnone).
  rewrite Hrun in Hret. injection Hret as <-. cbn [home heap console].
  exists a1. split; [reflexivity|]. split; [exact Hh0|].
  split; [|auto]. intros Hg.
  destruct (Z.eqb_spec globalOp 0) as [|_]; [contradiction|]. exact Hop.
Qed.

Lemma arm_sum_single (forces : list float) (v : float) :
  forces !! 0%nat = Some v -> arm_sum forces 1 = PrimFloat.add 0%float v.
Proof.
  intros H. unfold arm_sum. destruct forces as [|v' rest]; [discriminate|].
  injection H as ->. reflexivity.
Qed.

(** C6. After ResetSegForces(nodeA, nodeBtag, fx, fy, fz, globalOp) the
    total force (fX, fY, fZ) of nodeA is, component by component, the sum of
    the forces of all the arms of nodeA; the first arm of nodeA that ends at
    nodeBtag, when there is one, carries the force (fx, fy, fz); and the flag
    NODE_RESET_FORCES of nodeA is set.  The node is otherwise the node of
    before: the same arms, the other arm forces and every other field as
    they were; with globalOp set the operation has been appended to the
    operation list, with globalOp 0 the home is as it was.  This holds after
    every call that returns, and the call returns on a valid node whenever
    the append that globalOp asks for can be made.  A node (0,3) with the
    single arm to (1,7) carrying the force (1,2,3), reset on that arm to
    (4,5,6), ends with the total force (4,5,6). *)
Theorem ResetSegForces_total_is_arm_sum :
  (forall (w w' : World) (l : loc) (a : Node_t) (nodeBtag : Tag_t)
          (fx fy fz : float) (globalOp : Z),
     heap w !! l = Some a ->
     Node_wf a ->
     ResetSegForces (Some l) nodeBtag fx fy fz globalOp w = Ret (tt, w') ->
     exists a' a1 : Node_t,
       heap w' = <[l := a']> (heap w) /\
       console w' = console w /\
       a' = resummed a1 NODE_RESET_FORCES /\
       (forall i, first_arm_to a nodeBtag i ->
                  a1 = with_arm_force a i fx fy fz) /\
       (no_arm_to a nodeBtag -> a1 = a) /\
       numNbrs a' = numNbrs a /\ nbrTag a' = nbrTag a /\
       fX a' = arm_sum (armfx a') (numNbrs a') /\
       fY a' = arm_sum (armfy a') (numNbrs a') /\
       fZ a' = arm_sum (armfz a') (numNbrs a') /\
       (forall i, first_arm_to a' nodeBtag i ->
                  armfx a' !! i = Some fx /\ armfy a' !! i = Some fy /\
                  armfz a' !! i = Some fz) /\
       flag_set (flags a') NODE_RESET_FORCES /\
       (globalOp = 0 -> home w' = home w) /\
       (globalOp <> 0 ->
        same_tables (home w) (home w') /\
        OpCount (home w') = OpCount (home w) + 1 /\
        opList (home w') !! Z.to_nat (OpCount (home w)) =
          Some (Some (mkOp RESET_SEG_FORCES
                           (domainID (myTag a)) (index (myTag a))
                           (domainID nodeBtag) (index nodeBtag) (-1) (-1)
                           0%float 0%float 0%float fx fy fz
                           0%float 0%float 0%float)))) /\
  (forall (w : World) (l : loc) (a : Node_t) (nodeBtag : Tag_t)
          (fx fy fz : float) (globalOp : Z),
     heap w !! l = Some a ->
     Node_wf a ->
     (globalOp <> 0 -> log_ready (home w)) ->
     exists w' : World,
       ResetSegForces (Some l) nodeBtag fx fy fz globalOp w = Ret (tt, w')) /\
  (forall (w : World) (l : loc) (a : Node_t) (globalOp : Z),
     heap w !! l = Some a ->
     Node_wf a ->
     (globalOp <> 0 -> log_ready (home w)) ->
     myTag a = mkTag 0 3 ->
     numNbrs a = 1 ->
     nbrTag a = [mkTag 1 7] ->
     armfx a = [1%float] -> armfy a = [2%float] -> armfz a = [3%float] ->
     exists (w' : World) (a' : Node_t),
       ResetSegForces (Some l) (mkTag 1 7) 4%float 5%float 6%float globalOp w
         = Ret (tt, w') /\
       heap w' !! l = Some a' /\
       fX a' = 4%float /\ fY a' = 5%float /\ fZ a' = 6%float).
Proof.
  split; [|split].
  - intros w w' l a tag fx fy fz g Ha Hwf Hret.
    destruct (ResetSegForces_returns w w' l a tag fx fy fz g Ha Hwf Hret)
      as (a1 & Hw' & Hh0 & Hh1 & Hfirst & Hnone).
    exists (resummed a1 NODE_RESET_FORCES), a1.
    assert (Hshape : numNbrs a1 = numNbrs a /\ nbrTag a1 = nbrTag a).
    { destruct (first_arm_or_none a tag Hwf) as [[i Hi] | Hno].
      - rewrite (Hfirst i Hi). split; reflexivity.
      - rewrite (Hnone Hno). split; reflexivity. }
    destruct Hshape as [Hnum Htags].
    split; [now rewrite Hw'|]. split; [now rewrite Hw'|].
    split; [reflexivity|]. split; [exact Hfirst|]. split; [exact Hnone|].
    split; [exact Hnum|]. split; [exact Htags|].
    do 3 (split; [reflexivity|]). split.
    { intros i Hi.
      assert (Hi' : first_arm_to a tag i).
      { unfold first_arm_to in *.
        change (numNbrs (resummed a1 NODE_RESET_FORCES)) with (numNbrs a1) in Hi.
        change (nbrTag (resummed a1 NODE_RESET_FORCES)) with (nbrTag a1) in Hi.
        now rewrite Hnum, Htags in Hi. }
      rewrite (Hfirst i Hi').
      pose proof Hi' as (Hlt & _).
      destruct Hwf as (_ & _ & _ & _ & _ & _ & _ & Hx & Hy & Hz).
      change (armfx (resummed (with_arm_force a i fx fy fz) NODE_RESET_FORCES))
        with (<[i := fx]> (armfx a)).
      change (armfy (resummed (with_arm_force a i fx fy fz) NODE_RESET_FORCES))
        with (<[i := fy]> (armfy a)).
      change (armfz (resummed (with_arm_force a i fx fy fz) NODE_RESET_FORCES))
        with (<[i := fz]> (armfz a)).
      rewrite !list_lookup_insert_eq by lia. auto. }
    split; [apply (flag_set_lor (flags a1))|].
    split; [exact Hh0|].
    intros Hg. specialize (Hh1 Hg).
    destruct (AddOp_returns _ _ _ _ _ _ _ _ _ _ _ _ _ _ _ _ _ _ Hh1)
      as (_ & _ & Hsame & Hcnt & Hslot).
    auto.
  - intros w l a tag fx fy fz g Ha Hwf Hlog.
    destruct (ResetSegForces_exact w l a tag fx fy fz g Ha Hwf Hlog)
      as (h1 & a1 & Hrun & _).
    eexists. exact Hrun.
  - intros w l a g Ha Hwf Hlog Htag Hn Hnbr Hfx Hfy Hfz.
    destruct (ResetSegForces_exact w l a (mkTag 1 7) 4%float 5%float 6%float g
                Ha Hwf Hlog)
      as (h1 & a1 & Hrun & _ & _ & Hfirst & _).
    eexists _, _. split; [exact Hrun|]. cbn [heap].
    split; [apply lookup_insert_eq|].
    rewrite (Hfirst 0%nat).
    + change (fX (resummed (with_arm_force a 0 4 5 6) NODE_RESET_FORCES))%float
        with (arm_sum (<[0%nat := 4%float]> (armfx a)) (numNbrs a)).
      change (fY (resummed (with_arm_force a 0 4 5 6) NODE_RESET_FORCES))%float
        with (arm_sum (<[0%nat := 5%float]> (armfy a)) (numNbrs a)).
      change (fZ (resummed (with_arm_force a 0 4 5 6) NODE_RESET_FORCES))%float
        with (arm_sum (<[0%nat := 6%float]> (armfz a)) (numNbrs a)).
      rewrite Hn, Hfx, Hfy, Hfz. repeat split; reflexivity.
    + unfold first_arm_to. rewrite Hn, Hnbr. split; [lia|].
      split; [reflexivity|]. intros; lia.
Qed.

(** *** RecalcSegGlidePlane *)

Lemma write_normal_in_range (w : World) (l : loc) (nd : Node_t) (seg : Z)
  (pl : vec3) :
  heap w !! l = Some nd ->
  Node_wf nd ->
  0 <= seg < numNbrs nd ->
  write_normal (Some l) seg pl w =
  Ret (tt, mkWorld (home w)
             (<[l := set_normals nd (<[Z.to_nat seg := fst (fst pl)]> (nx nd))
                       (<[Z.to_nat seg := snd (fst pl)]> (ny nd))
                       (<[Z.to_nat seg := snd pl]> (nz nd))]> (heap w))
             (console w)).
Proof.
  intros Hnd (_ & _ & _ & _ & Hx & Hy & Hz & _) Hseg.
  unfold write_normal.
  rewrite (bind_Ret _ _ _ _ _ (deref_heap _ _ _ Hnd)).
  unfold bind, lift. rewrite !aset_in_range by lia.
  unfold store. now rewrite Hnd.
Qed.

Lemma write_normal_negative (w : World) (p : ptr) (seg : Z) (pl : vec3) :
  seg < 0 -> write_normal p seg pl w = Undefined.
Proof.
  intros Hseg. unfold write_normal, bind at 1.
  destruct (deref p w) as [[nd w1]| |] eqn:Hd.
  - unfold bind, lift. now rewrite aset_negative.
  - unfold deref in Hd. repeat case_match; discriminate.
  - reflexivity.
Qed.

(** Past the sanity checks and the test of connection. *)
Lemma RecalcSegGlidePlane_connected (w : World) (l1 l2 : loc) (n1 n2 : Node_t)
  (s1 : nat) (bX bY bZ : float) (seg2 ignoreIfScrew : Z) :
  l1 <> l2 ->
  heap w !! l1 = Some n1 -> heap w !! l2 = Some n2 ->
  first_arm_to n1 (myTag n2) s1 ->
  burgX n1 !! s1 = Some bX -> burgY n1 !! s1 = Some bY ->
  burgZ n1 !! s1 = Some bZ ->
  GetArmID (Some l2) (Some l1) w = Ret (seg2, w) ->
  RecalcSegGlidePlane (Some l1) (Some l2) ignoreIfScrew w =
  let newPlane := derived_plane (home w) n1 n2 (bX, bY, bZ) in
  if (DotProduct newPlane newPlane <? screw_threshold)%float then
    if negb (ignoreIfScrew =? 0) then Ret (tt, w)
    else write_both (Some l1) (Some l2) (Z.of_nat s1) seg2
           (PickScrewGlidePlane (home w) (bX, bY, bZ)) w
  else write_both (Some l1) (Some l2) (Z.of_nat s1) seg2 newPlane w.
Proof.
  intros Hne H1 H2 Harm HbX HbY HbZ Hid.
  unfold RecalcSegGlidePlane. cbn [ptr_eqb].
  rewrite (proj2 (Nat.eqb_neq l1 l2) Hne).
  rewrite (bind_Ret _ _ _ _ _ (Connected_arm _ _ _ _ _ _ H1 H2 Harm)).
  cbn [fst snd]. change (1 =? 0) with false. cbn iota.
  rewrite (bind_Ret _ _ _ _ _ Hid).
  unfold bind at 1, get_home.
  rewrite (bind_Ret _ _ _ _ _ (deref_heap _ _ _ H1)).
  rewrite (bind_Ret _ _ _ _ _ (deref_heap _ _ _ H2)).
  rewrite Nat2Z.id || idtac.
  erewrite bind_Ret;
    [|apply lift_Ret, aget_lookup; [lia | rewrite Nat2Z.id; exact HbX]].
  erewrite bind_Ret;
    [|apply lift_Ret, aget_lookup; [lia | rewrite Nat2Z.id; exact HbY]].
  erewrite bind_Ret;
    [|apply lift_Ret, aget_lookup; [lia | rewrite Nat2Z.id; exact HbZ]].
  cbv zeta.
  destruct (_ <? _)%float; [destruct (negb _)|]; reflexivity.
Qed.

Lemma burg_of_arm (n : Node_t) (tag : Tag_t) (i : nat) :
  Node_wf n -> first_arm_to n tag i ->
  exists bX bY bZ, burgX n !! i = Some bX /\ burgY n !! i = Some bY /\
                   burgZ n !! i = Some bZ.
Proof.
  intros (_ & Hx & Hy & Hz & _) (Hi & _).
  destruct (lookup_lt_is_Some_2 (burgX n) i) as [bX ?]; [lia|].
  destruct (lookup_lt_is_Some_2 (burgY n) i) as [bY ?]; [lia|].
  destruct (lookup_lt_is_Some_2 (burgZ n) i) as [bZ ?]; [lia|].
  eauto 7.
Qed.

Lemma write_both_in_range (w : World) (l1 l2 : loc) (n1 n2 : Node_t)
  (seg1 seg2 : Z) (pl : vec3) :
  l1 <> l2 ->
  heap w !! l1 = Some n1 -> heap w !! l2 = Some n2 ->
  Node_wf n1 -> Node_wf n2 ->
  0 <= seg1 < numNbrs n1 -> 0 <= seg2 < numNbrs n2 ->
  exists w', write_both (Some l1) (Some l2) seg1 seg2 pl w = Ret (tt, w').
Proof.
  intros Hne H1 H2 Hwf1 Hwf2 Hs1 Hs2. unfold write_both.
  rewrite (bind_Ret _ _ _ _ _
             (write_normal_in_range _ _ _ _ _ H1 Hwf1 Hs1)).
  erewrite write_normal_in_range; [eexists; reflexivity | | exact Hwf2 | exact Hs2].
  cbn [heap]. now rewrite lookup_insert_ne.
Qed.

Lemma write_both_negative (w : World) (node1 node2 : ptr) (seg1 seg2 : Z)
  (pl : vec3) :
  seg2 < 0 ->
  (forall fmt args, write_normal node1 seg1 (Normalize pl) w <> FatalExit fmt args) ->
  write_both node1 node2 seg1 seg2 pl w = Undefined.
Proof.
  intros Hseg Hnf. unfold write_both, bind.
  destruct (write_normal node1 seg1 (Normalize pl) w) as [[[] w1]| |].
  - now apply write_normal_negative.
  - now contradiction (Hnf fmt args).
  - reflexivity.
Qed.

Lemma write_normal_not_fatal (w : World) (p : ptr) (seg : Z) (pl : vec3) :
  forall fmt args, write_normal p seg pl w <> FatalExit fmt args.
Proof.
  intros fmt args. unfold write_normal, bind, deref, lift, aset, store.
  repeat (case_match; try discriminate).
Qed.

(** C8. RecalcSegGlidePlane(node1, node2, ignoreIfScrew) returns with the
    whole state as it was when node1 or node2 is NULL, when node1 and node2
    are the same node, and when node1 has no arm to node2; and when the
    plane derived for the segment has a dot product with itself below the
    threshold 1.0e-03 and ignoreIfScrew is set, it returns with the state,
    and so the glide-plane normals of both nodes, as they were. *)
Theorem RecalcSegGlidePlane_frame :
  (forall (w : World) (node1 node2 : ptr) (ignoreIfScrew : Z),
     node1 = NULL \/ node2 = NULL \/ node1 = node2 ->
     RecalcSegGlidePlane node1 node2 ignoreIfScrew w = Ret (tt, w)) /\
  (forall (w : World) (l1 l2 : loc) (n1 n2 : Node_t) (ignoreIfScrew : Z),
     heap w !! l1 = Some n1 -> heap w !! l2 = Some n2 ->
     Node_wf n1 ->
     no_arm_to n1 (myTag n2) ->
     RecalcSegGlidePlane (Some l1) (Some l2) ignoreIfScrew w = Ret (tt, w)) /\
  (forall (w : World) (l1 l2 : loc) (n1 n2 : Node_t) (s1 : nat)
          (bX bY bZ : float) (ignoreIfScrew : Z),
     heap w !! l1 = Some n1 -> heap w !! l2 = Some n2 ->
     Node_wf n1 -> Node_wf n2 ->
     first_arm_to n1 (myTag n2) s1 ->
     burgX n1 !! s1 = Some bX -> burgY n1 !! s1 = Some bY ->
     burgZ n1 !! s1 = Some bZ ->
     (let newPlane := derived_plane (home w) n1 n2 (bX, bY, bZ) in
      (DotProduct newPlane newPlane <? screw_threshold)%float = true) ->
     ignoreIfScrew <> 0 ->
     RecalcSegGlidePlane (Some l1) (Some l2) ignoreIfScrew w = Ret (tt, w)).
Proof.
  split; [|split].
  - intros w node1 node2 ig H. unfold RecalcSegGlidePlane.
    destruct node1 as [l1|], node2 as [l2|]; try reflexivity.
    destruct H as [H | [H | H]]; try discriminate.
    injection H as ->. cbn [ptr_eqb]. now rewrite Nat.eqb_refl.
  - intros w l1 l2 n1 n2 ig H1 H2 Hwf Hno. unfold RecalcSegGlidePlane.
    cbn [ptr_eqb]. destruct (Nat.eqb l1 l2); [reflexivity|].
    now rewrite (bind_Ret _ _ _ _ _ (Connected_no_arm _ _ _ _ _ H1 H2 Hwf Hno)).
  - intros w l1 l2 n1 n2 s1 bX bY bZ ig H1 H2 Hwf1 Hwf2 Harm HbX HbY HbZ
      Hscrew Hig.
    destruct (Nat.eq_dec l1 l2) as [->|Hne].
    { unfold RecalcSegGlidePlane. cbn [ptr_eqb]. now rewrite Nat.eqb_refl. }
    assert (Hid : exists seg2, GetArmID (Some l2) (Some l1) w = Ret (seg2, w)).
    { destruct (first_arm_or_none n2 (myTag n1) Hwf2) as [[s2 Hs2] | Hno].
      - eexists. now apply (GetArmID_arm w l2 l1 n2 n1 s2).
      - eexists. now apply (GetArmID_no_arm w l2 l1 n2 n1). }
    destruct Hid as [seg2 Hid].
    rewrite (RecalcSegGlidePlane_connected w l1 l2 n1 n2 s1 bX bY bZ seg2 ig
               Hne H1 H2 Harm HbX HbY HbZ Hid).
    cbv zeta in Hscrew |- *. rewrite Hscrew.
    now destruct (Z.eqb_spec ig 0).
Qed.

(** C10. Inside RecalcSegGlidePlane, when node2 carries an arm whose
    neighbor tag is the tag of node1, node2SegID = GetArmID(home, node2,
    node1) is at least 0 and below the number of arms of node2, so the
    writes to nx, ny and nz of node2 at that index are inside the arrays, and
    the call returns.  The code makes these writes without testing
    node2SegID: when node2 has no such arm, GetArmID answers -1 and the
    writes, once reached, go outside the arrays. *)
Theorem RecalcSegGlidePlane_node2SegID_in_bounds :
  (forall (w : World) (l1 l2 : loc) (n1 n2 : Node_t),
     heap w !! l1 = Some n1 -> heap w !! l2 = Some n2 ->
     Node_wf n2 ->
     (exists j, (j < Z.to_nat (numNbrs n2))%nat /\
                nbrTag n2 !! j = Some (myTag n1)) ->
     exists node2SegID : Z,
       GetArmID (Some l2) (Some l1) w = Ret (node2SegID, w) /\
       0 <= node2SegID < numNbrs n2 /\
       forall v : float,
         aset (nx n2) node2SegID v <> Undefined /\
         aset (ny n2) node2SegID v <> Undefined /\
         aset (nz n2) node2SegID v <> Undefined) /\
  (forall (w : World) (l1 l2 : loc) (n1 n2 : Node_t) (ignoreIfScrew : Z),
     heap w !! l1 = Some n1 -> heap w !! l2 = Some n2 ->
     Node_wf n1 -> Node_wf n2 ->
     (exists j, (j < Z.to_nat (numNbrs n2))%nat /\
                nbrTag n2 !! j = Some (myTag n1)) ->
     exists w', RecalcSegGlidePlane (Some l1) (Some l2) ignoreIfScrew w
                = Ret (tt, w')) /\
  (forall (w : World) (l1 l2 : loc) (n1 n2 : Node_t) (s1 : nat),
     l1 <> l2 ->
     heap w !! l1 = Some n1 -> heap w !! l2 = Some n2 ->
     Node_wf n1 -> Node_wf n2 ->
     first_arm_to n1 (myTag n2) s1 ->
     no_arm_to n2 (myTag n1) ->
     GetArmID (Some l2) (Some l1) w = Ret (-1, w) /\
     RecalcSegGlidePlane (Some l1) (Some l2) 0 w = Undefined).
Proof.
  assert (Hrecip : forall (n1 n2 : Node_t),
    Node_wf n2 ->
    (exists j, (j < Z.to_nat (numNbrs n2))%nat /\
               nbrTag n2 !! j = Some (myTag n1)) ->
    exists s2, first_arm_to n2 (myTag n1) s2).
  { intros n1 n2 Hwf2 (j & Hj & Hjt).
    destruct (first_arm_or_none n2 (myTag n1) Hwf2) as [Hs2 | Hno];
      [exact Hs2|].
    now apply Hno in Hjt. }
  split; [|split].
  - intros w l1 l2 n1 n2 H1 H2 Hwf2 Hj.
    destruct (Hrecip n1 n2 Hwf2 Hj) as [s2 Hs2].
    exists (Z.of_nat s2). split; [now apply (GetArmID_arm w l2 l1 n2 n1 s2)|].
    pose proof Hs2 as (Hlt & _).
    destruct Hwf2 as (_ & _ & _ & _ & Hx & Hy & Hz & _).
    split; [lia|]. intros v.
    rewrite !aset_in_range by lia. repeat split; discriminate.
  - intros w l1 l2 n1 n2 ig H1 H2 Hwf1 Hwf2 Hj.
    destruct (Nat.eq_dec l1 l2) as [->|Hne].
    { exists w. unfold RecalcSegGlidePlane. cbn [ptr_eqb].
      now rewrite Nat.eqb_refl. }
    destruct (first_arm_or_none n1 (myTag n2) Hwf1) as [[s1 Hs1] | Hno].
    + destruct (Hrecip n1 n2 Hwf2 Hj) as [s2 Hs2].
      destruct (burg_of_arm _ _ _ Hwf1 Hs1) as (bX & bY & bZ & HbX & HbY & HbZ).
      rewrite (RecalcSegGlidePlane_connected w l1 l2 n1 n2 s1 bX bY bZ
                 (Z.of_nat s2) ig Hne H1 H2 Hs1 HbX HbY HbZ
                 (GetArmID_arm w l2 l1 n2 n1 s2 H2 H1 Hs2)).
      pose proof Hs1 as (Hlt1 & _). pose proof Hs2 as (Hlt2 & _).
      cbv zeta.
      destruct (_ <? _)%float; [destruct (negb _); [now exists w|]|];
        apply (write_both_in_range w l1 l2 n1 n2); auto; lia.
    + exists w. unfold RecalcSegGlidePlane. cbn [ptr_eqb].
      rewrite (proj2 (Nat.eqb_neq l1 l2) Hne).
      now rewrite (bind_Ret _ _ _ _ _ (Connected_no_arm _ _ _ _ _ H1 H2 Hwf1 Hno)).
  - intros w l1 l2 n1 n2 s1 Hne H1 H2 Hwf1 Hwf2 Hs1 Hno.
    pose proof (GetArmID_no_arm w l2 l1 n2 n1 H2 H1 Hwf2 Hno) as Hid.
    split; [exact Hid|].
    destruct (burg_of_arm _ _ _ Hwf1 Hs1) as (bX & bY & bZ & HbX & HbY & HbZ).
    rewrite (RecalcSegGlidePlane_connected w l1 l2 n1 n2 s1 bX bY bZ (-1) 0
               Hne H1 H2 Hs1 HbX HbY HbZ Hid).
    cbv zeta. change (negb (0 =? 0)) with false.
    destruct (_ <? _)%float;
      (apply write_both_negative; [lia | apply write_normal_not_fatal]).
Qed.

(** *** DomainOwnsSeg *)

Lemma land_1_odd (c : Z) : Z.land c 1 = if Z.odd c then 1 else 0.
Proof.
  change 1 with (Z.ones 1) at 1.
  rewrite Z.land_ones by lia.
  change (2 ^ 1) with 2.
  apply Zmod_odd.
Qed.

Lemma DomainOwnsSeg_same (opClass d : Z) (tag : Tag_t) (w : World) :
  d = domainID tag -> DomainOwnsSeg opClass d tag w = Ret (1, w).
Proof.
  intros ->. unfold DomainOwnsSeg, bind, get_home, ret.
  now rewrite Z.eqb_refl.
Qed.

Lemma DomainOwnsSeg_cross (opClass d : Z) (tag : Tag_t) (w : World) :
  d <> domainID tag ->
  valid_opClass opClass ->
  DomainOwnsSeg opClass d tag w =
  Ret (b2z (if xorb (Z.odd (cycle (home w))) (rule_inverted opClass)
            then d >? domainID tag else d <? domainID tag), w).
Proof.
  intros Hne Hop. unfold DomainOwnsSeg, rule_inverted, bind, get_home, ret.
  destruct (Z.eqb_spec d (domainID tag)) as [|_]; [contradiction|].
  rewrite land_1_odd.
  destruct ((opClass =? OPCLASS_SEPARATION) || (opClass =? OPCLASS_COLLISION))
    eqn:Hsc; cbn [negb].
  - now destruct (Z.odd (cycle (home w))).
  - assert ((opClass =? OPCLASS_REMESH) = true) as ->.
    { apply orb_false_iff in Hsc as [H1 H2].
      apply Z.eqb_neq in H1, H2. apply Z.eqb_eq.
      destruct Hop as [?|[?|?]]; congruence. }
    now destruct (Z.odd (cycle (home w))).
Qed.

Lemma rule_inverted_collision (opClass : Z) :
  opClass = OPCLASS_SEPARATION \/ opClass = OPCLASS_COLLISION ->
  rule_inverted opClass = false.
Proof.
  unfold rule_inverted. intros [-> | ->]; rewrite Z.eqb_refl; cbn;
    [reflexivity|]. now rewrite orb_true_r.
Qed.

Lemma rule_inverted_remesh :
  opclass_labels_distinct -> rule_inverted OPCLASS_REMESH = true.
Proof.
  intros (Hsr & Hcr & _). unfold rule_inverted.
  destruct (Z.eqb_spec OPCLASS_REMESH OPCLASS_SEPARATION); [congruence|].
  destruct (Z.eqb_spec OPCLASS_REMESH OPCLASS_COLLISION); [congruence|].
  reflexivity.
Qed.

Lemma b2z_gt_lt_swap (b : bool) (d1 d2 : Z) :
  d1 <> d2 ->
  negates (b2z (if b then d1 >? d2 else d1 <? d2))
          (b2z (if b then d2 >? d1 else d2 <? d1)).
Proof.
  intros Hne. unfold negates, b2z. rewrite !Z.gtb_ltb.
  destruct b; destruct (Z.ltb_spec d1 d2); destruct (Z.ltb_spec d2 d1);
    auto; lia.
Qed.

Lemma b2z_gt_lt_flip (b : bool) (d1 d2 : Z) :
  d1 <> d2 ->
  negates (b2z (if negb b then d1 >? d2 else d1 <? d2))
          (b2z (if b then d1 >? d2 else d1 <? d2)).
Proof.
  intros Hne. unfold negates, b2z. rewrite !Z.gtb_ltb.
  destruct b; cbn [negb]; destruct (Z.ltb_spec d1 d2);
    destruct (Z.ltb_spec d2 d1); auto; lia.
Qed.

(** C1. For every cycle, every operation class among separation, collision
    and remesh, and every two distinct domains d1 and d2, exactly one of
    DomainOwnsSeg(opClass, d1, tag in d2) and DomainOwnsSeg(opClass, d2, tag
    in d1) returns 1: both calls return, one of them 1 and the other 0. *)
Theorem DomainOwnsSeg_exactly_one_owner :
  forall (w : World) (opClass d1 d2 i1 i2 : Z),
    valid_opClass opClass ->
    d1 <> d2 ->
    exists r12 r21 : Z,
      DomainOwnsSeg opClass d1 (mkTag d2 i2) w = Ret (r12, w) /\
      DomainOwnsSeg opClass d2 (mkTag d1 i1) w = Ret (r21, w) /\
      negates r12 r21.
Proof.
  intros w opClass d1 d2 i1 i2 Hop Hne.
  eexists _, _. split; [|split].
  - apply DomainOwnsSeg_cross; [exact Hne | exact Hop].
  - apply DomainOwnsSeg_cross; [cbn; congruence | exact Hop].
  - cbn [domainID]. now apply b2z_gt_lt_swap.
Qed.

(** C2. On a segment between two domains, under separation or collision,
    DomainOwnsSeg returns 1 exactly when thisDomain is the higher domain on
    an odd cycle and exactly when it is the lower domain on an even cycle
    (and 0 otherwise).  For domains 2 and 5 under collision, domain 2 owns at
    cycle 4 and domain 5 owns at cycle 5; under remesh the two outcomes are
    inverted. *)
Theorem DomainOwnsSeg_parity_rule :
  opclass_labels_distinct ->
  (forall (w : World) (opClass thisDomain : Z) (endTag : Tag_t),
     thisDomain <> domainID endTag ->
     opClass = OPCLASS_SEPARATION \/ opClass = OPCLASS_COLLISION ->
     exists r : Z,
       DomainOwnsSeg opClass thisDomain endTag w = Ret (r, w) /\
       (r = 0 \/ r = 1) /\
       (r = 1 <-> if Z.odd (cycle (home w))
                  then domainID endTag < thisDomain
                  else thisDomain < domainID endTag)) /\
  (forall (w : World) (i : Z),
     cycle (home w) = 4 ->
     DomainOwnsSeg OPCLASS_COLLISION 2 (mkTag 5 i) w = Ret (1, w) /\
     DomainOwnsSeg OPCLASS_COLLISION 5 (mkTag 2 i) w = Ret (0, w) /\
     DomainOwnsSeg OPCLASS_REMESH 2 (mkTag 5 i) w = Ret (0, w) /\
     DomainOwnsSeg OPCLASS_REMESH 5 (mkTag 2 i) w = Ret (1, w)) /\
  (forall (w : World) (i : Z),
     cycle (home w) = 5 ->
     DomainOwnsSeg OPCLASS_COLLISION 5 (mkTag 2 i) w = Ret (1, w) /\
     DomainOwnsSeg OPCLASS_COLLISION 2 (mkTag 5 i) w = Ret (0, w) /\
     DomainOwnsSeg OPCLASS_REMESH 5 (mkTag 2 i) w = Ret (0, w) /\
     DomainOwnsSeg OPCLASS_REMESH 2 (mkTag 5 i) w = Ret (1, w)).
Proof.
  intros Hd. split; [|split].
  - intros w opClass d tag Hne Hop.
    eexists. split.
    + apply DomainOwnsSeg_cross; [exact Hne|].
      unfold valid_opClass. tauto.
    + rewrite (rule_inverted_collision _ Hop), xorb_false_r.
      unfold b2z. rewrite Z.gtb_ltb.
      destruct (Z.odd (cycle (home w)));
        destruct (Z.ltb_spec (domainID tag) d);
        destruct (Z.ltb_spec d (domainID tag));
        (split; [auto|]); split; intros; try lia; auto.
  - intros w i Hc.
    rewrite !DomainOwnsSeg_cross
      by (cbn; unfold valid_opClass; first [lia | tauto]).
    rewrite (rule_inverted_collision OPCLASS_COLLISION) by tauto.
    rewrite (rule_inverted_remesh Hd), Hc. cbn. tauto.
  - intros w i Hc.
    rewrite !DomainOwnsSeg_cross
      by (cbn; unfold valid_opClass; first [lia | tauto]).
    rewrite (rule_inverted_collision OPCLASS_COLLISION) by tauto.
    rewrite (rule_inverted_remesh Hd), Hc. cbn. tauto.
Qed.

(** C3 (amended). For every two distinct domain numbers and every cycle,
    DomainOwnsSeg under remesh returns the negation of what it returns under
    collision on the same inputs; when the two domain numbers are equal,
    both classes return 1. *)
Theorem DomainOwnsSeg_remesh_negates_collision :
  opclass_labels_distinct ->
  (forall (w : World) (d1 : Z) (endTag : Tag_t),
     d1 <> domainID endTag ->
     exists rr rc : Z,
       DomainOwnsSeg OPCLASS_REMESH d1 endTag w = Ret (rr, w) /\
       DomainOwnsSeg OPCLASS_COLLISION d1 endTag w = Ret (rc, w) /\
       negates rr rc) /\
  (forall (w : World) (d1 : Z) (endTag : Tag_t),
     d1 = domainID endTag ->
     DomainOwnsSeg OPCLASS_REMESH d1 endTag w = Ret (1, w) /\
     DomainOwnsSeg OPCLASS_COLLISION d1 endTag w = Ret (1, w)).
Proof.
  intros Hd. split.
  - intros w d1 tag Hne.
    eexists _, _. split; [|split].
    + apply DomainOwnsSeg_cross; [exact Hne | unfold valid_opClass; tauto].
    + apply DomainOwnsSeg_cross; [exact Hne | unfold valid_opClass; tauto].
    + rewrite (rule_inverted_collision OPCLASS_COLLISION) by tauto.
      rewrite (rule_inverted_remesh Hd), xorb_false_r, xorb_true_r.
      now apply b2z_gt_lt_flip.
  - intros w d1 tag Heq. split; now apply DomainOwnsSeg_same.
Qed.

(** C4 (amended). For every two distinct domains, DomainOwnsSeg with an
    operation class that is none of separation, collision and remesh ends in
    Fatal, with the message that names the class, and returns no verdict;
    when both ends are in the same domain the call returns 1 whatever the
    class, valid or not, and leaves the world as it was. *)
Theorem DomainOwnsSeg_invalid_opClass_fatal :
  (forall (w : World) (opClass thisDomain : Z) (endTag : Tag_t),
     ~ valid_opClass opClass ->
     thisDomain <> domainID endTag ->
     DomainOwnsSeg opClass thisDomain endTag w =
     FatalExit "Invalid opClass %d in DomainOwnsSeg()" [opClass]) /\
  (forall (w : World) (opClass thisDomain : Z) (endTag : Tag_t),
     thisDomain = domainID endTag ->
     DomainOwnsSeg opClass thisDomain endTag w = Ret (1, w)).
Proof.
  split.
  - intros w opClass d tag Hop Hne.
    unfold DomainOwnsSeg, bind, get_home, ret, Fatal, valid_opClass in *.
    destruct (Z.eqb_spec d (domainID tag)) as [|_]; [contradiction|].
    destruct (Z.eqb_spec opClass OPCLASS_SEPARATION); [tauto|].
    destruct (Z.eqb_spec opClass OPCLASS_COLLISION); [tauto|].
    destruct (Z.eqb_spec opClass OPCLASS_REMESH); [tauto|].
    reflexivity.
  - intros w opClass d tag Heq. now apply DomainOwnsSeg_same.
Qed.

End Properties.

(** ** Further properties of the code *)

Section MoreProperties.
Context `{E : Externals}.
Variable MARK_FORCES_OBSOLETE : OpType_t.

(** *** DomainOwnsSeg *)

Lemma DomainOwnsSeg_unfold (opClass d : Z) (tag : Tag_t) (w : World) :
  DomainOwnsSeg opClass d tag w =
  if d =? domainID tag then Ret (1, w)
  else if (opClass =? OPCLASS_SEPARATION) || (opClass =? OPCLASS_COLLISION) then
    Ret (b2z (if Z.odd (cycle (home w)) then d >? domainID tag
              else d <? domainID tag), w)
  else if opClass =? OPCLASS_REMESH then
    Ret (b2z (if Z.odd (cycle (home w)) then d <? domainID tag
              else d >? domainID tag), w)
  else FatalExit "Invalid opClass %d in DomainOwnsSeg()" [opClass].
Proof.
  unfold DomainOwnsSeg, bind, get_home, ret, Fatal. rewrite land_1_odd.
  destruct (d =? domainID tag); [reflexivity|].
  destruct ((opClass =? OPCLASS_SEPARATION) || (opClass =? OPCLASS_COLLISION));
    [now destruct (Z.odd (cycle (home w)))|].
  destruct (opClass =? OPCLASS_REMESH); [|reflexivity].
  now destruct (Z.odd (cycle (home w))).
Qed.

Lemma b2z_01 (b : bool) : b2z b = 0 \/ b2z b = 1.
Proof. destruct b; cbn; auto. Qed.

(** X1. Whatever its arguments and the state, DomainOwnsSeg either returns 0
    or 1 and leaves the state as it was, or ends in Fatal with the message
    that names the class; it ends in Fatal exactly when the class is none of
    the three and the two domains differ. *)
Theorem DomainOwnsSeg_outcomes :
  forall (w : World) (opClass thisDomain : Z) (endTag : Tag_t),
    (DomainOwnsSeg opClass thisDomain endTag w =
       FatalExit "Invalid opClass %d in DomainOwnsSeg()" [opClass] /\
     ~ valid_opClass opClass /\ thisDomain <> domainID endTag) \/
    (exists r : Z,
       DomainOwnsSeg opClass thisDomain endTag w = Ret (r, w) /\
       (r = 0 \/ r = 1) /\
       (valid_opClass opClass \/ thisDomain = domainID endTag)).
Proof.
  intros w opClass d tag. rewrite DomainOwnsSeg_unfold. unfold valid_opClass.
  destruct (Z.eqb_spec d (domainID tag)) as [Hd|Hd].
  { right. exists 1. auto. }
  destruct (Z.eqb_spec opClass OPCLASS_SEPARATION) as [Hs|Hs]; cbn [orb].
  { right. eexists. split; [reflexivity|]. split; [apply b2z_01 | auto]. }
  destruct (Z.eqb_spec opClass OPCLASS_COLLISION) as [Hc|Hc].
  { right. eexists. split; [reflexivity|]. split; [apply b2z_01 | auto]. }
  destruct (Z.eqb_spec opClass OPCLASS_REMESH) as [Hr|Hr].
  { right. eexists. split; [reflexivity|]. split; [apply b2z_01 | auto]. }
  left. split; [reflexivity|]. split; [tauto | exact Hd].
Qed.

(** X2. Ownership of a segment between two distinct domains alternates from
    one cycle to the next: under any of the three classes, the verdict at
    cycle c+1 is the negation of the verdict at cycle c. *)
Theorem DomainOwnsSeg_alternates_with_cycle :
  forall (w w' : World) (opClass thisDomain : Z) (endTag : Tag_t),
    valid_opClass opClass ->
    thisDomain <> domainID endTag ->
    cycle (home w') = cycle (home w) + 1 ->
    exists r r' : Z,
      DomainOwnsSeg opClass thisDomain endTag w = Ret (r, w) /\
      DomainOwnsSeg opClass thisDomain endTag w' = Ret (r', w') /\
      negates r r'.
Proof.
  intros w w' opClass d tag Hop Hne Hc.
  eexists _, _. split; [|split].
  - apply DomainOwnsSeg_cross; assumption.
  - apply DomainOwnsSeg_cross; assumption.
  - rewrite Hc, Z.add_1_r, Z.odd_succ, <- Z.negb_odd.
    unfold negates, b2z. rewrite !Z.gtb_ltb.
    destruct (Z.odd (cycle (home w))), (rule_inverted opClass); cbn;
      destruct (Z.ltb_spec d (domainID tag));
      destruct (Z.ltb_spec (domainID tag) d); auto; lia.
Qed.

(** X3. The verdict of DomainOwnsSeg depends on the state only through the
    parity of the cycle and on the end tag only through its domain, and
    separation and collision always receive the same verdict: every domain
    computes the same answer from the class, the parity and the two domain
    numbers. *)
Theorem DomainOwnsSeg_depends_on_parity_and_domains :
  (forall (w1 w2 : World) (opClass thisDomain : Z) (t1 t2 : Tag_t),
     Z.odd (cycle (home w1)) = Z.odd (cycle (home w2)) ->
     domainID t1 = domainID t2 ->
     outcome_value (DomainOwnsSeg opClass thisDomain t1 w1) =
     outcome_value (DomainOwnsSeg opClass thisDomain t2 w2)) /\
  (forall (w : World) (thisDomain : Z) (endTag : Tag_t),
     DomainOwnsSeg OPCLASS_SEPARATION thisDomain endTag w =
     DomainOwnsSeg OPCLASS_COLLISION thisDomain endTag w).
Proof.
  split.
  - intros w1 w2 opClass d t1 t2 Hpar Hdom.
    rewrite !DomainOwnsSeg_unfold, Hpar, Hdom.
    destruct (d =? domainID t2); [reflexivity|].
    destruct ((opClass =? OPCLASS_SEPARATION) || (opClass =? OPCLASS_COLLISION));
      [reflexivity|].
    now destruct (opClass =? OPCLASS_REMESH).
  - intros w d tag. rewrite !DomainOwnsSeg_unfold, !Z.eqb_refl.
    now rewrite orb_true_r.
Qed.

(** *** Connected, GetArmID *)

(** X4. Connected and GetArmID run the same search: for all pointers, NULL
    included, and every state, Connected answers 1 with the arm that GetArmID
    returns when that is not negative, and 0 with -1 when it is. *)
Theorem Connected_agrees_with_GetArmID :
  forall (w : World) (node1 node2 : ptr),
    Connected node1 node2 w =
    (let* i := GetArmID node1 node2 in
     ret (if i <? 0 then 0 else 1, i)) w.
Proof.
  intros w node1 node2. unfold Connected, GetArmID.
  destruct node1 as [l1|], node2 as [l2|]; try reflexivity.
  unfold bind, deref, lift, ret.
  destruct (heap w !! l2) as [n2|]; [|reflexivity].
  destruct (heap w !! l1) as [n1|]; [|reflexivity].
  destruct (scan_nbrTag _ _ _ _ _) as [[i|]| |]; try reflexivity.
  destruct (Z.ltb_spec (Z.of_nat i) 0); [lia | reflexivity].
Qed.

(** X5. For two nodes of the heap, the first of which has room for its arms,
    Connected answers (1, i) exactly when arm i is the first arm of node1
    whose tag is the tag of node2, and (0, -1) exactly when node1 has no such
    arm; the state is as it was. *)
Theorem Connected_iff_first_arm :
  forall (w : World) (l1 l2 : loc) (n1 n2 : Node_t),
    heap w !! l1 = Some n1 -> heap w !! l2 = Some n2 ->
    Node_wf n1 ->
    (forall i : nat,
       Connected (Some l1) (Some l2) w = Ret ((1, Z.of_nat i), w) <->
       first_arm_to n1 (myTag n2) i) /\
    (Connected (Some l1) (Some l2) w = Ret ((0, -1), w) <->
     no_arm_to n1 (myTag n2)).
Proof.
  intros w l1 l2 n1 n2 H1 H2 Hwf.
  destruct (first_arm_or_none n1 (myTag n2) Hwf) as [[j Hj] | Hno].
  - pose proof (Connected_arm w l1 l2 n1 n2 j H1 H2 Hj) as Hc. split.
    + intros i. split.
      * rewrite Hc. intros H. injection H as H.
        apply Nat2Z.inj in H. now subst.
      * intros Hi. now rewrite (first_arm_unique _ _ _ _ Hi Hj).
    + split.
      * rewrite Hc. discriminate.
      * intros Hno. destruct Hj as (? & Ht & _). now apply Hno in Ht.
  - pose proof (Connected_no_arm w l1 l2 n1 n2 H1 H2 Hwf Hno) as Hc. split.
    + intros i. split.
      * rewrite Hc. discriminate.
      * intros (? & Ht & _). now apply Hno in Ht.
    + split; [intros _; exact Hno | intros _; exact Hc].
Qed.

(** *** GetNeighborNode *)

Lemma GetNeighborNode_of_loop (w : World) (l : loc) (nd : Node_t) (n : Z)
  (r : option Tag_t) :
  heap w !! l = Some nd ->
  GetNeighborNode_loop (nbrTag nd) n (-1) 0 (Z.to_nat (numNbrs nd)) = Ret r ->
  GetNeighborNode (Some l) n w =
  match r with
  | Some t => GetNodeFromTag t w
  | None => Ret (NULL, neighbor_not_found w nd n)
  end.
Proof.
  intros Hnd Hloop. unfold GetNeighborNode.
  rewrite (bind_Ret _ _ _ _ _ (deref_heap _ _ _ Hnd)).
  rewrite (bind_Ret _ _ _ _ _ (lift_Ret _ _ _ Hloop)).
  destruct r as [t|]; [reflexivity|].
  unfold bind at 1, printf.
  erewrite bind_Ret; [|apply PrintNode_heap; exact Hnd].
  unfold ret, neighbor_not_found. cbn [heap home console].
  now rewrite <- app_assoc.
Qed.

(** Once the count of valid arms is past [n], the loop runs to its end. *)
Lemma GetNeighborNode_loop_past (tags : list Tag_t) (n : Z) (cnt : nat) :
  forall (j : Z) (i : nat),
    n < j ->
    (i + cnt <= length tags)%nat ->
    GetNeighborNode_loop tags n j i cnt = Ret None.
Proof.
  induction cnt as [|cnt IH]; intros j i Hj Hlen; [reflexivity|].
  cbn [GetNeighborNode_loop].
  destruct (lookup_lt_is_Some_2 tags i) as [t Ht]; [lia|].
  rewrite Ht.
  destruct (domainID t >=? 0).
  - destruct (Z.eqb_spec (j + 1) n); [lia|]. apply IH; lia.
  - destruct (Z.eqb_spec j n); [lia|]. apply IH; lia.
Qed.

Lemma filter_valid_all (tags : list Tag_t) :
  Forall (fun t => 0 <= domainID t) tags ->
  List.filter (fun t => 0 <=? domainID t) tags = tags.
Proof.
  induction 1 as [|t tags Ht _ IH]; [reflexivity|].
  cbn. destruct (Z.leb_spec 0 (domainID t)); [|lia]. now rewrite IH.
Qed.

(** X6. On a node without removed arms, GetNeighborNode(node, n) resolves the
    tag in slot n itself for n from 0 up to the number of arms, and reports
    and returns NULL for n at or beyond the number of arms: the counting
    version returns what the indexing version under [#if 0] would. *)
Theorem GetNeighborNode_dense :
  forall (w : World) (l : loc) (nd : Node_t),
    heap w !! l = Some nd ->
    Node_wf nd ->
    (forall (i : nat) (t : Tag_t),
       (i < Z.to_nat (numNbrs nd))%nat -> nbrTag nd !! i = Some t ->
       0 <= domainID t) ->
    (forall (n : Z) (t : Tag_t),
       0 <= n < numNbrs nd ->
       nbrTag nd !! Z.to_nat n = Some t ->
       GetNeighborNode (Some l) n w = GetNodeFromTag t w) /\
    (forall n : Z,
       0 <= n -> numNbrs nd <= n ->
       GetNeighborNode (Some l) n w = Ret (NULL, neighbor_not_found w nd n)).
Proof.
  intros w l nd Hnd Hwf Hall.
  assert (Hloop : forall n, 0 <= n ->
    GetNeighborNode_loop (nbrTag nd) n (-1) 0 (Z.to_nat (numNbrs nd)) =
    Ret (take (Z.to_nat (numNbrs nd)) (nbrTag nd) !! Z.to_nat n)).
  { intros n Hn. rewrite GetNeighborNode_loop_spec; [|lia|apply Hwf].
    rewrite drop_0, filter_valid_all.
    - now replace (n - -1 - 1) with n by lia.
    - apply Forall_lookup. intros i t Hi.
      apply lookup_take_Some in Hi as [Ht Hi]. now apply (Hall i). }
  split.
  - intros n t Hn Ht.
    rewrite (GetNeighborNode_of_loop w l nd n (Some t) Hnd); [reflexivity|].
    rewrite Hloop by lia. f_equal.
    rewrite lookup_take_lt by lia. exact Ht.
  - intros n Hn Hge.
    rewrite (GetNeighborNode_of_loop w l nd n None Hnd); [reflexivity|].
    rewrite Hloop by lia. f_equal.
    apply lookup_ge_None_2. rewrite length_take. lia.
Qed.

(** X7. GetNeighborNode with a negative n.  Below -1 it reports and returns
    NULL whatever the arms are.  At -1 it does so when the node has no arm or
    when its first arm is valid; when its first arm is a removed one, it
    hands that arm's tag to GetNodeFromTag, which ends in Fatal because the
    domain of the tag is negative. *)
Theorem GetNeighborNode_negative_index :
  forall (w : World) (l : loc) (nd : Node_t),
    heap w !! l = Some nd ->
    Node_wf nd ->
    (forall n : Z,
       n < -1 ->
       GetNeighborNode (Some l) n w = Ret (NULL, neighbor_not_found w nd n)) /\
    (numNbrs nd <= 0 ->
     GetNeighborNode (Some l) (-1) w = Ret (NULL, neighbor_not_found w nd (-1))) /\
    (forall t : Tag_t,
       0 < numNbrs nd -> nbrTag nd !! 0%nat = Some t ->
       (0 <= domainID t ->
        GetNeighborNode (Some l) (-1) w
          = Ret (NULL, neighbor_not_found w nd (-1))) /\
       (domainID t < 0 ->
        GetNeighborNode (Some l) (-1) w =
        FatalExit "GetNodeFromTag: invalid tag (%d,%d)"
                  [domainID t; index t])).
Proof.
  intros w l nd Hnd Hwf. split; [|split].
  - intros n Hn.
    rewrite (GetNeighborNode_of_loop w l nd n None Hnd); [reflexivity|].
    apply GetNeighborNode_loop_past; [lia | apply Hwf].
  - intros Hn.
    rewrite (GetNeighborNode_of_loop w l nd (-1) None Hnd); [reflexivity|].
    replace (Z.to_nat (numNbrs nd)) with 0%nat by lia. reflexivity.
  - intros t Hn Ht.
    assert (Hcnt : Z.to_nat (numNbrs nd) = S (Z.to_nat (numNbrs nd - 1)))
      by lia.
    assert (Hlen : (1 + Z.to_nat (numNbrs nd - 1) <= length (nbrTag nd))%nat).
    { destruct Hwf as [Hl _]. lia. }
    split.
    + intros Hv.
      rewrite (GetNeighborNode_of_loop w l nd (-1) None Hnd); [reflexivity|].
      rewrite Hcnt. cbn [GetNeighborNode_loop]. rewrite Ht.
      destruct (Z.geb_spec (domainID t) 0); [|lia]. cbn.
      apply GetNeighborNode_loop_past; [lia | exact Hlen].
    + intros Hv.
      rewrite (GetNeighborNode_of_loop w l nd (-1) (Some t) Hnd).
      * apply GetNodeFromTag_negative. auto.
      * rewrite Hcnt. cbn [GetNeighborNode_loop]. rewrite Ht.
        destruct (Z.geb_spec (domainID t) 0); [lia|]. reflexivity.
Qed.

(** *** ExtendOpList, AddOp, ClearOpList, InitOpList *)


Lemma appends_fit_next (h h1 : Home_t) (n : nat) :
  OpCount h1 = OpCount h + 1 ->
  OpListLen h <= OpListLen h1 ->
  appends_fit h (S n) -> appends_fit h1 n.
Proof.
  intros Hk Hcap Hfit Hneed. rewrite Hk in *.
  destruct Hfit as [Hs Hbytes]; [lia|]. split; [exact Hs|].
  replace (OpCount h + 1 + Z.of_nat n + OpBlock_Count)
    with (OpCount h + Z.of_nat (S n) + OpBlock_Count) by lia.
  exact Hbytes.
Qed.

(** The capacity along a sequence of appends, and the slots that the
    sequence does not reach. *)
Lemma AddOps_capacity :
  0 < OpBlock_Count ->
  forall (ops : list Operate_t) (w : World),
    Log_wf (home w) ->
    appends_fit (home w) (length ops) ->
    exists h' : Home_t,
      AddOps ops w = Ret (tt, mkWorld h' (heap w) (console w)) /\
      Log_wf h' /\
      same_tables (home w) h' /\
      OpListLen (home w) <= OpListLen h' /\
      (OpCount (home w) + Z.of_nat (length ops) <= OpListLen (home w) ->
       OpListLen h' = OpListLen (home w)) /\
      (OpListLen (home w) < OpCount (home w) + Z.of_nat (length ops) ->
       OpListLen h' < OpCount (home w) + Z.of_nat (length ops) + OpBlock_Count) /\
      (exists m : Z, 0 <= m /\
                     OpListLen h' = OpListLen (home w) + m * OpBlock_Count) /\
      (forall i : nat,
         (Z.to_nat (OpCount (home w) + Z.of_nat (length ops)) <= i
          < Z.to_nat (OpListLen (home w)))%nat ->
         opList h' !! i = opList (home w) !! i).
Proof.
  intros HB ops. induction ops as [|op rest IH]; intros w Hwf Hfit.
  - exists (home w). split; [now destruct w|]. split; [exact Hwf|].
    split; [apply same_tables_refl|]. split; [lia|]. split; [reflexivity|].
    destruct Hwf as [[? ?] ?]. cbn [length].
    split; [lia|]. split; [exists 0; lia | reflexivity].
  - assert (Hready : log_ready (home w)).
    { split; [exact HB|]. split; [exact Hwf|].
      apply (appends_fit_step _ (length rest));
        [apply Hwf | exact HB | exact Hfit]. }
    pose proof (AddOp_exact w (op_type op) (op_dom1 op) (op_idx1 op)
                  (op_dom2 op) (op_idx2 op) (op_dom3 op) (op_idx3 op)
                  (op_bx op) (op_by op) (op_bz op) (op_x op) (op_y op) (op_z op)
                  (op_nx op) (op_ny op) (op_nz op) Hready) as Hrun1.
    rewrite Operate_eta in Hrun1.
    destruct Hwf as [[Hc0 Hc] Hlen].
    set (k := OpCount (home w)) in *. set (len := OpListLen (home w)) in *.
    set (l1 := <[Z.to_nat k := Some op]>
                 (if k >=? len
                  then resize (Z.to_nat (len + OpBlock_Count)) None
                              (opList (home w))
                  else opList (home w))) in *.
    set (len1 := if k >=? len then len + OpBlock_Count else len) in *.
    set (h1 := set_opList (home w) l1 (k + 1) len1) in *.
    assert (Hlen1 : ((k >=? len) = true /\ k = len /\ len1 = len + OpBlock_Count) \/
                    ((k >=? len) = false /\ k < len /\ len1 = len)).
    { subst len1. destruct (Z.geb_spec k len); [left | right];
        repeat split; lia. }
    assert (Hwf1 : Log_wf h1).
    { unfold Log_wf, h1, set_opList. cbn [OpCount OpListLen opList].
      subst l1. rewrite length_insert.
      destruct Hlen1 as [(-> & ? & ->) | (-> & ? & ->)].
      - rewrite length_resize. lia.
      - lia. }
    assert (Hfit1 : appends_fit h1 (length rest)).
    { apply (appends_fit_next (home w)); [reflexivity | | exact Hfit].
      unfold h1, set_opList. cbn [OpListLen]. fold len. lia. }
    destruct (IH (mkWorld h1 (heap w) (console w)) Hwf1 Hfit1)
      as (h2 & Hrun2 & Hwf2 & Hsame & Hmono & Hroom & Hgrow & (m & Hm0 & Hm)
          & Htail).
    cbn [home heap console] in *.
    assert (Hk1 : OpCount h1 = k + 1) by reflexivity.
    assert (Hl1 : OpListLen h1 = len1) by reflexivity.
    rewrite Hk1, Hl1 in *.
    exists h2. split.
    { cbn [AddOps]. now rewrite (bind_Ret _ _ _ _ _ Hrun1). }
    split; [exact Hwf2|].
    split; [eapply same_tables_trans; [|exact Hsame]; repeat split|].
    cbn [length]. rewrite Nat2Z.inj_succ.
    destruct Hlen1 as [(Hge & Hkl & Hl) | (Hge & Hkl & Hl)]; rewrite Hl in *.
    + split; [lia|]. split; [lia|]. split.
      * intros _.
        destruct (Z.le_gt_cases (k + 1 + Z.of_nat (length rest))
                    (len + OpBlock_Count)) as [Hin|Hover].
        -- rewrite (Hroom Hin). lia.
        -- specialize (Hgrow Hover). lia.
      * split; [exists (m + 1); lia|]. intros i Hi. lia.
    + split; [lia|]. split; [intros; apply Hroom; lia|]. split.
      * intros Hover. specialize (Hgrow ltac:(lia)). lia.
      * split; [exists m; lia|]. intros i Hi.
        rewrite Htail by lia. unfold h1, set_opList. cbn [opList].
        subst l1. rewrite Hge. apply list_lookup_insert_ne. lia.
Qed.

(** X9. The capacity along a sequence of appends: it never shrinks, it stays
    as it was as long as the entries fit, it grows by whole blocks of
    OpBlock_Count, and once it has grown it exceeds the number of entries by
    less than one block.  The sequence changes nothing but the operation
    list and its counters.  This is for appends whose growths all have a
    byte count that fits in an [int]: either the entries fit in the
    capacity, or (OpCount + N + OpBlock_Count) * sizeof(Operate_t) is at
    most INT_MAX. *)
Theorem AddOps_capacity_policy :
  0 < OpBlock_Count ->
  forall (w : World) (ops : list Operate_t),
    Log_wf (home w) ->
    appends_fit (home w) (length ops) ->
    exists h' : Home_t,
      AddOps ops w = Ret (tt, mkWorld h' (heap w) (console w)) /\
      same_tables (home w) h' /\
      OpCount h' <= OpListLen h' /\
      OpListLen (home w) <= OpListLen h' /\
      (OpCount (home w) + Z.of_nat (length ops) <= OpListLen (home w) ->
       OpListLen h' = OpListLen (home w)) /\
      (OpListLen (home w) < OpCount (home w) + Z.of_nat (length ops) ->
       OpListLen h' < OpCount (home w) + Z.of_nat (length ops) + OpBlock_Count) /\
      (exists m : Z, 0 <= m /\
                     OpListLen h' = OpListLen (home w) + m * OpBlock_Count).
Proof.
  intros HB w ops Hwf Hfit.
  destruct (AddOps_capacity HB ops w Hwf Hfit)
    as (h' & Hrun & [[_ Hc] _] & Hsame & Hmono & Hroom & Hgrow & Hm & _).
  exists h'. auto 10.
Qed.


(** On a buffer of exactly [OpListLen] slots, the slots that a sequence of
    appends adds and does not write are uninitialised. *)
Lemma AddOps_fresh :
  0 < OpBlock_Count ->
  forall (ops : list Operate_t) (w : World),
    Log_wf (home w) ->
    appends_fit (home w) (length ops) ->
    Z.of_nat (length (opList (home w))) = OpListLen (home w) ->
    exists h' : Home_t,
      AddOps ops w = Ret (tt, mkWorld h' (heap w) (console w)) /\
      Z.of_nat (length (opList h')) = OpListLen h' /\
      (forall i : nat,
         (Z.to_nat (OpCount (home w) + Z.of_nat (length ops)) <= i)%nat ->
         (Z.to_nat (OpListLen (home w)) <= i)%nat ->
         opList h' !! i = Some None \/ opList h' !! i = None).
Proof.
  intros HB ops. induction ops as [|op rest IH]; intros w Hwf Hfit Hbuf.
  - exists (home w). split; [now destruct w|]. split; [exact Hbuf|].
    intros i _ Hi. right. apply lookup_ge_None_2. lia.
  - assert (Hready : log_ready (home w)).
    { split; [exact HB|]. split; [exact Hwf|].
      apply (appends_fit_step _ (length rest));
        [apply Hwf | exact HB | exact Hfit]. }
    pose proof (AddOp_exact w (op_type op) (op_dom1 op) (op_idx1 op)
                  (op_dom2 op) (op_idx2 op) (op_dom3 op) (op_idx3 op)
                  (op_bx op) (op_by op) (op_bz op) (op_x op) (op_y op) (op_z op)
                  (op_nx op) (op_ny op) (op_nz op) Hready) as Hrun1.
    rewrite Operate_eta in Hrun1.
    destruct Hwf as [[Hc0 Hc] Hlen].
    set (k := OpCount (home w)) in *. set (len := OpListLen (home w)) in *.
    set (l1 := <[Z.to_nat k := Some op]>
                 (if k >=? len
                  then resize (Z.to_nat (len + OpBlock_Count)) None
                              (opList (home w))
                  else opList (home w))) in *.
    set (len1 := if k >=? len then len + OpBlock_Count else len) in *.
    set (h1 := set_opList (home w) l1 (k + 1) len1) in *.
    assert (Hlen1 : ((k >=? len) = true /\ k = len /\ len1 = len + OpBlock_Count) \/
                    ((k >=? len) = false /\ k < len /\ len1 = len)).
    { subst len1. destruct (Z.geb_spec k len); [left | right];
        repeat split; lia. }
    assert (Hbuf1 : Z.of_nat (length (opList h1)) = OpListLen h1).
    { unfold h1, set_opList. cbn [OpListLen opList].
      subst l1. rewrite length_insert.
      destruct Hlen1 as [(-> & ? & ->) | (-> & ? & ->)].
      - rewrite length_resize. lia.
      - exact Hbuf. }
    assert (Hwf1 : Log_wf h1).
    { unfold Log_wf. split; [|lia]. unfold h1, set_opList.
      cbn [OpCount OpListLen].
      destruct Hlen1 as [(_ & ? & ->) | (_ & ? & ->)]; lia. }
    assert (Hfit1 : appends_fit h1 (length rest)).
    { apply (appends_fit_next (home w)); [reflexivity | | exact Hfit].
      unfold h1, set_opList. cbn [OpListLen]. fold len.
      destruct Hlen1 as [(_ & ? & ->) | (_ & ? & ->)]; lia. }
    destruct (IH (mkWorld h1 (heap w) (console w)) Hwf1 Hfit1 Hbuf1)
      as (h2 & Hrun2 & Hbuf2 & Hfresh).
    destruct (AddOps_capacity HB rest (mkWorld h1 (heap w) (console w))
                Hwf1 Hfit1)
      as (h2' & Hrun2' & _ & _ & _ & _ & _ & _ & Htail).
    rewrite Hrun2 in Hrun2'. injection Hrun2' as <-.
    cbn [home heap console] in *.
    assert (Hk1 : OpCount h1 = k + 1) by reflexivity.
    assert (Hl1 : OpListLen h1 = len1) by reflexivity.
    rewrite Hk1, Hl1 in *.
    exists h2. split.
    { cbn [AddOps]. now rewrite (bind_Ret _ _ _ _ _ Hrun1). }
    split; [exact Hbuf2|].
    intros i Hi Hnew. cbn [length] in Hi.
    destruct (Nat.le_gt_cases (Z.to_nat len1) i) as [Hout|Hin].
    + apply Hfresh; lia.
    + left. rewrite Htail by lia. unfold h1, set_opList. cbn [opList].
      subst l1.
      destruct Hlen1 as [(-> & ? & ?) | (_ & ? & ?)]; [|lia].
      rewrite list_lookup_insert_ne by lia.
      apply lookup_resize_new; lia.
Qed.

Lemma ClearOpList_exact (w : World) :
  0 <= OpListLen (home w) <= Z.of_nat (length (opList (home w))) ->
  ClearOpList w =
  Ret (tt,
       mkWorld
         (set_opList (home w)
            (replicate (Z.to_nat (OpListLen (home w))) (Some zero_op)
             ++ drop (Z.to_nat (OpListLen (home w))) (opList (home w)))
            0 (OpListLen (home w)))
         (heap w) (console w)).
Proof.
  intros [H0 Hlen]. unfold ClearOpList, bind, get_home.
  destruct (Z.ltb_spec (OpListLen (home w)) 0); [lia|].
  destruct (Z.ltb_spec (Z.of_nat (length (opList (home w))))
              (OpListLen (home w))); [lia|].
  reflexivity.
Qed.

(** X10. ClearOpList on a list whose capacity lies inside its buffer sets
    the count to zero, keeps the capacity and the buffer, and leaves the
    all-zero entry in every slot below the capacity; nothing else in the
    state changes.  With a capacity that is negative or beyond the buffer the
    [memset] writes outside it. *)
Theorem ClearOpList_zeroes :
  forall w : World,
    (0 <= OpListLen (home w) <= Z.of_nat (length (opList (home w))) ->
     exists h' : Home_t,
       ClearOpList w = Ret (tt, mkWorld h' (heap w) (console w)) /\
       same_tables (home w) h' /\
       Log_wf h' /\
       OpCount h' = 0 /\
       OpListLen h' = OpListLen (home w) /\
       length (opList h') = length (opList (home w)) /\
       (forall i : nat, (i < Z.to_nat (OpListLen (home w)))%nat ->
                        opList h' !! i = Some (Some zero_op)) /\
       (forall i : nat, (Z.to_nat (OpListLen (home w)) <= i)%nat ->
                        opList h' !! i = opList (home w) !! i)) /\
    (OpListLen (home w) < 0 \/
     Z.of_nat (length (opList (home w))) < OpListLen (home w) ->
     ClearOpList w = Undefined).
Proof.
  intros w. split.
  - intros Hlen. eexists. split; [apply ClearOpList_exact; exact Hlen|].
    split; [repeat split|].
    unfold Log_wf, set_opList. cbn [OpCount OpListLen opList].
    rewrite length_app, length_replicate, length_drop.
    split; [lia|]. split; [reflexivity|]. split; [reflexivity|].
    split; [lia|]. split.
    + intros i Hi. rewrite lookup_app_l by (rewrite length_replicate; lia).
      apply lookup_replicate_2. exact Hi.
    + intros i Hi. rewrite lookup_app_r by (rewrite length_replicate; lia).
      rewrite length_replicate, lookup_drop. f_equal. lia.
  - intros H. unfold ClearOpList, bind, get_home, undefined.
    destruct (Z.ltb_spec (OpListLen (home w)) 0);
      destruct (Z.ltb_spec (Z.of_nat (length (opList (home w))))
                  (OpListLen (home w))); cbn; try reflexivity; lia.
Qed.

(** X11. ClearOpList followed by appends, on a buffer of exactly OpListLen
    slots and with appends whose growths have a byte count that fits in an
    [int]: whatever the list held, afterwards OpCount is the number of
    appended entries, the slots from 0 hold them in the order of the calls,
    every slot between them and the old capacity holds the all-zero entry,
    and every slot from the old capacity on is uninitialised or outside the
    buffer, so that no entry from before the clear can be read back. *)
Theorem ClearOpList_then_AddOps :
  0 < OpBlock_Count ->
  forall (w : World) (ops : list Operate_t),
    0 <= OpListLen (home w) ->
    Z.of_nat (length (opList (home w))) = OpListLen (home w) ->
    (OpListLen (home w) < Z.of_nat (length ops) ->
     0 < sizeof_Operate_t /\
     (Z.of_nat (length ops) + OpBlock_Count) * sizeof_Operate_t <= INT_MAX) ->
    exists h' : Home_t,
      (run ClearOpList in AddOps ops) w
        = Ret (tt, mkWorld h' (heap w) (console w)) /\
      OpCount h' = Z.of_nat (length ops) /\
      Z.of_nat (length (opList h')) = OpListLen h' /\
      (forall (i : nat) (op : Operate_t),
         ops !! i = Some op -> opList h' !! i = Some (Some op)) /\
      (forall i : nat,
         (length ops <= i < Z.to_nat (OpListLen (home w)))%nat ->
         opList h' !! i = Some (Some zero_op)) /\
      (forall i : nat,
         (length ops <= i)%nat -> (Z.to_nat (OpListLen (home w)) <= i)%nat ->
         opList h' !! i = Some None \/ opList h' !! i = None) /\
      (forall (i : nat) (op : Operate_t),
         (length ops <= i)%nat -> opList h' !! i = Some (Some op) ->
         op = zero_op).
Proof.
  intros HB w ops Hlen0 Hbuf Hfit.
  assert (Hlen : 0 <= OpListLen (home w) <= Z.of_nat (length (opList (home w))))
    by lia.
  pose proof (ClearOpList_exact w Hlen) as Hclear.
  set (h0 := set_opList (home w)
               (replicate (Z.to_nat (OpListLen (home w))) (Some zero_op)
                ++ drop (Z.to_nat (OpListLen (home w))) (opList (home w)))
               0 (OpListLen (home w))) in *.
  assert (Hbuf0 : Z.of_nat (length (opList h0)) = OpListLen h0).
  { unfold h0, set_opList. cbn [OpListLen opList].
    rewrite length_app, length_replicate, length_drop. lia. }
  assert (Hwf0 : Log_wf h0).
  { unfold Log_wf. split; [|lia]. unfold h0, set_opList.
    cbn [OpCount OpListLen]. lia. }
  assert (Hfit0 : appends_fit h0 (length ops)).
  { unfold appends_fit, h0, set_opList. cbn [OpCount OpListLen].
    intros Hneed. apply Hfit. lia. }
  destruct (AddOps_spec HB ops (mkWorld h0 (heap w) (console w)) Hwf0 Hfit0)
    as (h' & Hrun & _ & Hcnt & Hslots & _).
  destruct (AddOps_capacity HB ops (mkWorld h0 (heap w) (console w)) Hwf0 Hfit0)
    as (h'' & Hrun' & _ & _ & _ & _ & _ & _ & Htail).
  rewrite Hrun in Hrun'. injection Hrun' as <-.
  destruct (AddOps_fresh HB ops (mkWorld h0 (heap w) (console w))
              Hwf0 Hfit0 Hbuf0)
    as (h'' & Hrun' & Hbuf' & Hfresh).
  rewrite Hrun in Hrun'. injection Hrun' as <-.
  cbn [home heap console] in *.
  assert (Hzero : forall i : nat,
            (length ops <= i < Z.to_nat (OpListLen (home w)))%nat ->
            opList h' !! i = Some (Some zero_op)).
  { intros i Hi. rewrite Htail by (cbn; lia).
    unfold h0, set_opList. cbn [opList].
    rewrite lookup_app_l by (rewrite length_replicate; lia).
    apply lookup_replicate_2. lia. }
  assert (Hnew : forall i : nat,
            (length ops <= i)%nat -> (Z.to_nat (OpListLen (home w)) <= i)%nat ->
            opList h' !! i = Some None \/ opList h' !! i = None).
  { intros i Hi Hout. apply Hfresh; cbn; lia. }
  exists h'. split; [now rewrite (bind_Ret _ _ _ _ _ Hclear)|].
  split; [exact Hcnt|]. split; [exact Hbuf'|]. split.
  { intros i op Hop. apply (Hslots i op Hop). }
  split; [exact Hzero|]. split; [exact Hnew|].
  intros i op Hi Hop.
  destruct (Nat.le_gt_cases (Z.to_nat (OpListLen (home w))) i) as [Hout|Hin].
  - destruct (Hnew i Hi Hout) as [H|H]; rewrite H in Hop; discriminate.
  - rewrite Hzero in Hop by lia. now injection Hop as <-.
Qed.

(** X12. InitOpList gives, from any state, an empty well-formed list of
    capacity OpBlock_Count and resets the received-operations fields; up to
    OpBlock_Count appends after it are stored in order without any growth of
    the list. *)
Theorem InitOpList_then_AddOps :
  0 < OpBlock_Count ->
  forall (w : World) (ops : list Operate_t),
    Z.of_nat (length ops) <= OpBlock_Count ->
    exists h0 h' : Home_t,
      InitOpList w = Ret (mkRcvOps 0 None, mkWorld h0 (heap w) (console w)) /\
      Log_wf h0 /\ OpCount h0 = 0 /\ OpListLen h0 = OpBlock_Count /\
      same_tables (home w) h0 /\
      (run InitOpList in AddOps ops) w
        = Ret (tt, mkWorld h' (heap w) (console w)) /\
      OpCount h' = Z.of_nat (length ops) /\
      OpListLen h' = OpBlock_Count /\
      (forall (i : nat) (op : Operate_t),
         ops !! i = Some op -> opList h' !! i = Some (Some op)).
Proof.
  intros HB w ops HN.
  set (h0 := set_opList (home w) (replicate (Z.to_nat OpBlock_Count) None)
               0 OpBlock_Count).
  assert (Hinit : InitOpList w
                  = Ret (mkRcvOps 0 None, mkWorld h0 (heap w) (console w)))
    by reflexivity.
  assert (Hwf0 : Log_wf h0).
  { unfold Log_wf, h0, set_opList. cbn [OpCount OpListLen opList].
    rewrite length_replicate. lia. }
  assert (Hfit0 : appends_fit h0 (length ops)).
  { unfold appends_fit, h0, set_opList. cbn [OpCount OpListLen]. lia. }
  destruct (AddOps_spec HB ops (mkWorld h0 (heap w) (console w)) Hwf0 Hfit0)
    as (h' & Hrun & _ & Hcnt & Hslots & _).
  destruct (AddOps_capacity HB ops (mkWorld h0 (heap w) (console w)) Hwf0 Hfit0)
    as (h'' & Hrun' & _ & _ & _ & Hroom & _).
  rewrite Hrun in Hrun'. injection Hrun' as <-.
  cbn [home heap console] in *.
  exists h0, h'. split; [exact Hinit|]. split; [exact Hwf0|].
  do 2 (split; [reflexivity|]). split; [repeat split|].
  split; [now rewrite (bind_Ret _ _ _ _ _ Hinit)|].
  split; [exact Hcnt|]. split; [apply Hroom; cbn; lia|].
  intros i op Hop. apply (Hslots i op Hop).
Qed.

(** *** ResetSegForces *)

(** X13. What ResetSegForces does outside nodeA.  With globalOp set it
    appends exactly one entry to the operation list, of type
    RESET_SEG_FORCES, with the tag of nodeA, nodeBtag, the unused third tag
    (-1,-1), a zero Burgers vector, the force in the position fields and a
    zero normal, whether or not nodeA has an arm to nodeBtag; with globalOp
    0 the home is as it was.  Either way the console and all other nodes are
    untouched.  With globalOp set this is for a well-formed operation list,
    OpBlock_Count positive and, when the list is full, a byte count of the
    grown buffer that fits in an [int]. *)
Theorem ResetSegForces_log_entry :
  forall (w : World) (l : loc) (a : Node_t) (nodeBtag : Tag_t)
         (fx fy fz : float) (globalOp : Z),
    heap w !! l = Some a ->
    Node_wf a ->
    (globalOp <> 0 -> log_ready (home w)) ->
    exists w' : World,
      ResetSegForces (Some l) nodeBtag fx fy fz globalOp w = Ret (tt, w') /\
      console w' = console w /\
      (forall l' : loc, l' <> l -> heap w' !! l' = heap w !! l') /\
      (globalOp = 0 -> home w' = home w) /\
      (globalOp <> 0 ->
       same_tables (home w) (home w') /\
       OpCount (home w') = OpCount (home w) + 1 /\
       opList (home w') !! Z.to_nat (OpCount (home w)) =
         Some (Some (mkOp RESET_SEG_FORCES
                          (domainID (myTag a)) (index (myTag a))
                          (domainID nodeBtag) (index nodeBtag) (-1) (-1)
                          0%float 0%float 0%float fx fy fz
                          0%float 0%float 0%float)) /\
       forall i : nat, (i < Z.to_nat (OpCount (home w)))%nat ->
                       opList (home w') !! i = opList (home w) !! i).
Proof.
  intros w l a tag fx fy fz g Ha Hwf Hlog.
  destruct (ResetSegForces_exact w l a tag fx fy fz g Ha Hwf Hlog)
    as (h1 & a1 & Hrun & Hh0 & Hh1 & _).
  eexists. split; [exact Hrun|]. cbn [home heap console].
  split; [reflexivity|]. split; [intros l' Hl'; now apply lookup_insert_ne|].
  split; [exact Hh0|].
  intros Hg. specialize (Hh1 Hg).
  destruct (AddOp_spec w RESET_SEG_FORCES (domainID (myTag a)) (index (myTag a))
              (domainID tag) (index tag) (-1) (-1) 0%float 0%float 0%float
              fx fy fz 0%float 0%float 0%float (Hlog Hg))
    as (h' & Hrun' & _ & Hcnt & Hslot & Hkeep).
  rewrite Hh1 in Hrun'. injection Hrun' as <-.
  split; [|auto].
  rewrite AddOp_exact in Hh1 by exact (Hlog Hg). injection Hh1 as <-.
  repeat split.
Qed.

(** X14. What ResetSegForces does inside nodeA.  It changes only the force
    of the first arm that ends at nodeBtag, the total force and the flags:
    the tag, position, velocity, neighbor tags, Burgers vectors and normals
    of nodeA are as they were, every other arm keeps its force, also a later
    arm with the same neighbor tag, and when no arm ends at nodeBtag all arm
    forces are as they were.  With globalOp set this is for an operation
    list on which the append can be made: well-formed, OpBlock_Count
    positive and, when the list is full, a byte count of the grown buffer
    that fits in an [int]. *)
Theorem ResetSegForces_node_frame :
  forall (w : World) (l : loc) (a : Node_t) (nodeBtag : Tag_t)
         (fx fy fz : float) (globalOp : Z),
    heap w !! l = Some a ->
    Node_wf a ->
    (globalOp <> 0 -> log_ready (home w)) ->
    exists (w' : World) (a' : Node_t),
      ResetSegForces (Some l) nodeBtag fx fy fz globalOp w = Ret (tt, w') /\
      heap w' !! l = Some a' /\
      myTag a' = myTag a /\
      (x a', y a', z a') = (x a, y a, z a) /\
      (vX a', vY a', vZ a') = (vX a, vY a, vZ a) /\
      numNbrs a' = numNbrs a /\ nbrTag a' = nbrTag a /\
      (burgX a', burgY a', burgZ a') = (burgX a, burgY a, burgZ a) /\
      (nx a', ny a', nz a') = (nx a, ny a, nz a) /\
      flags a' = Z.lor (flags a) NODE_RESET_FORCES /\
      (forall i j : nat,
         first_arm_to a nodeBtag i -> j <> i ->
         armfx a' !! j = armfx a !! j /\ armfy a' !! j = armfy a !! j /\
         armfz a' !! j = armfz a !! j) /\
      (no_arm_to a nodeBtag ->
       armfx a' = armfx a /\ armfy a' = armfy a /\ armfz a' = armfz a).
Proof.
  intros w l a tag fx fy fz g Ha Hwf Hlog.
  destruct (ResetSegForces_exact w l a tag fx fy fz g Ha Hwf Hlog)
    as (h1 & a1 & Hrun & _ & _ & Hfirst & Hnone).
  eexists _, _. split; [exact Hrun|]. cbn [heap].
  split; [apply lookup_insert_eq|].
  destruct (first_arm_or_none a tag Hwf) as [[i Hi] | Hno].
  - rewrite (Hfirst i Hi). cbn.
    do 8 (split; [reflexivity|]). split.
    + intros i' j Hi' Hj. rewrite (first_arm_unique _ _ _ _ Hi' Hi) in Hj.
      rewrite !list_lookup_insert_ne by congruence. auto.
    + intros Hno. destruct Hi as (? & Ht & _). now apply Hno in Ht.
  - rewrite (Hnone Hno). cbn.
    do 8 (split; [reflexivity|]). split; [|auto].
    intros i j (? & Ht & _). now apply Hno in Ht.
Qed.

Ltac node_fields :=
  cbv [resummed with_arm_force with_normal set_flags set_force
       set_arm_forces set_normals
       myTag x y z vX vY vZ fX fY fZ numNbrs nbrTag burgX burgY burgZ
       nx ny nz armfx armfy armfz flags fst snd].

Lemma resummed_with_arm_force_twice (a : Node_t) (i : nat) (fx fy fz : float)
  (mask : Z) :
  resummed (with_arm_force (resummed (with_arm_force a i fx fy fz) mask)
                           i fx fy fz) mask
  = resummed (with_arm_force a i fx fy fz) mask.
Proof.
  destruct a. node_fields.
  rewrite !list_insert_insert_eq, <- Z.lor_assoc, Z.lor_diag. reflexivity.
Qed.

Lemma resummed_twice (a : Node_t) (mask : Z) :
  resummed (resummed a mask) mask = resummed a mask.
Proof.
  destruct a. node_fields.
  rewrite <- Z.lor_assoc, Z.lor_diag. reflexivity.
Qed.

(** X15. A local ResetSegForces (globalOp 0) is idempotent: repeating the
    call with the same arguments leaves the state that the first call
    produced. *)
Theorem ResetSegForces_idempotent :
  forall (w : World) (l : loc) (a : Node_t) (nodeBtag : Tag_t)
         (fx fy fz : float),
    heap w !! l = Some a ->
    Node_wf a ->
    exists w' : World,
      ResetSegForces (Some l) nodeBtag fx fy fz 0 w = Ret (tt, w') /\
      ResetSegForces (Some l) nodeBtag fx fy fz 0 w' = Ret (tt, w').
Proof.
  intros w l a tag fx fy fz Ha Hwf.
  assert (Hlog : forall h, 0 <> 0 -> log_ready h)
    by (intros h H; contradiction).
  destruct (ResetSegForces_exact w l a tag fx fy fz 0 Ha Hwf (Hlog _))
    as (h1 & a1 & Hrun & Hh0 & _ & Hfirst & Hnone).
  rewrite (Hh0 eq_refl) in Hrun.
  eexists. split; [exact Hrun|].
  set (w' := mkWorld (home w) (<[l := resummed a1 NODE_RESET_FORCES]> (heap w))
               (console w)).
  assert (Ha' : heap w' !! l = Some (resummed a1 NODE_RESET_FORCES))
    by apply lookup_insert_eq.
  assert (Hcases : (exists i, first_arm_to a tag i /\
                              a1 = with_arm_force a i fx fy fz) \/
                   (no_arm_to a tag /\ a1 = a)).
  { destruct (first_arm_or_none a tag Hwf) as [[i Hi] | Hno];
      [left; exists i | right]; auto. }
  assert (Hwf' : Node_wf (resummed a1 NODE_RESET_FORCES)).
  { apply resummed_wf.
    destruct Hcases as [(i & _ & ->) | (_ & ->)];
      [now apply with_arm_force_wf | exact Hwf]. }
  destruct (ResetSegForces_exact w' l (resummed a1 NODE_RESET_FORCES) tag
              fx fy fz 0 Ha' Hwf' (Hlog _))
    as (h2 & a2 & Hrun2 & Hh2 & _ & Hfirst2 & Hnone2).
  assert (Heq : resummed a2 NODE_RESET_FORCES = resummed a1 NODE_RESET_FORCES).
  { destruct Hcases as [(i & Hi & ->) | (Hno & ->)].
    - rewrite (Hfirst2 i); [apply resummed_with_arm_force_twice | exact Hi].
    - rewrite (Hnone2 Hno). apply resummed_twice. }
  rewrite Hrun2, (Hh2 eq_refl), Heq. unfold w'. cbn [home heap console].
  now rewrite insert_insert_eq.
Qed.

(** X16. ResetSegForces on a node without arms leaves the total force at
    exactly (+0, +0, +0), whatever it was, and raises the flag.  This is so
    after every call that returns, with globalOp set or not; and the call
    returns whenever the append that globalOp asks for can be made. *)
Theorem ResetSegForces_no_arms :
  forall (w : World) (l : loc) (a : Node_t) (nodeBtag : Tag_t)
         (fx fy fz : float) (globalOp : Z),
    heap w !! l = Some a ->
    numNbrs a <= 0 ->
    (forall w' : World,
       ResetSegForces (Some l) nodeBtag fx fy fz globalOp w = Ret (tt, w') ->
       exists a' : Node_t,
         heap w' !! l = Some a' /\
         (fX a', fY a', fZ a') = (0%float, 0%float, 0%float) /\
         flags a' = Z.lor (flags a) NODE_RESET_FORCES /\
         flag_set (flags a') NODE_RESET_FORCES) /\
    ((globalOp <> 0 -> log_ready (home w)) ->
     exists w' : World,
       ResetSegForces (Some l) nodeBtag fx fy fz globalOp w = Ret (tt, w')).
Proof.
  intros w l a tag fx fy fz g Ha Hn.
  assert (Hwf : Node_wf a).
  { unfold Node_wf. replace (Z.to_nat (numNbrs a)) with 0%nat by lia.
    cbn. repeat split; lia. }
  split.
  - intros w' Hret.
    destruct (ResetSegForces_returns w w' l a tag fx fy fz g Ha Hwf Hret)
      as (a1 & Hw' & _ & _ & _ & Hnone).
    assert (Hno : no_arm_to a tag).
    { intros i t Hi. lia. }
    rewrite (Hnone Hno) in Hw'.
    exists (resummed a NODE_RESET_FORCES).
    split; [rewrite Hw'; apply lookup_insert_eq|].
    split; [|split; [reflexivity | apply (flag_set_lor (flags a))]].
    change (fX (resummed a NODE_RESET_FORCES))
      with (arm_sum (armfx a) (numNbrs a)).
    change (fY (resummed a NODE_RESET_FORCES))
      with (arm_sum (armfy a) (numNbrs a)).
    change (fZ (resummed a NODE_RESET_FORCES))
      with (arm_sum (armfz a) (numNbrs a)).
    unfold arm_sum.
    replace (Z.to_nat (numNbrs a)) with 0%nat by lia. reflexivity.
  - intros Hlog.
    destruct (ResetSegForces_exact w l a tag fx fy fz g Ha Hwf Hlog)
      as (h1 & a1 & Hrun & _).
    eexists. exact Hrun.
Qed.

(** *** MarkNodeForceObsolete *)

Lemma MarkNodeForceObsolete_local_run (w : World) (l : loc) (nd : Node_t) :
  heap w !! l = Some nd ->
  domainID (myTag nd) = myDomain (home w) ->
  MarkNodeForceObsolete MARK_FORCES_OBSOLETE (Some l) w =
  Ret (tt, mkWorld (home w)
             (<[l := set_flags nd (Z.lor (flags nd) NODE_RESET_FORCES)]> (heap w))
             (console w)).
Proof.
  intros Hnd Hloc. unfold MarkNodeForceObsolete.
  rewrite (bind_Ret _ _ _ _ _ (deref_heap _ _ _ Hnd)).
  unfold bind, store, get_home. rewrite Hnd. cbn [home heap console].
  now rewrite Hloc, Z.eqb_refl.
Qed.

(** X17. MarkNodeForceObsolete on a node of the local domain raises the flag
    NODE_RESET_FORCES of the node and does nothing else: the other fields of
    the node, the other nodes, the home with its operation list and the
    console are as they were; on a node whose flag is already raised the
    state is unchanged. *)
Theorem MarkNodeForceObsolete_local :
  forall (w : World) (l : loc) (nd : Node_t),
    heap w !! l = Some nd ->
    domainID (myTag nd) = myDomain (home w) ->
    MarkNodeForceObsolete MARK_FORCES_OBSOLETE (Some l) w =
      Ret (tt, mkWorld (home w)
                 (<[l := set_flags nd (Z.lor (flags nd) NODE_RESET_FORCES)]>
                    (heap w))
                 (console w)) /\
    flag_set (Z.lor (flags nd) NODE_RESET_FORCES) NODE_RESET_FORCES /\
    (flag_set (flags nd) NODE_RESET_FORCES ->
     MarkNodeForceObsolete MARK_FORCES_OBSOLETE (Some l) w = Ret (tt, w)).
Proof.
  intros w l nd Hnd Hloc.
  pose proof (MarkNodeForceObsolete_local_run w l nd Hnd Hloc) as Hrun.
  split; [exact Hrun|]. split; [apply flag_set_lor|].
  intros Hset. rewrite Hrun.
  assert (Hfl : Z.lor (flags nd) NODE_RESET_FORCES = flags nd).
  { apply Z.bits_inj'. intros k _. rewrite Z.lor_spec.
    assert (Hk : Z.testbit (Z.land (flags nd) NODE_RESET_FORCES) k
                 = Z.testbit NODE_RESET_FORCES k) by now rewrite Hset.
    rewrite Z.land_spec in Hk.
    now destruct (Z.testbit (flags nd) k), (Z.testbit NODE_RESET_FORCES k). }
  rewrite Hfl.
  assert (Hnd' : set_flags nd (flags nd) = nd) by now destruct nd.
  rewrite Hnd', insert_id by exact Hnd. now destruct w.
Qed.

(** X18. MarkNodeForceObsolete on the local copy of a node of another domain
    raises the flag of the copy and appends exactly one entry for the owning
    domain: type MARK_FORCES_OBSOLETE, the tag of the node, the two unused
    tags (-1,-1) and zero vectors.  This is for an operation list on which
    the append can be made: well-formed, OpBlock_Count positive and, when
    the list is full, a byte count of the grown buffer that fits in an
    [int]. *)
Theorem MarkNodeForceObsolete_remote :
  forall (w : World) (l : loc) (nd : Node_t),
    heap w !! l = Some nd ->
    domainID (myTag nd) <> myDomain (home w) ->
    log_ready (home w) ->
    exists h' : Home_t,
      MarkNodeForceObsolete MARK_FORCES_OBSOLETE (Some l) w =
        Ret (tt, mkWorld h'
                   (<[l := set_flags nd (Z.lor (flags nd) NODE_RESET_FORCES)]>
                      (heap w))
                   (console w)) /\
      same_tables (home w) h' /\
      OpCount h' = OpCount (home w) + 1 /\
      opList h' !! Z.to_nat (OpCount (home w)) =
        Some (Some (mkOp MARK_FORCES_OBSOLETE
                         (domainID (myTag nd)) (index (myTag nd))
                         (-1) (-1) (-1) (-1)
                         0%float 0%float 0%float 0%float 0%float 0%float
                         0%float 0%float 0%float)) /\
      (forall i : nat, (i < Z.to_nat (OpCount (home w)))%nat ->
                       opList h' !! i = opList (home w) !! i).
Proof.
  intros w l nd Hnd Hrem Hready.
  set (w1 := mkWorld (home w)
               (<[l := set_flags nd (Z.lor (flags nd) NODE_RESET_FORCES)]>
                  (heap w))
               (console w)).
  destruct (AddOp_spec w1 MARK_FORCES_OBSOLETE (domainID (myTag nd))
              (index (myTag nd)) (-1) (-1) (-1) (-1)
              0%float 0%float 0%float 0%float 0%float 0%float
              0%float 0%float 0%float Hready)
    as (h' & Hrun & _ & Hcnt & Hslot & Hkeep).
  pose proof Hrun as Hexact.
  rewrite AddOp_exact in Hexact by exact Hready. injection Hexact as Hh.
  exists h'. split.
  { unfold MarkNodeForceObsolete.
    rewrite (bind_Ret _ _ _ _ _ (deref_heap _ _ _ Hnd)).
    unfold bind at 1, store. rewrite Hnd.
    unfold bind at 1, get_home. cbn [home heap console].
    destruct (Z.eqb_spec (domainID (myTag nd)) (myDomain (home w)));
      [contradiction|].
    exact Hrun. }
  split; [rewrite <- Hh; repeat split|]. auto.
Qed.

Lemma set_flags_resummed (a : Node_t) (mask : Z) :
  set_flags (resummed a mask) (Z.lor (flags (resummed a mask)) mask)
  = resummed a mask.
Proof.
  destruct a. node_fields. rewrite <- Z.lor_assoc, Z.lor_diag. reflexivity.
Qed.

(** X19. After a local ResetSegForces on a node of the local domain,
    MarkNodeForceObsolete on the same node changes nothing: the flag is
    already raised and nothing is logged. *)
Theorem MarkNodeForceObsolete_after_ResetSegForces :
  forall (w : World) (l : loc) (a : Node_t) (nodeBtag : Tag_t)
         (fx fy fz : float),
    heap w !! l = Some a ->
    Node_wf a ->
    domainID (myTag a) = myDomain (home w) ->
    (run ResetSegForces (Some l) nodeBtag fx fy fz 0 in
     MarkNodeForceObsolete MARK_FORCES_OBSOLETE (Some l)) w =
    ResetSegForces (Some l) nodeBtag fx fy fz 0 w.
Proof.
  intros w l a tag fx fy fz Ha Hwf Hloc.
  destruct (ResetSegForces_exact w l a tag fx fy fz 0 Ha Hwf)
    as (h1 & a1 & Hrun & Hh0 & _ & Hfirst & Hnone);
    [intros H; contradiction|].
  rewrite (Hh0 eq_refl) in Hrun.
  rewrite (bind_Ret _ _ _ _ _ Hrun), Hrun.
  assert (Htag : myTag a1 = myTag a).
  { destruct (first_arm_or_none a tag Hwf) as [[i Hi] | Hno].
    - now rewrite (Hfirst i Hi).
    - now rewrite (Hnone Hno). }
  rewrite (MarkNodeForceObsolete_local_run _ l (resummed a1 NODE_RESET_FORCES)).
  - cbn [home heap console].
    now rewrite set_flags_resummed, insert_insert_eq.
  - apply lookup_insert_eq.
  - cbn [home]. change (myTag (resummed a1 NODE_RESET_FORCES)) with (myTag a1).
    now rewrite Htag.
Qed.

(** *** RecalcSegGlidePlane *)

Lemma write_both_exact (w : World) (l1 l2 : loc) (n1 n2 : Node_t)
  (s1 s2 : nat) (pl : vec3) :
  l1 <> l2 ->
  heap w !! l1 = Some n1 -> heap w !! l2 = Some n2 ->
  Node_wf n1 -> Node_wf n2 ->
  (s1 < Z.to_nat (numNbrs n1))%nat -> (s2 < Z.to_nat (numNbrs n2))%nat ->
  write_both (Some l1) (Some l2) (Z.of_nat s1) (Z.of_nat s2) pl w =
  Ret (tt, mkWorld (home w)
             (<[l2 := with_normal n2 s2 (Normalize pl)]>
                (<[l1 := with_normal n1 s1 (Normalize pl)]> (heap w)))
             (console w)).
Proof.
  intros Hne H1 H2 Hwf1 Hwf2 Hs1 Hs2. unfold write_both.
  cbv zeta.
  assert (Hr1 : 0 <= Z.of_nat s1 < numNbrs n1) by lia.
  assert (Hr2 : 0 <= Z.of_nat s2 < numNbrs n2) by lia.
  rewrite (bind_Ret _ _ _ _ _
             (write_normal_in_range w l1 n1 _ (Normalize pl) H1 Hwf1 Hr1)).
  erewrite write_normal_in_range; [| | exact Hwf2 | exact Hr2].
  - cbn [home heap console]. now rewrite !Nat2Z.id.
  - cbn [heap]. now rewrite lookup_insert_ne.
Qed.

(** X20. The write of RecalcSegGlidePlane.  For two distinct nodes joined by
    reciprocal arms, unless the segment is screw and ignoreIfScrew is set,
    the call stores one and the same vector, the normalised derived plane
    or, for a screw segment, the normalised plane of PickScrewGlidePlane, in
    the slot of node1 for its arm to node2 and in the slot of node2 for its
    arm to node1; every other field of the two nodes, every other node, the
    home and the console are as they were. *)
Theorem RecalcSegGlidePlane_symmetric_write :
  forall (w : World) (l1 l2 : loc) (n1 n2 : Node_t) (s1 s2 : nat)
         (bX bY bZ : float) (ignoreIfScrew : Z),
    l1 <> l2 ->
    heap w !! l1 = Some n1 -> heap w !! l2 = Some n2 ->
    Node_wf n1 -> Node_wf n2 ->
    first_arm_to n1 (myTag n2) s1 ->
    first_arm_to n2 (myTag n1) s2 ->
    burgX n1 !! s1 = Some bX -> burgY n1 !! s1 = Some bY ->
    burgZ n1 !! s1 = Some bZ ->
    (let newPlane := derived_plane (home w) n1 n2 (bX, bY, bZ) in
     (DotProduct newPlane newPlane <? screw_threshold)%float = false \/
     ignoreIfScrew = 0) ->
    RecalcSegGlidePlane (Some l1) (Some l2) ignoreIfScrew w =
    Ret (tt,
         mkWorld (home w)
           (<[l2 := with_normal n2 s2
                      (Normalize (chosen_plane (home w) n1 n2 (bX, bY, bZ)))]>
              (<[l1 := with_normal n1 s1
                         (Normalize (chosen_plane (home w) n1 n2 (bX, bY, bZ)))]>
                 (heap w)))
           (console w)).
Proof.
  intros w l1 l2 n1 n2 s1 s2 bX bY bZ ig Hne H1 H2 Hwf1 Hwf2 Hs1 Hs2
    HbX HbY HbZ Hpath.
  rewrite (RecalcSegGlidePlane_connected w l1 l2 n1 n2 s1 bX bY bZ
             (Z.of_nat s2) ig Hne H1 H2 Hs1 HbX HbY HbZ
             (GetArmID_arm w l2 l1 n2 n1 s2 H2 H1 Hs2)).
  pose proof Hs1 as (Hlt1 & _). pose proof Hs2 as (Hlt2 & _).
  unfold chosen_plane. cbv zeta in Hpath |- *.
  destruct (_ <? _)%float.
  - destruct Hpath as [Hf | ->]; [discriminate|].
    change (negb (0 =? 0)) with false. cbv iota.
    now apply write_both_exact.
  - now apply write_both_exact.
Qed.

(** *** What RecalcSegGlidePlane never does *)

Lemma local_only_ret {A} (a : A) : local_only (ret a).
Proof. intros w. cbn. auto. Qed.

Lemma local_only_bind {A B} (m : M A) (k : A -> M B) :
  local_only m -> (forall a, local_only (k a)) -> local_only (bind m k).
Proof.
  intros Hm Hk w. unfold bind. specialize (Hm w).
  destruct (m w) as [[a w1]| |]; [|contradiction|exact I].
  specialize (Hk a w1). destruct (k a w1) as [[b w2]| |]; auto.
  destruct Hm, Hk. split; congruence.
Qed.

Lemma local_only_lift {A} (o : outcome A) : not_fatal o -> local_only (lift o).
Proof. intros Ho w. unfold lift. destruct o; cbn in *; auto. Qed.

Lemma local_only_deref (p : ptr) : local_only (deref p).
Proof.
  intros w. unfold deref.
  destruct p as [l|]; [destruct (heap w !! l)|]; cbn; auto.
Qed.

Lemma local_only_store (p : ptr) (n : Node_t) : local_only (store p n).
Proof.
  intros w. unfold store.
  destruct p as [l|]; [destruct (heap w !! l)|]; cbn; auto.
Qed.

Lemma local_only_get_home : local_only get_home.
Proof. intros w. cbn. auto. Qed.

Lemma scan_nbrTag_not_fatal (tags : list Tag_t) (dom idx : Z) (n : nat) :
  forall i, not_fatal (scan_nbrTag tags dom idx i n).
Proof.
  induction n as [|n IH]; intros i; cbn; [exact I|].
  destruct (tags !! i); [|exact I].
  destruct (_ && _); [exact I | apply IH].
Qed.

Lemma aget_not_fatal {A} (a : list A) (i : Z) : not_fatal (aget a i).
Proof. unfold aget. repeat case_match; exact I. Qed.

Lemma aset_not_fatal {A} (a : list A) (i : Z) (v : A) : not_fatal (aset a i v).
Proof. unfold aset. case_match; exact I. Qed.

Lemma local_only_Connected (node1 node2 : ptr) : local_only (Connected node1 node2).
Proof.
  unfold Connected. destruct node1, node2; try apply local_only_ret.
  repeat (apply local_only_bind; [|intros ?]);
    try apply local_only_deref.
  - apply local_only_lift, scan_nbrTag_not_fatal.
  - case_match; apply local_only_ret.
Qed.

Lemma local_only_GetArmID (node1 node2 : ptr) : local_only (GetArmID node1 node2).
Proof.
  unfold GetArmID. destruct node1, node2; try apply local_only_ret.
  repeat (apply local_only_bind; [|intros ?]);
    try apply local_only_deref.
  - apply local_only_lift, scan_nbrTag_not_fatal.
  - case_match; apply local_only_ret.
Qed.

Lemma local_only_write_normal (node : ptr) (seg : Z) (pl : vec3) :
  local_only (write_normal node seg pl).
Proof.
  unfold write_normal.
  repeat (apply local_only_bind; [|intros ?]);
    first [apply local_only_deref | apply local_only_store
          | apply local_only_lift, aset_not_fatal].
Qed.

Lemma local_only_write_both (node1 node2 : ptr) (seg1 seg2 : Z) (pl : vec3) :
  local_only (write_both node1 node2 seg1 seg2 pl).
Proof.
  unfold write_both. cbv zeta.
  apply local_only_bind; [|intros ?]; apply local_only_write_normal.
Qed.

(** X21. RecalcSegGlidePlane only updates nodes: for all pointers, NULL,
    equal or dangling included, every state and every ignoreIfScrew, it
    never ends in Fatal, and when it returns the home, with its operation
    list, and the console are as they were: nothing is logged for other
    domains and nothing is printed. *)
Theorem RecalcSegGlidePlane_local_only :
  forall (w : World) (node1 node2 : ptr) (ignoreIfScrew : Z),
    match RecalcSegGlidePlane node1 node2 ignoreIfScrew w with
    | Ret (_, w') => home w' = home w /\ console w' = console w
    | FatalExit _ _ => False
    | Undefined => True
    end.
Proof.
  intros w node1 node2 ig. revert w.
  change (local_only (RecalcSegGlidePlane node1 node2 ig)).
  unfold RecalcSegGlidePlane.
  destruct node1 as [l1|], node2 as [l2|]; try apply local_only_ret.
  destruct (ptr_eqb _ _); [apply local_only_ret|].
  apply local_only_bind; [apply local_only_Connected | intros c].
  destruct (fst c =? 0); [apply local_only_ret|].
  apply local_only_bind; [apply local_only_GetArmID | intros seg2].
  apply local_only_bind; [apply local_only_get_home | intros hm].
  apply local_only_bind; [apply local_only_deref | intros n1].
  apply local_only_bind; [apply local_only_deref | intros n2].
  do 3 (apply local_only_bind; [apply local_only_lift, aget_not_fatal
                               | intros ?]).
  cbv zeta. destruct (_ <? _)%float; [destruct (negb _)|];
    first [apply local_only_ret | apply local_only_write_both].
Qed.

Lemma with_normal_twice (n : Node_t) (i : nat) (pl : vec3) :
  with_normal (with_normal n i pl) i pl = with_normal n i pl.
Proof.
  destruct n. node_fields. now rewrite !list_insert_insert_eq.
Qed.

Lemma with_normal_wf (n : Node_t) (i : nat) (pl : vec3) :
  Node_wf n -> Node_wf (with_normal n i pl).
Proof.
  unfold Node_wf. node_fields. now rewrite !length_insert.
Qed.

(** X22. RecalcSegGlidePlane is idempotent on two distinct nodes joined by
    reciprocal arms: a second call with the same arguments leaves the state
    that the first call produced, on the path that writes and on the path
    that returns early for a screw segment. *)
Theorem RecalcSegGlidePlane_idempotent :
  forall (w : World) (l1 l2 : loc) (n1 n2 : Node_t) (s1 s2 : nat)
         (ignoreIfScrew : Z),
    l1 <> l2 ->
    heap w !! l1 = Some n1 -> heap w !! l2 = Some n2 ->
    Node_wf n1 -> Node_wf n2 ->
    first_arm_to n1 (myTag n2) s1 ->
    first_arm_to n2 (myTag n1) s2 ->
    exists w' : World,
      RecalcSegGlidePlane (Some l1) (Some l2) ignoreIfScrew w = Ret (tt, w') /\
      RecalcSegGlidePlane (Some l1) (Some l2) ignoreIfScrew w' = Ret (tt, w').
Proof.
  intros w l1 l2 n1 n2 s1 s2 ig Hne H1 H2 Hwf1 Hwf2 Hs1 Hs2.
  destruct (burg_of_arm _ _ _ Hwf1 Hs1) as (bX & bY & bZ & HbX & HbY & HbZ).
  pose proof (RecalcSegGlidePlane_connected w l1 l2 n1 n2 s1 bX bY bZ
                (Z.of_nat s2) ig Hne H1 H2 Hs1 HbX HbY HbZ
                (GetArmID_arm w l2 l1 n2 n1 s2 H2 H1 Hs2)) as Hrun.
  pose proof Hs1 as (Hlt1 & _). pose proof Hs2 as (Hlt2 & _).
  cbv zeta in Hrun.
  set (np := derived_plane (home w) n1 n2 (bX, bY, bZ)) in *.
  assert (Hwrite : forall pl : vec3,
    (forall w0 n1' n2', 
       home w0 = home w -> heap w0 !! l1 = Some n1' -> heap w0 !! l2 = Some n2' ->
       Node_wf n1' -> Node_wf n2' ->
       first_arm_to n1' (myTag n2') s1 -> first_arm_to n2' (myTag n1') s2 ->
       burgX n1' !! s1 = Some bX -> burgY n1' !! s1 = Some bY ->
       burgZ n1' !! s1 = Some bZ ->
       derived_plane (home w0) n1' n2' (bX, bY, bZ) = np ->
       RecalcSegGlidePlane (Some l1) (Some l2) ig w0 =
       write_both (Some l1) (Some l2) (Z.of_nat s1) (Z.of_nat s2) pl w0) ->
    exists w' : World,
      write_both (Some l1) (Some l2) (Z.of_nat s1) (Z.of_nat s2) pl w
        = Ret (tt, w') /\
      RecalcSegGlidePlane (Some l1) (Some l2) ig w' = Ret (tt, w')).
  { intros pl Hagain.
    rewrite (write_both_exact w l1 l2 n1 n2 s1 s2 pl) by assumption.
    eexists. split; [reflexivity|].
    set (n1' := with_normal n1 s1 (Normalize pl)).
    set (n2' := with_normal n2 s2 (Normalize pl)).
    set (w' := mkWorld (home w) (<[l2 := n2']> (<[l1 := n1']> (heap w)))
                 (console w)).
    assert (H1' : heap w' !! l1 = Some n1').
    { unfold w'. cbn [heap]. rewrite lookup_insert_ne by congruence.
      apply lookup_insert_eq. }
    assert (H2' : heap w' !! l2 = Some n2') by apply lookup_insert_eq.
    rewrite (Hagain w' n1' n2' eq_refl H1' H2'
               (with_normal_wf _ _ _ Hwf1) (with_normal_wf _ _ _ Hwf2)
               Hs1 Hs2 HbX HbY HbZ eq_refl).
    rewrite (write_both_exact w' l1 l2 n1' n2' s1 s2 pl Hne H1' H2'
               (with_normal_wf _ _ _ Hwf1) (with_normal_wf _ _ _ Hwf2)
               Hlt1 Hlt2).
    unfold n1', n2'. rewrite !with_normal_twice. unfold w'.
    cbn [home heap console].
    rewrite (insert_insert_ne _ l1 l2) by exact Hne.
    now rewrite !insert_insert_eq. }
  destruct (DotProduct np np <? screw_threshold)%float eqn:Hscrew.
  - destruct (negb (ig =? 0)) eqn:Hig.
    + exists w. split; exact Hrun.
    + rewrite Hrun. apply Hwrite.
      intros w0 n1' n2' Hh H1' H2' Hwf1' Hwf2' Hs1' Hs2' HbX' HbY' HbZ' Hnp.
      rewrite (RecalcSegGlidePlane_connected w0 l1 l2 n1' n2' s1 bX bY bZ
                 (Z.of_nat s2) ig Hne H1' H2' Hs1' HbX' HbY' HbZ'
                 (GetArmID_arm w0 l2 l1 n2' n1' s2 H2' H1' Hs2')).
      cbv zeta. now rewrite Hnp, Hscrew, Hig, Hh.
  - rewrite Hrun. apply Hwrite.
    intros w0 n1' n2' Hh H1' H2' Hwf1' Hwf2' Hs1' Hs2' HbX' HbY' HbZ' Hnp.
    rewrite (RecalcSegGlidePlane_connected w0 l1 l2 n1' n2' s1 bX bY bZ
               (Z.of_nat s2) ig Hne H1' H2' Hs1' HbX' HbY' HbZ'
               (GetArmID_arm w0 l2 l1 n2' n1' s2 H2' H1' Hs2')).
    cbv zeta. now rewrite Hnp, Hscrew.
Qed.

(** *** FoldBox, PBCPOSITION, ZImage *)

(** X23. The three folding routines adjust a coordinate only along a
    periodic boundary: the x component comes back bit for bit when
    xBoundType is not Periodic, whatever the other two boundaries are, and
    likewise y and z; so without periodic boundaries all three are the
    identity.  FoldBox is PBCPOSITION about the centre of the box. *)
Theorem folding_leaves_free_coordinates :
  (forall (prm : Param_t) (sides : BoxSides) (x0 y0 z0 : float) (v : vec3),
     (xBoundType prm <> Periodic ->
      fst (fst (ZImage prm v)) = fst (fst v) /\
      fst (fst (PBCPOSITION prm x0 y0 z0 v)) = fst (fst v) /\
      fst (fst (FoldBox prm sides v)) = fst (fst v)) /\
     (yBoundType prm <> Periodic ->
      snd (fst (ZImage prm v)) = snd (fst v) /\
      snd (fst (PBCPOSITION prm x0 y0 z0 v)) = snd (fst v) /\
      snd (fst (FoldBox prm sides v)) = snd (fst v)) /\
     (zBoundType prm <> Periodic ->
      snd (ZImage prm v) = snd v /\
      snd (PBCPOSITION prm x0 y0 z0 v) = snd v /\
      snd (FoldBox prm sides v) = snd v) /\
     (xBoundType prm <> Periodic -> yBoundType prm <> Periodic ->
      zBoundType prm <> Periodic ->
      ZImage prm v = v /\ PBCPOSITION prm x0 y0 z0 v = v /\
      FoldBox prm sides v = v)) /\
  (forall (prm : Param_t) (sides : BoxSides) (v : vec3),
     FoldBox prm sides v =
     PBCPOSITION prm ((maxSideX sides + minSideX sides) * 0.5)%float
                     ((maxSideY sides + minSideY sides) * 0.5)%float
                     ((maxSideZ sides + minSideZ sides) * 0.5)%float v).
Proof.
  split.
  - intros prm sides x0 y0 z0 [[vx vy] vz].
    unfold ZImage, PBCPOSITION, FoldBox. cbv zeta. cbn [fst snd].
    repeat split; intros;
      repeat match goal with
             | H : ?a <> ?b |- context [?a =? ?b] =>
                 rewrite (proj2 (Z.eqb_neq a b) H)
             end;
      reflexivity.
  - intros prm sides [[vx vy] vz]. reflexivity.
Qed.

End MoreProperties.

(** ** The theorems at concrete inputs *)

Section Instances.
#[local] Existing Instance Demo.ext.

Lemma DomainOwnsSeg_exactly_one_owner_witness :
  exists r12 r21 : Z,
    DomainOwnsSeg 3 2 (mkTag 5 0) (Demo.world_at 4) = Ret (r12, Demo.world_at 4) /\
    DomainOwnsSeg 3 5 (mkTag 2 0) (Demo.world_at 4) = Ret (r21, Demo.world_at 4) /\
    negates r12 r21.
Proof.
  apply DomainOwnsSeg_exactly_one_owner.
  - unfold valid_opClass. right. right. reflexivity.
  - lia.
Defined.

Lemma DomainOwnsSeg_parity_rule_witness :
  DomainOwnsSeg OPCLASS_COLLISION 2 (mkTag 5 7) (Demo.world_at 4)
    = Ret (1, Demo.world_at 4) /\
  DomainOwnsSeg OPCLASS_COLLISION 5 (mkTag 2 7) (Demo.world_at 5)
    = Ret (1, Demo.world_at 5).
Proof.
  assert (Hd : opclass_labels_distinct) by (repeat split; discriminate).
  destruct (DomainOwnsSeg_parity_rule Hd) as (_ & H4 & H5).
  split.
  - apply (H4 (Demo.world_at 4) 7). reflexivity.
  - apply (H5 (Demo.world_at 5) 7). reflexivity.
Defined.

Lemma DomainOwnsSeg_remesh_negates_collision_witness :
  (exists rr rc : Z,
     DomainOwnsSeg OPCLASS_REMESH 2 (mkTag 5 0) (Demo.world_at 4)
       = Ret (rr, Demo.world_at 4) /\
     DomainOwnsSeg OPCLASS_COLLISION 2 (mkTag 5 0) (Demo.world_at 4)
       = Ret (rc, Demo.world_at 4) /\
     negates rr rc) /\
  DomainOwnsSeg OPCLASS_REMESH 3 (mkTag 3 0) (Demo.world_at 4)
    = Ret (1, Demo.world_at 4) /\
  DomainOwnsSeg OPCLASS_COLLISION 3 (mkTag 3 0) (Demo.world_at 4)
    = Ret (1, Demo.world_at 4).
Proof.
  assert (Hd : opclass_labels_distinct) by (repeat split; discriminate).
  destruct (DomainOwnsSeg_remesh_negates_collision Hd) as [Hne Heq].
  split.
  - apply Hne. cbn. lia.
  - apply Heq. reflexivity.
Defined.

(** C3 as stated fails where the two domains are one: both classes answer 1. *)
Lemma DomainOwnsSeg_remesh_negates_collision_counterexample :
  DomainOwnsSeg OPCLASS_REMESH 3 (mkTag 3 0) (Demo.world_at 4)
    = Ret (1, Demo.world_at 4) /\
  DomainOwnsSeg OPCLASS_COLLISION 3 (mkTag 3 0) (Demo.world_at 4)
    = Ret (1, Demo.world_at 4) /\
  ~ negates 1 1.
Proof.
  split; [reflexivity|]. split; [reflexivity|].
  unfold negates. lia.
Qed.

Lemma DomainOwnsSeg_invalid_opClass_fatal_witness :
  DomainOwnsSeg 99 2 (mkTag 5 0) (Demo.world_at 4) =
    FatalExit "Invalid opClass %d in DomainOwnsSeg()" [99] /\
  DomainOwnsSeg 99 4 (mkTag 4 0) (Demo.world_at 4) = Ret (1, Demo.world_at 4).
Proof.
  destruct DomainOwnsSeg_invalid_opClass_fatal as [Hne Heq].
  split.
  - apply Hne.
    + unfold valid_opClass. cbn. lia.
    + cbn. lia.
  - apply Heq. reflexivity.
Defined.

(** C4 as stated fails where the two domains are one: the call returns 1
    whatever the class. *)
Lemma DomainOwnsSeg_invalid_opClass_fatal_counterexample :
  ~ valid_opClass 99 /\
  DomainOwnsSeg 99 4 (mkTag 4 0) (Demo.world_at 4) = Ret (1, Demo.world_at 4).
Proof.
  split; [|reflexivity].
  unfold valid_opClass. cbn. lia.
Qed.

Lemma Demo_nodeA_wf : Node_wf Demo.nodeA.
Proof. unfold Node_wf. cbn. lia. Qed.

Lemma Demo_nodeB_wf : Node_wf Demo.nodeB.
Proof. unfold Node_wf. cbn. lia. Qed.

Lemma Demo_nodeC_wf : Node_wf Demo.nodeC.
Proof. unfold Node_wf. cbn. lia. Qed.

Lemma Demo_nodeD_wf : Node_wf Demo.nodeD.
Proof. unfold Node_wf. cbn. lia. Qed.

Lemma Demo_home0_wf : Home_wf Demo.home0.
Proof.
  split; [cbn; lia|].
  intros [|[|d]] rd H; cbn in H; try discriminate.
  injection H as <-. cbn. lia.
Qed.

Lemma Demo_log0_wf : Log_wf Demo.home0.
Proof. unfold Log_wf. cbn. lia. Qed.

Lemma Demo_log0_ready : log_ready Demo.home0.
Proof.
  split; [cbn; lia|]. split; [exact Demo_log0_wf|].
  intros _. cbn. unfold INT_MAX. lia.
Qed.

Lemma Demo_logFull_wf : Log_wf Demo.homeFull.
Proof.
  unfold Log_wf, Demo.homeFull. cbn [OpCount OpListLen opList].
  rewrite length_replicate. lia.
Qed.

Lemma Demo_armA_to_B : first_arm_to Demo.nodeA (myTag Demo.nodeB) 0.
Proof.
  unfold first_arm_to. cbn. split; [lia|]. split; [reflexivity|]. intros; lia.
Qed.

Lemma Demo_armC_to_B : first_arm_to Demo.nodeC (myTag Demo.nodeB) 1.
Proof.
  unfold first_arm_to. cbn. split; [lia|]. split; [reflexivity|].
  intros [|j] t Hj Ht; [|lia]. cbn in Ht. injection Ht as <-. discriminate.
Qed.

Lemma Demo_no_arm_C_to_A : no_arm_to Demo.nodeC (myTag Demo.nodeA).
Proof.
  intros [|[|j]] t Hj Ht; cbn in Hj, Ht; try lia;
    injection Ht as <-; discriminate.
Qed.

Lemma Demo_no_arm_B_to_C : no_arm_to Demo.nodeB (myTag Demo.nodeC).
Proof.
  intros [|[|j]] t Hj Ht; cbn in Hj, Ht; try lia;
    injection Ht as <-; discriminate.
Qed.

(** The program run on the demonstration world. *)

Example GetNodeFromTag_local :
  GetNodeFromTag (mkTag 0 3) Demo.world0 = Ret (Some 0%nat, Demo.world0).
Proof. reflexivity. Qed.

Example GetNodeFromTag_empty_slot :
  GetNodeFromTag (mkTag 0 0) Demo.world0 = Ret (NULL, Demo.world0).
Proof. reflexivity. Qed.

Example GetNodeFromTag_no_cache :
  GetNodeFromTag (mkTag 0 3) (mkWorld (mkHome 1 4 0 [] [None; None] Demo.prm [] 0 0) ∅ [])
  = Ret (NULL, mkWorld (mkHome 1 4 0 [] [None; None] Demo.prm [] 0 0) ∅ []).
Proof. reflexivity. Qed.

(** Domain 5 has no entry in the table of remote domains, which has two: the
    read of [remoteDomainKeys[5]] is outside the array. *)
Example GetNodeFromTag_outside_table :
  GetNodeFromTag (mkTag 5 0) Demo.world0 = Undefined.
Proof. reflexivity. Qed.

Example GetNodeFromTag_invalid :
  GetNodeFromTag (mkTag 0 (-1)) Demo.world0 =
  FatalExit "GetNodeFromTag: invalid tag (%d,%d)" [0; -1].
Proof. reflexivity. Qed.

(** A segment from D to B that is not screw: both ends receive the unit
    normal of the derived plane, B in the slot of its arm to D. *)
Example RecalcSegGlidePlane_writes_both_ends :
  exists w' d' b',
    RecalcSegGlidePlane (Some 3%nat) (Some 1%nat) 1 Demo.world0 = Ret (tt, w') /\
    heap w' !! 3%nat = Some d' /\ heap w' !! 1%nat = Some b' /\
    (nx d', ny d', nz d') = ([0%float], [0%float], [(-1)%float]) /\
    (nx b', ny b', nz b') =
      ([0%float; 0%float], [0%float; 0%float], [1%float; (-1)%float]) /\
    heap w' !! 0%nat = Some Demo.nodeA.
Proof.
  eexists _, _, _. split; [vm_compute; reflexivity|].
  repeat split; reflexivity.
Qed.

(** The remote tag (1,7) resolves to the cached node, the state unchanged. *)
Lemma GetNodeFromTag_spec_witness :
  GetNodeFromTag (mkTag 1 7) Demo.world0 = Ret (Some 1%nat, Demo.world0).
Proof.
  destruct (proj2 (GetNodeFromTag_spec Demo.world0 (mkTag 1 7)))
    as (r & Hrun & _ & Hremote).
  - cbn. lia.
  - cbn. lia.
  - exact Demo_home0_wf.
  - right. cbn. lia.
  - destruct Hremote as (cache & Hc & Hr); [cbn; lia|].
    cbn in Hc. injection Hc as <-.
    destruct Hr as [Hr _]. specialize (Hr ltac:(cbn; lia)).
    cbn in Hr. injection Hr as <-. exact Hrun.
Defined.

(** The scenario of the specification, with the operation logged, through
    the general statement and through the statement of the scenario. *)
Lemma ResetSegForces_total_is_arm_sum_witness :
  (exists (w' : World) (a' : Node_t),
     ResetSegForces (Some 0%nat) (mkTag 1 7) 4%float 5%float 6%float 1 Demo.world0
       = Ret (tt, w') /\
     heap w' = <[0%nat := a']> (heap Demo.world0) /\
     a' = resummed (with_arm_force Demo.nodeA 0 4 5 6) NODE_RESET_FORCES /\
     numNbrs a' = 1 /\ nbrTag a' = [mkTag 1 7] /\
     fX a' = arm_sum (armfx a') (numNbrs a') /\
     fY a' = arm_sum (armfy a') (numNbrs a') /\
     fZ a' = arm_sum (armfz a') (numNbrs a') /\
     (forall i, first_arm_to a' (mkTag 1 7) i ->
                armfx a' !! i = Some 4%float /\ armfy a' !! i = Some 5%float /\
                armfz a' !! i = Some 6%float) /\
     flag_set (flags a') NODE_RESET_FORCES /\
     OpCount (home w') = 1 /\
     opList (home w') !! 0%nat =
       Some (Some (mkOp RESET_SEG_FORCES 0 3 1 7 (-1) (-1)
                        0%float 0%float 0%float 4%float 5%float 6%float
                        0%float 0%float 0%float))) /\
  (exists (w' : World) (a' : Node_t),
     ResetSegForces (Some 0%nat) (mkTag 1 7) 4%float 5%float 6%float 1 Demo.world0
       = Ret (tt, w') /\
     heap w' !! 0%nat = Some a' /\
     fX a' = 4%float /\ fY a' = 5%float /\ fZ a' = 6%float).
Proof.
  assert (Hlog : 1 <> 0 -> log_ready (home Demo.world0))
    by (intros _; exact Demo_log0_ready).
  destruct ResetSegForces_total_is_arm_sum as (Hpost & Hret & Hscen).
  split.
  - destruct (Hret Demo.world0 0%nat Demo.nodeA (mkTag 1 7)
                4%float 5%float 6%float 1 eq_refl Demo_nodeA_wf Hlog)
      as [w' Hrun].
    destruct (Hpost Demo.world0 w' 0%nat Demo.nodeA (mkTag 1 7)
                4%float 5%float 6%float 1 eq_refl Demo_nodeA_wf Hrun)
      as (a' & a1 & Hheap & _ & Ha' & Hfirst & _ & Hnum & Htags & HX & HY & HZ
          & Harm & Hflag & _ & Hop).
    destruct (Hop ltac:(lia)) as (_ & Hcnt & Hslot).
    exists w', a'. split; [exact Hrun|]. split; [exact Hheap|].
    split; [rewrite Ha'; f_equal; apply (Hfirst 0%nat); exact Demo_armA_to_B|].
    split; [exact Hnum|]. split; [exact Htags|].
    do 3 (split; [assumption|]). split; [exact Harm|].
    split; [exact Hflag|]. split; [exact Hcnt | exact Hslot].
  - apply (Hscen Demo.world0 0%nat Demo.nodeA 1);
      try reflexivity; [exact Demo_nodeA_wf | exact Hlog].
Defined.

(** A full list of 20 648 880 entries of 104 bytes, which grows by blocks of
    two: the next append asks [realloc] for a negative [int] of bytes. *)
Lemma AddOp_newSize_wraps_witness :
  Log_wf (home Demo.worldFull) /\
  AddOp 7 0 3 1 7 (-1) (-1) 0%float 0%float 0%float 1%float 2%float 3%float
        0%float 0%float 0%float Demo.worldFull = Undefined /\
  (ExtendOpList Demo.worldFull = Undefined \/
   exists h1 : Home_t,
     ExtendOpList Demo.worldFull
       = Ret (tt, mkWorld h1 (heap Demo.worldFull) (console Demo.worldFull)) /\
     opList h1 = []).
Proof.
  split; [exact Demo_logFull_wf|].
  apply AddOp_newSize_wraps.
  - change (20648880 <= 20648880). lia.
  - change (INT_MAX < (20648880 + 2) * 104 < 2 ^ 32). unfold INT_MAX. lia.
Defined.

(** A NULL end; C, which has no arm to A; and the screw segment from A to B,
    whose Burgers vector and line direction are both along x, so that the
    derived plane is the zero vector. *)
Lemma RecalcSegGlidePlane_frame_witness :
  RecalcSegGlidePlane NULL (Some 1%nat) 0 Demo.world0 = Ret (tt, Demo.world0) /\
  RecalcSegGlidePlane (Some 2%nat) (Some 0%nat) 0 Demo.world0
    = Ret (tt, Demo.world0) /\
  RecalcSegGlidePlane (Some 0%nat) (Some 1%nat) 1 Demo.world0
    = Ret (tt, Demo.world0).
Proof.
  split; [|split].
  - apply (proj1 RecalcSegGlidePlane_frame). left. reflexivity.
  - apply (proj1 (proj2 RecalcSegGlidePlane_frame) Demo.world0 2%nat 0%nat
             Demo.nodeC Demo.nodeA);
      [reflexivity | reflexivity | exact Demo_nodeC_wf | exact Demo_no_arm_C_to_A].
  - apply (proj2 (proj2 RecalcSegGlidePlane_frame) Demo.world0 0%nat 1%nat
             Demo.nodeA Demo.nodeB 0%nat 1%float 0%float 0%float 1);
      try reflexivity;
      [exact Demo_nodeA_wf | exact Demo_nodeB_wf | exact Demo_armA_to_B | lia].
Defined.

(** Slot 0 of node C is a removed arm: its valid neighbor of rank 0 is the
    tag of slot 1, and it has no valid neighbor of rank 1. *)
Lemma GetNeighborNode_nth_valid_witness :
  GetNeighborNode (Some 2%nat) 0 Demo.world0
    = GetNodeFromTag (mkTag 1 7) Demo.world0 /\
  GetNeighborNode (Some 2%nat) 1 Demo.world0
    = Ret (NULL,
           mkWorld Demo.home0 Demo.heap0
             [Printf "GetNeighborNode returning NULL for node (%d,%d) nbr %d\n"
                     [0; 2; 1];
              NodeDump Demo.nodeC]).
Proof.
  split.
  - apply (proj1 GetNeighborNode_nth_valid Demo.world0 2%nat Demo.nodeC 0);
      [lia | reflexivity | exact Demo_nodeC_wf | reflexivity].
  - apply (proj1 GetNeighborNode_nth_valid Demo.world0 2%nat Demo.nodeC 1);
      [lia | reflexivity | exact Demo_nodeC_wf | vm_compute; lia].
Defined.

(** B returns the arm of A, in its slot 0; it does not return the arm of C,
    and the call on C and B writes at index -1. *)
Lemma RecalcSegGlidePlane_node2SegID_in_bounds_witness :
  (exists node2SegID : Z,
     GetArmID (Some 1%nat) (Some 0%nat) Demo.world0
       = Ret (node2SegID, Demo.world0) /\
     0 <= node2SegID < numNbrs Demo.nodeB) /\
  (exists w', RecalcSegGlidePlane (Some 3%nat) (Some 1%nat) 0 Demo.world0
              = Ret (tt, w')) /\
  (GetArmID (Some 1%nat) (Some 2%nat) Demo.world0 = Ret (-1, Demo.world0) /\
   RecalcSegGlidePlane (Some 2%nat) (Some 1%nat) 0 Demo.world0 = Undefined).
Proof.
  split; [|split].
  - destruct (proj1 RecalcSegGlidePlane_node2SegID_in_bounds Demo.world0
                0%nat 1%nat Demo.nodeA Demo.nodeB)
      as (id & Hid & Hrange & _).
    + reflexivity.
    + reflexivity.
    + exact Demo_nodeB_wf.
    + exists 0%nat. split; [cbn; lia | reflexivity].
    + exists id. split; [exact Hid | exact Hrange].
  - apply (proj1 (proj2 RecalcSegGlidePlane_node2SegID_in_bounds) Demo.world0
             3%nat 1%nat Demo.nodeD Demo.nodeB 0);
      [reflexivity | reflexivity | exact Demo_nodeD_wf | exact Demo_nodeB_wf |].
    exists 1%nat. split; [cbn; lia | reflexivity].
  - apply (proj2 (proj2 RecalcSegGlidePlane_node2SegID_in_bounds) Demo.world0
             2%nat 1%nat Demo.nodeC Demo.nodeB 1%nat);
      [lia | reflexivity | reflexivity | exact Demo_nodeC_wf
       | exact Demo_nodeB_wf | exact Demo_armC_to_B | exact Demo_no_arm_B_to_C].
Defined.

End Instances.

(** ** The further properties at concrete inputs *)

Section MoreInstances.
#[local] Existing Instance Demo.ext.



Lemma Demo_five_appends_fit : appends_fit Demo.home0 5.
Proof. intros _. cbn. unfold INT_MAX. lia. Qed.

Lemma Demo_armD_to_B : first_arm_to Demo.nodeD (myTag Demo.nodeB) 0.
Proof.
  unfold first_arm_to. cbn. split; [lia|]. split; [reflexivity|]. intros; lia.
Qed.

Lemma Demo_armB_to_D : first_arm_to Demo.nodeB (myTag Demo.nodeD) 1.
Proof.
  unfold first_arm_to. cbn. split; [lia|]. split; [reflexivity|].
  intros [|j] t Hj Ht; [|lia]. cbn in Ht. injection Ht as <-. discriminate.
Qed.

Lemma DomainOwnsSeg_alternates_with_cycle_witness :
  exists r r' : Z,
    DomainOwnsSeg OPCLASS_COLLISION 2 (mkTag 5 0) (Demo.world_at 4)
      = Ret (r, Demo.world_at 4) /\
    DomainOwnsSeg OPCLASS_COLLISION 2 (mkTag 5 0) (Demo.world_at 5)
      = Ret (r', Demo.world_at 5) /\
    negates r r'.
Proof.
  apply DomainOwnsSeg_alternates_with_cycle.
  - unfold valid_opClass. tauto.
  - cbn. lia.
  - reflexivity.
Defined.

Lemma DomainOwnsSeg_depends_on_parity_and_domains_witness :
  outcome_value (DomainOwnsSeg OPCLASS_REMESH 2 (mkTag 5 0) (Demo.world_at 4)) =
  outcome_value (DomainOwnsSeg OPCLASS_REMESH 2 (mkTag 5 9) (Demo.world_at 6)).
Proof.
  apply (proj1 DomainOwnsSeg_depends_on_parity_and_domains); reflexivity.
Defined.

Lemma Connected_iff_first_arm_witness :
  Connected (Some 0%nat) (Some 1%nat) Demo.world0 = Ret ((1, 0), Demo.world0) /\
  Connected (Some 2%nat) (Some 0%nat) Demo.world0 = Ret ((0, -1), Demo.world0).
Proof.
  split.
  - apply (proj1 (Connected_iff_first_arm Demo.world0 0%nat 1%nat Demo.nodeA
                    Demo.nodeB eq_refl eq_refl Demo_nodeA_wf) 0%nat).
    exact Demo_armA_to_B.
  - apply (proj2 (Connected_iff_first_arm Demo.world0 2%nat 0%nat Demo.nodeC
                    Demo.nodeA eq_refl eq_refl Demo_nodeC_wf)).
    exact Demo_no_arm_C_to_A.
Defined.

Lemma GetNeighborNode_dense_witness :
  GetNeighborNode (Some 0%nat) 0 Demo.world0
    = GetNodeFromTag (mkTag 1 7) Demo.world0 /\
  GetNeighborNode (Some 0%nat) 1 Demo.world0
    = Ret (NULL, neighbor_not_found Demo.world0 Demo.nodeA 1).
Proof.
  assert (Hall : forall (i : nat) (t : Tag_t),
            (i < Z.to_nat (numNbrs Demo.nodeA))%nat ->
            nbrTag Demo.nodeA !! i = Some t -> 0 <= domainID t).
  { intros [|i] t Hi Ht; cbn in Hi, Ht; [|lia]. injection Ht as <-. cbn. lia. }
  destruct (GetNeighborNode_dense Demo.world0 0%nat Demo.nodeA eq_refl
              Demo_nodeA_wf Hall) as [Hin Hout].
  split.
  - apply Hin; [cbn; lia | reflexivity].
  - apply Hout; cbn; lia.
Defined.

(** Slot 0 of node C is a removed arm with tag (-1,0). *)
Lemma GetNeighborNode_negative_index_witness :
  GetNeighborNode (Some 2%nat) (-2) Demo.world0
    = Ret (NULL, neighbor_not_found Demo.world0 Demo.nodeC (-2)) /\
  GetNeighborNode (Some 2%nat) (-1) Demo.world0
    = FatalExit "GetNodeFromTag: invalid tag (%d,%d)" [-1; 0] /\
  GetNeighborNode (Some 0%nat) (-1) Demo.world0
    = Ret (NULL, neighbor_not_found Demo.world0 Demo.nodeA (-1)).
Proof.
  destruct (GetNeighborNode_negative_index Demo.world0 2%nat Demo.nodeC eq_refl
              Demo_nodeC_wf) as (Hlow & _ & Hfirst).
  destruct (GetNeighborNode_negative_index Demo.world0 0%nat Demo.nodeA eq_refl
              Demo_nodeA_wf) as (_ & _ & HfirstA).
  split; [apply Hlow; lia|]. split.
  - apply (Hfirst (mkTag (-1) 0)); [cbn; lia | reflexivity | cbn; lia].
  - apply (HfirstA (mkTag 1 7)); [cbn; lia | reflexivity | cbn; lia].
Defined.


Lemma AddOps_capacity_policy_witness :
  exists h' : Home_t,
    AddOps [Demo.op 1; Demo.op 2; Demo.op 3; Demo.op 4; Demo.op 5] Demo.world0
      = Ret (tt, mkWorld h' Demo.heap0 []) /\
    OpListLen h' < 5 + 2 /\
    exists m : Z, 0 <= m /\ OpListLen h' = 0 + m * 2.
Proof.
  destruct (AddOps_capacity_policy (E := Demo.ext) ltac:(cbn; lia) Demo.world0
              [Demo.op 1; Demo.op 2; Demo.op 3; Demo.op 4; Demo.op 5]
              Demo_log0_wf Demo_five_appends_fit)
    as (h' & Hrun & _ & _ & _ & _ & Hgrow & Hm).
  exists h'. split; [exact Hrun|]. split; [|exact Hm].
  apply Hgrow. cbn. lia.
Defined.


Lemma ClearOpList_zeroes_witness :
  exists h' : Home_t,
    ClearOpList Demo.world1 = Ret (tt, mkWorld h' Demo.heap0 []) /\
    OpCount h' = 0 /\ OpListLen h' = 3 /\
    opList h' !! 0%nat = Some (Some zero_op).
Proof.
  destruct (proj1 (ClearOpList_zeroes Demo.world1) ltac:(cbn; lia))
    as (h' & Hrun & _ & _ & Hcnt & Hlen & _ & Hzero & _).
  exists h'. split; [exact Hrun|]. split; [exact Hcnt|].
  split; [exact Hlen|]. apply Hzero. cbn. lia.
Defined.

(** The list of the second world holds two entries in a buffer of three
    slots.  After the clear, one append: the entry is in slot 0, slots 1 and
    2 hold the zero entry, and there is no slot 3. *)
Lemma ClearOpList_then_AddOps_witness :
  exists h' : Home_t,
    (run ClearOpList in AddOps [Demo.op 7]) Demo.world1
      = Ret (tt, mkWorld h' Demo.heap0 []) /\
    OpCount h' = 1 /\
    opList h' !! 0%nat = Some (Some (Demo.op 7)) /\
    opList h' !! 1%nat = Some (Some zero_op) /\
    (opList h' !! 3%nat = Some None \/ opList h' !! 3%nat = None) /\
    (forall op : Operate_t, opList h' !! 1%nat = Some (Some op) -> op = zero_op).
Proof.
  destruct (ClearOpList_then_AddOps (E := Demo.ext) ltac:(cbn; lia)
              Demo.world1 [Demo.op 7] ltac:(cbn; lia) ltac:(reflexivity)
              ltac:(cbn; lia))
    as (h' & Hrun & Hcnt & _ & Hslots & Hzero & Hnew & Hread).
  exists h'. split; [exact Hrun|]. split; [exact Hcnt|]. split.
  { apply (Hslots 0%nat). reflexivity. }
  split; [apply Hzero; cbn; lia|].
  split; [apply Hnew; cbn; lia|].
  intros op. apply Hread. cbn. lia.
Defined.

Lemma InitOpList_then_AddOps_witness :
  exists h' : Home_t,
    (run InitOpList in AddOps [Demo.op 1; Demo.op 2]) Demo.world1
      = Ret (tt, mkWorld h' Demo.heap0 []) /\
    OpCount h' = 2 /\ OpListLen h' = 2 /\
    opList h' !! 1%nat = Some (Some (Demo.op 2)).
Proof.
  destruct (InitOpList_then_AddOps (E := Demo.ext) ltac:(cbn; lia)
              Demo.world1 [Demo.op 1; Demo.op 2] ltac:(cbn; lia))
    as (h0 & h' & _ & _ & _ & _ & _ & Hrun & Hcnt & Hlen & Hslots).
  exists h'. split; [exact Hrun|]. split; [exact Hcnt|].
  split; [exact Hlen|]. apply (Hslots 1%nat). reflexivity.
Defined.

Lemma ResetSegForces_log_entry_witness :
  exists w' : World,
    ResetSegForces (Some 0%nat) (mkTag 1 7) 4%float 5%float 6%float 1 Demo.world0
      = Ret (tt, w') /\
    OpCount (home w') = 1 /\
    opList (home w') !! 0%nat =
      Some (Some (mkOp RESET_SEG_FORCES 0 3 1 7 (-1) (-1)
                       0%float 0%float 0%float 4%float 5%float 6%float
                       0%float 0%float 0%float)).
Proof.
  destruct (ResetSegForces_log_entry Demo.world0 0%nat Demo.nodeA (mkTag 1 7)
              4%float 5%float 6%float 1 eq_refl Demo_nodeA_wf)
    as (w' & Hrun & _ & _ & _ & Hlog).
  - intros _. exact Demo_log0_ready.
  - destruct (Hlog ltac:(lia)) as (_ & Hcnt & Hslot & _).
    exists w'. split; [exact Hrun|]. split; [exact Hcnt | exact Hslot].
Defined.

Lemma ResetSegForces_node_frame_witness :
  exists (w' : World) (a' : Node_t),
    ResetSegForces (Some 0%nat) (mkTag 1 7) 4%float 5%float 6%float 0 Demo.world0
      = Ret (tt, w') /\
    heap w' !! 0%nat = Some a' /\
    nbrTag a' = [mkTag 1 7] /\ burgX a' = [1%float] /\ flags a' = 1.
Proof.
  destruct (ResetSegForces_node_frame Demo.world0 0%nat Demo.nodeA (mkTag 1 7)
              4%float 5%float 6%float 0 eq_refl Demo_nodeA_wf)
    as (w' & a' & Hrun & Ha' & _ & _ & _ & _ & Htags & Hburg & _ & Hfl & _).
  - intros H. contradiction.
  - exists w', a'. split; [exact Hrun|]. split; [exact Ha'|].
    split; [exact Htags|]. split; [now injection Hburg | exact Hfl].
Defined.

Lemma ResetSegForces_idempotent_witness :
  exists w' : World,
    ResetSegForces (Some 0%nat) (mkTag 1 7) 4%float 5%float 6%float 0 Demo.world0
      = Ret (tt, w') /\
    ResetSegForces (Some 0%nat) (mkTag 1 7) 4%float 5%float 6%float 0 w'
      = Ret (tt, w').
Proof.
  apply (ResetSegForces_idempotent Demo.world0 0%nat Demo.nodeA);
    [reflexivity | exact Demo_nodeA_wf].
Defined.

(** Node E has no arm and the stale total force (7,8,9); the call logs the
    operation. *)
Lemma ResetSegForces_no_arms_witness :
  exists (w' : World) (a' : Node_t),
    ResetSegForces (Some 4%nat) (mkTag 1 7) 4%float 5%float 6%float 1 Demo.worldE
      = Ret (tt, w') /\
    heap w' !! 4%nat = Some a' /\
    (fX a', fY a', fZ a') = (0%float, 0%float, 0%float) /\
    flag_set (flags a') NODE_RESET_FORCES.
Proof.
  destruct (ResetSegForces_no_arms Demo.worldE 4%nat Demo.nodeE (mkTag 1 7)
              4%float 5%float 6%float 1 eq_refl ltac:(cbn; lia))
    as [Hpost Hret].
  destruct (Hret (fun _ => Demo_log0_ready)) as [w' Hrun].
  destruct (Hpost w' Hrun) as (a' & Ha' & Hzero & _ & Hflag).
  exists w', a'. auto.
Defined.

Lemma MarkNodeForceObsolete_local_witness :
  MarkNodeForceObsolete 8 (Some 0%nat) Demo.world0 =
  Ret (tt, mkWorld Demo.home0
             (<[0%nat := set_flags Demo.nodeA 1]> Demo.heap0) []).
Proof.
  exact (proj1 (MarkNodeForceObsolete_local 8 Demo.world0 0%nat Demo.nodeA
                  eq_refl eq_refl)).
Defined.

Lemma MarkNodeForceObsolete_remote_witness :
  exists h' : Home_t,
    MarkNodeForceObsolete 8 (Some 1%nat) Demo.world0 =
      Ret (tt, mkWorld h' (<[1%nat := set_flags Demo.nodeB 1]> Demo.heap0) []) /\
    OpCount h' = 1 /\
    opList h' !! 0%nat =
      Some (Some (mkOp 8 1 7 (-1) (-1) (-1) (-1)
                       0%float 0%float 0%float 0%float 0%float 0%float
                       0%float 0%float 0%float)).
Proof.
  destruct (MarkNodeForceObsolete_remote (E := Demo.ext) 8
              Demo.world0 1%nat Demo.nodeB eq_refl ltac:(cbn; lia)
              Demo_log0_ready)
    as (h' & Hrun & _ & Hcnt & Hslot & _).
  exists h'. split; [exact Hrun|]. split; [exact Hcnt | exact Hslot].
Defined.

Lemma MarkNodeForceObsolete_after_ResetSegForces_witness :
  (run ResetSegForces (Some 0%nat) (mkTag 1 7) 4%float 5%float 6%float 0 in
   MarkNodeForceObsolete 8 (Some 0%nat)) Demo.world0 =
  ResetSegForces (Some 0%nat) (mkTag 1 7) 4%float 5%float 6%float 0 Demo.world0.
Proof.
  apply (MarkNodeForceObsolete_after_ResetSegForces 8 Demo.world0 0%nat
           Demo.nodeA);
    [reflexivity | exact Demo_nodeA_wf | reflexivity].
Defined.

(** The segment from D to B is not screw: the plane (0,0,-1) goes into slot 0
    of D and slot 1 of B. *)
Lemma RecalcSegGlidePlane_symmetric_write_witness :
  RecalcSegGlidePlane (Some 3%nat) (Some 1%nat) 1 Demo.world0 =
  Ret (tt,
       mkWorld Demo.home0
         (<[1%nat := with_normal Demo.nodeB 1 (0%float, 0%float, (-1)%float)]>
            (<[3%nat := with_normal Demo.nodeD 0 (0%float, 0%float, (-1)%float)]>
               Demo.heap0))
         []).
Proof.
  exact (RecalcSegGlidePlane_symmetric_write Demo.world0 3%nat 1%nat
           Demo.nodeD Demo.nodeB 0%nat 1%nat 0%float 1%float 0%float 1
           ltac:(lia) eq_refl eq_refl Demo_nodeD_wf Demo_nodeB_wf
           Demo_armD_to_B Demo_armB_to_D eq_refl eq_refl eq_refl
           (or_introl eq_refl)).
Defined.

Lemma RecalcSegGlidePlane_idempotent_witness :
  exists w' : World,
    RecalcSegGlidePlane (Some 3%nat) (Some 1%nat) 0 Demo.world0 = Ret (tt, w') /\
    RecalcSegGlidePlane (Some 3%nat) (Some 1%nat) 0 w' = Ret (tt, w').
Proof.
  apply (RecalcSegGlidePlane_idempotent Demo.world0 3%nat 1%nat
           Demo.nodeD Demo.nodeB 0%nat 1%nat 0);
    [lia | reflexivity | reflexivity | exact Demo_nodeD_wf | exact Demo_nodeB_wf
     | exact Demo_armD_to_B | exact Demo_armB_to_D].
Defined.

Lemma folding_leaves_free_coordinates_witness :
  ZImage Demo.prm (3%float, 4%float, 5%float) = (3%float, 4%float, 5%float) /\
  PBCPOSITION Demo.prm 0%float 0%float 0%float (3%float, 4%float, 5%float)
    = (3%float, 4%float, 5%float) /\
  FoldBox Demo.prm (mkBoxSides 0%float 1%float 0%float 1%float 0%float 1%float)
          (3%float, 4%float, 5%float)
    = (3%float, 4%float, 5%float).
Proof.
  apply (proj1 folding_leaves_free_coordinates Demo.prm
           (mkBoxSides 0%float 1%float 0%float 1%float 0%float 1%float)
           0%float 0%float 0%float (3%float, 4%float, 5%float));
    cbn; lia.
Defined.

End MoreInstances.
